(** * bonobo.execution.strategies.executor

    A shallow embedding of the executor-based execution strategies
    ([ExecutorStrategy] and its thread, event-loop and process variants) and
    the properties of their control flow: which collaborator is called, in
    which order, and which exceptions are contained.

    The strategies drive external collaborators (the graph execution context,
    the executor pool, the nodes, the event loop, the settings).  These are
    kept abstract: a collaborator call is a function of an abstract world
    that either returns a value or raises.  Whatever the worker threads do
    to shared objects between two calls of the coordinating thread is part
    of the world transition of the next call. *)

From Stdlib Require Import List String Bool Arith Lia.
Import ListNotations.

(** ** Python exceptions *)

Module Py.

(** The built-in classes the module names or can meet, and two families of
    user classes: derived from [Exception], or directly from
    [BaseException]. *)
Inductive pyclass : Type :=
| BaseException
| SystemExit
| KeyboardInterrupt
| GeneratorExit
| Exception
| RuntimeError
| NotImplementedError
| ValueError
| OSError
| UserError (name : string)
| UserBaseError (name : string).

Definition pyclass_eq_dec (c d : pyclass) : {c = d} + {c <> d}.
Proof. decide equality; apply string_dec. Defined.

Definition pyclass_eqb (c d : pyclass) : bool :=
  if pyclass_eq_dec c d then true else false.

(** The direct base class. *)
Definition base_of (c : pyclass) : option pyclass :=
  match c with
  | BaseException => None
  | SystemExit | KeyboardInterrupt | GeneratorExit => Some BaseException
  | Exception => Some BaseException
  | RuntimeError | ValueError | OSError => Some Exception
  | NotImplementedError => Some RuntimeError
  | UserError _ => Some Exception
  | UserBaseError _ => Some BaseException
  end.

Fixpoint issubclass_upto (depth : nat) (c k : pyclass) : bool :=
  if pyclass_eqb c k then true
  else match depth with
       | 0 => false
       | S d => match base_of c with
                | Some b => issubclass_upto d b k
                | None => false
                end
       end.

(** The hierarchy above is three levels deep. *)
Definition issubclass (c k : pyclass) : bool := issubclass_upto 3 c k.

(** A raised exception object: its class and its message. *)
Record exc : Type := mkExc { exc_type : pyclass; exc_msg : string }.

Definition isinstance (e : exc) (k : pyclass) : bool :=
  issubclass (exc_type e) k.

End Py.
Import Py.

(** ** Outcomes *)

(** What a collaborator call does: return a value or raise. *)
Inductive reply (A : Type) : Type :=
| Returns (a : A)
| Raises (e : exc).
Arguments Returns {A} a.
Arguments Raises {A} e.

(** What a piece of the module does: complete normally, raise, or still be
    inside its [while] loop when the fuel given to the loop is used up. *)
Inductive outcome (A : Type) : Type :=
| Normal (a : A)
| Raised (e : exc)
| Unfinished.
Arguments Normal {A} a.
Arguments Raised {A} e.
Arguments Unfinished {A}.

Definition of_reply {A} (r : reply A) : outcome A :=
  match r with
  | Returns a => Normal a
  | Raises e => Raised e
  end.

(** The exception a reply carries, as [__exit__] receives it. *)
Definition exc_of {A} (r : reply A) : option exc :=
  match r with
  | Returns _ => None
  | Raises e => Some e
  end.

(** Logging levels used by the module. *)
Inductive level : Type := WARNING | CRITICAL.

(** The [concurrent.futures] classes used as [executor_factory]. *)
Inductive factory : Type := Executor | ThreadPoolExecutor | ProcessPoolExecutor.

(** The four strategy classes. *)
Inductive strategy : Type :=
| ExecutorStrategy
| ThreadPoolExecutorStrategy
| AsyncThreadPoolExecutorStrategy
| ProcessPoolExecutorStrategy.

(** ** Messages *)

Module Msg.
Local Open Scope string_scope.

Definition start_failed : string :=
  "Exception caught while starting execution context.".
Definition interrupted : string :=
  "KeyboardInterrupt received. Trying to terminate the nodes gracefully.".
Definition runner_failed : string :=
  "Critical error in threadpool node starter.".
Definition submit_failed : string := "futures.append".
Definition experimental (name : string) : string :=
  name ++ " is experimental, you need to explicitely activate it using "
       ++ "ALPHA=True in system env.".

End Msg.

(** ** The monad of the embedding *)

Section Monad.

Context {St Ev : Type}.

(** A computation maps a store to an outcome, the store it leaves, and the
    calls it made, in order. *)
Definition Comp (A : Type) : Type := St -> outcome A * St * list Ev.

Definition ret {A} (a : A) : Comp A := fun s => (Normal a, s, []).

Definition raise {A} (e : exc) : Comp A := fun s => (Raised e, s, []).

Definition out_of_fuel {A} : Comp A := fun s => (Unfinished, s, []).

Definition bind {A B} (m : Comp A) (k : A -> Comp B) : Comp B :=
  fun s =>
    match m s with
    | (Normal a, s1, t1) =>
        let '(r, s2, t2) := k a s1 in (r, s2, t1 ++ t2)
    | (Raised e, s1, t1) => (Raised e, s1, t1)
    | (Unfinished, s1, t1) => (Unfinished, s1, t1)
    end.

Local Notation "x <- c1 ;; c2" := (bind c1 (fun x => c2))
  (at level 61, c1 at next level, right associativity).
Local Notation "c1 ;; c2" := (bind c1 (fun _ => c2))
  (at level 61, right associativity).

(** Runs [m] and hands over how it ended. *)
Definition attempt {A} (m : Comp A) : Comp (reply A) :=
  fun s =>
    match m s with
    | (Normal a, s1, t1) => (Normal (Returns a), s1, t1)
    | (Raised e, s1, t1) => (Normal (Raises e), s1, t1)
    | (Unfinished, s1, t1) => (Unfinished, s1, t1)
    end.

(** [try: m  except k: handler] *)
Definition try_except {A} (m : Comp A) (k : pyclass)
    (handler : exc -> Comp A) : Comp A :=
  r <- attempt m ;;
  match r with
  | Returns a => ret a
  | Raises e => if isinstance e k then handler e else raise e
  end.

(** The body of a [with] statement once [__enter__] has returned:
    [__exit__] is called with the exception that left the body, if any; a
    true result swallows that exception. *)
Definition within (exit : option exc -> Comp bool) (body : Comp unit)
    : Comp unit :=
  r <- attempt body ;;
  match r with
  | Returns _ => exit None ;; ret tt
  | Raises e =>
      swallow <- exit (Some e) ;;
      if swallow then ret tt else raise e
  end.

(** [with manager as v: body] *)
Definition with_ {A} (enter : Comp A) (exit : option exc -> Comp bool)
    (body : A -> Comp unit) : Comp unit :=
  v <- enter ;; within exit (body v).

Fixpoint for_each {A} (l : list A) (f : A -> Comp unit) : Comp unit :=
  match l with
  | [] => ret tt
  | a :: l' => f a ;; for_each l' f
  end.

(** Every call [m] makes satisfies [P], from whatever store it runs. *)
Definition emits {A} (P : Ev -> Prop) (m : Comp A) : Prop :=
  forall s, Forall P (snd (m s)).

End Monad.

Arguments Comp St Ev A : clear implicits.

Notation "x <- c1 ;; c2" := (bind c1 (fun x => c2))
  (at level 61, c1 at next level, right associativity).
Notation "c1 ;; c2" := (bind c1 (fun _ => c2))
  (at level 61, right associativity).

Section Model.

(** References to the collaborating objects. *)
Context {W node C E H L : Type}.

(** A callable handed to an executor: the node runner of a node, or the
    thread-pool starter applied to a node (the event-loop variant submits
    the latter). *)
Inductive task : Type :=
| RunnerTask (n : node)
| StarterTask (executor : E) (n : node).

(** What a starter returns: [None], or the asyncio future that wraps an
    executor future. *)
Inductive pyvalue : Type :=
| PyNone
| AsyncFuture (l : L) (h : H).

(** The calls the module makes, as they appear in a trace. [ExecExit] and
    [NodeExit] carry the exception information passed to [__exit__]. *)
Inductive event : Type :=
| AlphaGet
| StrategyInit
| GetEventLoop
| CreateContext (graph : list node) (loop : option L)
| CtxWrite (c : C)
| CreateExecutor (f : factory) (max_workers : option nat)
| ExecEnter (ex : E)
| ExecExit (ex : E) (x : option exc)
| CtxStart (c : C)
| Offer (n : node)
| CtxStartEnd (c : C)
| LoopCheckClosed (l : L)
| Submit (executor : E) (t : task)
| CtxAlive (c : C)
| CtxTick (c : C)
| CtxKill (c : C)
| CtxStop (c : C)
| NodeEnter (n : node)
| NodeLoop (n : node)
| NodeExit (n : node) (x : option exc)
| Log (lvl : level) (msg : string) (x : option exc).

(** The collaborators. None of them is defined in this module. *)
Record Env : Type := mkEnv {
  (** [settings.ALPHA.get()] *)
  alpha_get : W -> reply bool * W;
  (** [Strategy.__init__] *)
  strategy_init : W -> reply unit * W;
  (** [get_name(self)] *)
  get_name : strategy -> string;
  (** [asyncio.get_event_loop()] *)
  get_event_loop : W -> reply L * W;
  (** [BaseEventLoop._check_closed] *)
  loop_check_closed : L -> W -> reply unit * W;
  (** [Strategy.create_graph_execution_context(graph, loop=...)] *)
  create_context : list node -> option L -> W -> reply C * W;
  (** [context.write(BEGIN, (), END)] *)
  ctx_write : C -> W -> reply unit * W;
  (** the nodes a context holds *)
  ctx_nodes : C -> list node;
  (** what [context.start] does before and after it offers the nodes *)
  ctx_start_begin : C -> W -> reply unit * W;
  ctx_start_end : C -> W -> reply unit * W;
  (** [context.alive], [context.tick()], [context.kill()], [context.stop()] *)
  ctx_alive : C -> W -> reply bool * W;
  ctx_tick : C -> W -> reply unit * W;
  ctx_kill : C -> W -> reply unit * W;
  ctx_stop : C -> W -> reply unit * W;
  (** [executor_factory(...)], with the [max_workers] keyword if given *)
  executor_factory : factory -> option nat -> W -> reply E * W;
  (** the executor as a context manager; [__exit__] returns a truth value *)
  exec_enter : E -> W -> reply E * W;
  exec_exit : E -> option exc -> W -> reply bool * W;
  (** [executor.submit(fn, *args)] *)
  submit : E -> task -> W -> reply H * W;
  (** the node as a context manager, and [node.loop()] *)
  node_enter : node -> W -> reply unit * W;
  node_exit : node -> option exc -> W -> reply bool * W;
  node_loop : node -> W -> reply unit * W
}.

Variable env : Env.

(** ** The store *)

(** The world of the collaborators, the [futures] list of the running
    [execute], and the value cached by the [loop] property. *)
Record store : Type := mkStore {
  world : W;
  futures : list H;
  loop_cache : option L
}.

Definition set_world (w : W) (s : store) : store :=
  mkStore w (futures s) (loop_cache s).
Definition set_futures (fs : list H) (s : store) : store :=
  mkStore (world s) fs (loop_cache s).
Definition set_loop_cache (l : L) (s : store) : store :=
  mkStore (world s) (futures s) (Some l).

(** Computations of the module: over the store, tracing calls. *)
Definition M : Type -> Type := Comp store event.

(** A collaborator call: recorded in the trace, then answered by the world. *)
Definition call {A} (ev : event) (op : W -> reply A * W) : M A :=
  fun s => let '(r, w) := op (world s) in (of_reply r, set_world w s, [ev]).

(** A log record, with the exception information if given. *)
Definition log (lvl : level) (msg : string) (x : option exc) : M unit :=
  fun s => (Normal tt, s, [Log lvl msg x]).

(** A mark in the trace. *)
Definition emit (ev : event) : M unit := fun s => (Normal tt, s, [ev]).

(** ** The module *)

(** The [loop] cached property of the event-loop strategy. *)
Definition read_loop_cache : M (option L) :=
  fun s => (Normal (loop_cache s), s, []).

Definition write_loop_cache (l : L) : M unit :=
  fun s => (Normal tt, set_loop_cache l s, []).

Definition self_loop : M L :=
  cached <- read_loop_cache ;;
  match cached with
  | Some l => ret l
  | None =>
      l <- call GetEventLoop (get_event_loop env) ;;
      write_loop_cache l ;;
      ret l
  end.

(** [__init__]: only the event-loop strategy defines one. *)
Definition init (k : strategy) : M unit :=
  match k with
  | AsyncThreadPoolExecutorStrategy =>
      alpha <- call AlphaGet (alpha_get env) ;;
      if negb alpha
      then raise (mkExc NotImplementedError (Msg.experimental (get_name env k)))
      else call StrategyInit (strategy_init env)
  | _ => call StrategyInit (strategy_init env)
  end.

(** [create_graph_execution_context]: the base class builds the context;
    the event-loop strategy adds [loop=self.loop].  Keyword arguments of
    [execute] are handed through and are part of the collaborator. *)
Definition create_graph_execution_context (k : strategy) (graph : list node)
    : M C :=
  match k with
  | AsyncThreadPoolExecutorStrategy =>
      l <- self_loop ;;
      call (CreateContext graph (Some l)) (create_context env graph (Some l))
  | _ => call (CreateContext graph None) (create_context env graph None)
  end.

(** The [executor_factory] class attribute; the event-loop strategy inherits
    the one of the thread-pool strategy. *)
Definition executor_factory_of (k : strategy) : factory :=
  match k with
  | ExecutorStrategy => Executor
  | ThreadPoolExecutorStrategy => ThreadPoolExecutor
  | AsyncThreadPoolExecutorStrategy => ThreadPoolExecutor
  | ProcessPoolExecutorStrategy => ProcessPoolExecutor
  end.

(** [create_executor]: [self.executor_factory()] in the base class,
    [self.executor_factory(max_workers=len(graph))] in the thread-pool
    strategy (inherited by the event-loop one) and in the process-pool
    strategy. *)
Definition create_executor (k : strategy) (graph : list node) : M E :=
  let f := executor_factory_of k in
  match k with
  | ExecutorStrategy =>
      call (CreateExecutor f None) (executor_factory env f None)
  | ThreadPoolExecutorStrategy | AsyncThreadPoolExecutorStrategy =>
      let max_workers := Some (List.length graph) in
      call (CreateExecutor f max_workers) (executor_factory env f max_workers)
  | ProcessPoolExecutorStrategy =>
      let max_workers := Some (List.length graph) in
      call (CreateExecutor f max_workers) (executor_factory env f max_workers)
  end.

(** [with node: node.loop()] *)
Definition node_scope (n : node) : M unit :=
  with_ (call (NodeEnter n) (node_enter env n))
        (fun x => call (NodeExit n x) (node_exit env n x))
        (fun _ => call (NodeLoop n) (node_loop env n)).

(** The unit of work [starter] submits for a node. *)
Definition _runner (n : node) : M pyvalue :=
  try_except (node_scope n) Exception
    (fun e => log CRITICAL Msg.runner_failed (Some e)) ;;
  ret PyNone.

(** [futures.append(h)] *)
Definition append_future (h : H) : M unit :=
  fun s => (Normal tt, set_futures (futures s ++ [h]) s, []).

(** [futures = []] *)
Definition reset_futures : M unit :=
  fun s => (Normal tt, set_futures [] s, []).

(** The callback returned by [ExecutorStrategy.get_starter].  The decorator
    [functools.wraps(node)] only copies the node's metadata onto [_runner];
    it calls none of the collaborators and is left out. *)
Definition starter (executor : E) (n : node) : M pyvalue :=
  try_except
    (h <- call (Submit executor (RunnerTask n))
               (submit env executor (RunnerTask n)) ;;
     append_future h)
    Exception
    (fun e => log CRITICAL Msg.submit_failed (Some e)) ;;
  ret PyNone.

(** What a worker does with a submitted callable. *)
Definition run_task (t : task) : M pyvalue :=
  match t with
  | RunnerTask n => _runner n
  | StarterTask executor n => starter executor n
  end.

(** [loop.run_in_executor(executor, func, *args)] of asyncio: the loop must
    be open, the callable is submitted to the executor, and the executor
    future is wrapped into a future of the loop. *)
Definition run_in_executor (l : L) (executor : E) (t : task) : M pyvalue :=
  call (LoopCheckClosed l) (loop_check_closed env l) ;;
  h <- call (Submit executor t) (submit env executor t) ;;
  ret (AsyncFuture l h).

(** [get_starter]: the base class returns [starter]; the event-loop strategy
    returns [partial(self.loop.run_in_executor, executor, starter)]. *)
Definition get_starter (k : strategy) (executor : E)
    : M (node -> M pyvalue) :=
  match k with
  | AsyncThreadPoolExecutorStrategy =>
      l <- self_loop ;;
      ret (fun n => run_in_executor l executor (StarterTask executor n))
  | _ => ret (starter executor)
  end.

(** Modelled from the spec: the iteration of [context.start] over the
    nodes, which belongs to the graph execution context and is not in this
    module.  The starter callback is invoked once per node, in order. *)
Definition offer_all (ns : list node) (start_node : node -> M pyvalue)
    : M unit :=
  for_each ns (fun n => emit (Offer n) ;; start_node n ;; ret tt).

(** Modelled from the spec: [context.start(starter)] belongs to the graph
    execution context, which is not in this module.  The context is asked
    to start every node and invokes the starter callback once per node;
    its own work before and after that is a collaborator call, and a
    failure anywhere abandons the start where it is. *)
Definition context_start (c : C) (start_node : node -> M pyvalue) : M unit :=
  call (CtxStart c) (ctx_start_begin env c) ;;
  offer_all (ctx_nodes env c) start_node ;;
  call (CtxStartEnd c) (ctx_start_end env c).

(** Line 37 of [execute]:
    [context.start(self.get_starter(executor, futures))] *)
Definition start_attempt (k : strategy) (c : C) (executor : E) : M unit :=
  start_node <- get_starter k executor ;; context_start c start_node.

(** Lines 36-42 of [execute]: the guarded start. *)
Definition start_guarded (k : strategy) (c : C) (executor : E) : M unit :=
  try_except (start_attempt k c executor) Exception
    (fun e => log CRITICAL Msg.start_failed (Some e)).

(** Lines 44-52 of [execute]: the tick loop. *)
Fixpoint tick_loop (fuel : nat) (c : C) : M unit :=
  match fuel with
  | 0 => out_of_fuel
  | S fuel' =>
      alive <- call (CtxAlive c) (ctx_alive env c) ;;
      if alive then
        stop_now <-
          try_except
            (call (CtxTick c) (ctx_tick env c) ;; ret false)
            KeyboardInterrupt
            (fun _ =>
               log WARNING Msg.interrupted None ;;
               call (CtxKill c) (ctx_kill env c) ;;
               ret true) ;;
        if stop_now then ret tt else tick_loop fuel' c
      else ret tt
  end.

(** Lines 44-54 of [execute]: the tick loop, then [context.stop()]. *)
Definition tick_and_stop (fuel : nat) (c : C) : M unit :=
  tick_loop fuel c ;;
  call (CtxStop c) (ctx_stop env c).

(** The body of the [with] statement of [execute]. *)
Definition supervise (k : strategy) (fuel : nat) (c : C) (executor : E)
    : M unit :=
  start_guarded k c executor ;;
  tick_and_stop fuel c.

(** [__exit__] of the executor. *)
Definition executor_exit (ex : E) (x : option exc) : M bool :=
  call (ExecExit ex x) (exec_exit env ex x).

(** [execute(graph)]; [fuel] bounds the iterations of the tick loop. *)
Definition execute (k : strategy) (graph : list node) (fuel : nat) : M C :=
  c <- create_graph_execution_context k graph ;;
  call (CtxWrite c) (ctx_write env c) ;;
  reset_futures ;;
  ex <- create_executor k graph ;;
  with_ (call (ExecEnter ex) (exec_enter env ex)) (executor_exit ex)
        (supervise k fuel c) ;;
  ret c.

End Model.

(** ** Reading traces *)

Section Traces.

Context {node C E L : Type}.

Definition is_tick (ev : @event node C E L) : bool :=
  match ev with CtxTick _ => true | _ => false end.

Definition is_kill (ev : @event node C E L) : bool :=
  match ev with CtxKill _ => true | _ => false end.

Definition is_stop (ev : @event node C E L) : bool :=
  match ev with CtxStop _ => true | _ => false end.

Definition is_release (ev : @event node C E L) : bool :=
  match ev with ExecExit _ _ => true | _ => false end.

Definition is_node_exit (ev : @event node C E L) : bool :=
  match ev with NodeExit _ _ => true | _ => false end.

Definition is_log (ev : @event node C E L) : bool :=
  match ev with Log _ _ _ => true | _ => false end.

(** The calls made before the body of the [with] statement of [execute]. *)
Definition is_setup (ev : @event node C E L) : bool :=
  match ev with
  | GetEventLoop | CreateContext _ _ | CtxWrite _ | CreateExecutor _ _
  | ExecEnter _ => true
  | _ => false
  end.

(** The calls and log records of the guarded start. *)
Definition is_starting (ev : @event node C E L) : bool :=
  match ev with
  | GetEventLoop | CtxStart _ | Offer _ | CtxStartEnd _ | LoopCheckClosed _
  | Submit _ _ | Log CRITICAL _ _ => true
  | _ => false
  end.

(** The calls and log records of a starter callback. *)
Definition is_submitting (ev : @event node C E L) : bool :=
  match ev with
  | LoopCheckClosed _ | Submit _ _ | Log CRITICAL _ _ => true
  | _ => false
  end.

(** The calls and log records of the tick loop. *)
Definition is_looping (ev : @event node C E L) : bool :=
  match ev with
  | CtxAlive _ | CtxTick _ | CtxKill _ | Log WARNING _ _ => true
  | _ => false
  end.

(** The calls that follow the guarded start: the tick loop, [stop()] and
    the release of the executor. *)
Definition is_closing (ev : @event node C E L) : bool :=
  match ev with
  | CtxStop _ | ExecExit _ _ => true
  | _ => is_looping ev
  end.

(** How many calls of a kind a trace holds. *)
Definition count (kind : @event node C E L -> bool) (t : list event) : nat :=
  List.length (filter kind t).

(** The nodes offered to the starter, in order. *)
Fixpoint offers (t : list (@event node C E L)) : list node :=
  match t with
  | [] => []
  | Offer n :: t' => n :: offers t'
  | _ :: t' => offers t'
  end.

(** The callables submitted to an executor, in order. *)
Fixpoint submitted (t : list (@event node C E L)) : list (@task node E) :=
  match t with
  | [] => []
  | Submit _ k :: t' => k :: submitted t'
  | _ :: t' => submitted t'
  end.

End Traces.

(** ** Phases of [execute] *)

Section Phases.

Context {W node C E H L : Type} (env : @Env W node C E H L).

(** Lines 30-35 of [execute], up to and including [__enter__] of the
    executor: the context, the pool, and the value bound by [as]. *)
Definition prologue (k : strategy) (graph : list node) : M (C * E * E) :=
  c <- create_graph_execution_context env k graph ;;
  call (CtxWrite c) (ctx_write env c) ;;
  reset_futures ;;
  ex <- create_executor env k graph ;;
  executor <- call (ExecEnter ex) (exec_enter env ex) ;;
  ret (c, ex, executor).

(** [j] iterations of the tick loop in which the context is alive and
    [tick()] returns: the store they lead to and the calls they make. *)
Fixpoint rounds (c : C) (j : nat) (s : @store W H L)
    : option (@store W H L * list (@event node C E L)) :=
  match j with
  | 0 => Some (s, [])
  | S j' =>
      match ctx_alive env c (world s) with
      | (Returns true, w1) =>
          match ctx_tick env c w1 with
          | (Returns _, w2) =>
              match rounds c j' (set_world w2 s) with
              | Some (s', t) => Some (s', CtxAlive c :: CtxTick c :: t)
              | None => None
              end
          | (Raises _, _) => None
          end
      | _ => None
      end
  end.

(** Every submission to [executor] for the nodes of [ns], made in this
    order from world [w], returns or raises an instance of [Exception]. *)
Fixpoint submissions_contained (executor : E) (ns : list node) (w : W) : Prop :=
  match ns with
  | [] => True
  | n :: ns' =>
      match submit env executor (RunnerTask n) w with
      | (Returns _, w') => submissions_contained executor ns' w'
      | (Raises e, w') =>
          isinstance e Exception = true /\ submissions_contained executor ns' w'
      end
  end.

(** What [execute] returns when the [with] statement ended as [r]. *)
Definition returning (c : C) (r : outcome unit) : outcome C :=
  match r with
  | Normal _ => Normal c
  | Raised e => Raised e
  | Unfinished => Unfinished
  end.

End Phases.

(** ** A scripted environment *)

Module Demo.

(** Which calls fail, and how long the context stays alive. *)
Record plan : Type := mkPlan {
  alpha : bool;
  create_fault : option exc;
  start_fault : option exc;
  submit_fault : nat -> option exc;
  tick_fault : nat -> option exc;
  lifetime : nat;
  kill_fault : option exc;
  enter_fault : nat -> option exc;
  loop_fault : nat -> option exc
}.

Definition answer {A} (fault : option exc) (a : A) (w : nat) : reply A * nat :=
  match fault with
  | Some e => (Raises e, w)
  | None => (Returns a, w)
  end.

Definition class_name : string := "AsyncThreadPoolExecutorStrategy"%string.

(** Nodes, executors, futures and loops are numbers, a context is the list
    of its nodes, and the world counts the ticks made so far. *)
Definition env (p : plan) : @Env nat nat (list nat) nat nat nat :=
  {| alpha_get := fun w => (Returns (alpha p), w);
     strategy_init := answer None tt;
     get_name := fun _ => class_name;
     get_event_loop := answer None 7;
     loop_check_closed := fun _ => answer None tt;
     create_context := fun g _ => answer (create_fault p) g;
     ctx_write := fun _ => answer None tt;
     ctx_nodes := fun c => c;
     ctx_start_begin := fun _ => answer (start_fault p) tt;
     ctx_start_end := fun _ => answer None tt;
     ctx_alive := fun _ w => (Returns (w <? lifetime p), w);
     ctx_tick := fun _ w =>
       match tick_fault p w with
       | Some e => (Raises e, S w)
       | None => (Returns tt, S w)
       end;
     ctx_kill := fun _ => answer (kill_fault p) tt;
     ctx_stop := fun _ => answer None tt;
     executor_factory := fun _ _ => answer None 1;
     exec_enter := fun ex => answer None ex;
     exec_exit := fun _ _ => answer None false;
     submit := fun _ t =>
       match t with
       | RunnerTask n => answer (submit_fault p n) (100 + n)
       | StarterTask _ n => answer (submit_fault p n) (200 + n)
       end;
     node_enter := fun n => answer (enter_fault p n) tt;
     node_exit := fun _ _ => answer None false;
     node_loop := fun n => answer (loop_fault p n) tt |}.

Definition boom : exc := mkExc RuntimeError "pool is shut down"%string.
Definition ctrl_c : exc := mkExc KeyboardInterrupt ""%string.
Definition sys_exit : exc := mkExc SystemExit "0"%string.

Definition no_fault : nat -> option exc := fun _ => None.
Definition fault_at (i : nat) (e : exc) : nat -> option exc :=
  fun j => if j =? i then Some e else None.

(** Nothing fails; the context is alive for two ticks. *)
Definition quiet : plan :=
  mkPlan true None None no_fault no_fault 2 None no_fault no_fault.

(** The context cannot be built. *)
Definition no_context : plan :=
  mkPlan true (Some boom) None no_fault no_fault 2 None no_fault no_fault.

(** [context.start] fails before it offers a node. *)
Definition failed_start : plan :=
  mkPlan true None (Some boom) no_fault no_fault 2 None no_fault no_fault.

(** The second [tick()] is interrupted. *)
Definition interrupted : plan :=
  mkPlan true None None no_fault (fault_at 1 ctrl_c) 5 None no_fault no_fault.

(** The second [tick()] fails. *)
Definition failed_tick : plan :=
  mkPlan true None None no_fault (fault_at 1 boom) 5 None no_fault no_fault.

(** The second [tick()] is interrupted, and [kill()] then fails. *)
Definition failed_kill : plan :=
  mkPlan true None None no_fault (fault_at 1 ctrl_c) 5 (Some boom) no_fault
    no_fault.

(** The pool refuses what is submitted for node 20. *)
Definition refused_submit : plan :=
  mkPlan true None None (fault_at 20 boom) no_fault 2 None no_fault no_fault.

(** Submitting for node 20 is interrupted. *)
Definition interrupted_submit : plan :=
  mkPlan true None None (fault_at 20 ctrl_c) no_fault 2 None no_fault no_fault.

(** The loop of node 10 fails, or exits the interpreter. *)
Definition failed_loop : plan :=
  mkPlan true None None no_fault no_fault 2 None no_fault (fault_at 10 boom).
Definition exiting_loop : plan :=
  mkPlan true None None no_fault no_fault 2 None no_fault
    (fault_at 10 sys_exit).

(** The ALPHA setting is off. *)
Definition no_alpha : plan :=
  mkPlan false None None no_fault no_fault 2 None no_fault no_fault.

Definition s0 : @store nat nat nat := mkStore 0 [] None.

Definition G : list nat := [10; 20; 30].

End Demo.

(** ** More readers of traces *)

Section MoreTraces.

Context {node C E L : Type}.

Definition is_alive_check (ev : @event node C E L) : bool :=
  match ev with CtxAlive _ => true | _ => false end.

Definition is_warning (ev : @event node C E L) : bool :=
  match ev with Log WARNING _ _ => true | _ => false end.

Definition is_start (ev : @event node C E L) : bool :=
  match ev with CtxStart _ => true | _ => false end.

Definition is_offer (ev : @event node C E L) : bool :=
  match ev with Offer _ => true | _ => false end.

Definition is_submit (ev : @event node C E L) : bool :=
  match ev with Submit _ _ => true | _ => false end.

Definition is_pool_request (ev : @event node C E L) : bool :=
  match ev with CreateExecutor _ _ => true | _ => false end.

Definition is_loop_lookup (ev : @event node C E L) : bool :=
  match ev with GetEventLoop => true | _ => false end.

Definition is_bridge (ev : @event node C E L) : bool :=
  match ev with LoopCheckClosed _ => true | _ => false end.

Definition is_node_loop (ev : @event node C E L) : bool :=
  match ev with NodeLoop _ => true | _ => false end.

(** The context a call is made on, if it is a call on a context. *)
Definition context_of (ev : @event node C E L) : option C :=
  match ev with
  | CtxWrite c | CtxStart c | CtxStartEnd c | CtxAlive c | CtxTick c
  | CtxKill c | CtxStop c => Some c
  | _ => None
  end.

(** The loop a call names, if it names one. *)
Definition loop_of (ev : @event node C E L) : option L :=
  match ev with
  | CreateContext _ (Some l) | LoopCheckClosed l => Some l
  | _ => None
  end.

End MoreTraces.

Section MorePhases.

Context {W node C E H L : Type} (env : @Env W node C E H L).

(** The handles [submit] returns for the runners of [ns], submitted in this
    order from world [w]; a refused submission gives none. *)
Fixpoint accepted (executor : E) (ns : list node) (w : W) : list H :=
  match ns with
  | [] => []
  | n :: ns' =>
      match submit env executor (RunnerTask n) w with
      | (Returns h, w') => h :: accepted executor ns' w'
      | (Raises _, w') => accepted executor ns' w'
      end
  end.

(** The world after the event-loop starter has been invoked for the nodes
    of [ns], if the loop was open and the pool took the callable each
    time. *)
Fixpoint bridged (l : L) (executor : E) (ns : list node) (w : W) : option W :=
  match ns with
  | [] => Some w
  | n :: ns' =>
      match loop_check_closed env l w with
      | (Returns _, w1) =>
          match submit env executor (StarterTask executor n) w1 with
          | (Returns _, w2) => bridged l executor ns' w2
          | (Raises _, _) => None
          end
      | (Raises _, _) => None
      end
  end.

(** The starter callback of the event-loop strategy for loop [l]. *)
Definition bridged_starter (l : L) (executor : E) (n : node)
    : @M W node C E H L (@pyvalue H L) :=
  run_in_executor env l executor (StarterTask executor n).

End MorePhases.

(** ** Scripted failures of the executor, the loop and the context *)

Module Faulty.

Record faults : Type := mkFaults {
  write_fault : option exc;
  factory_fault : option nat -> option exc;
  exec_enter_fault : option exc;
  exec_exit_reply : option exc -> reply bool;
  stop_fault : option exc;
  event_loop_fault : option exc;
  loop_closed_fault : option exc;
  node_exit_reply : option exc -> reply bool
}.

(** The scripted environment of [Demo], with these calls replaced. *)
Definition env (p : Demo.plan) (q : faults)
    : @Env nat nat (list nat) nat nat nat :=
  let d := Demo.env p in
  {| alpha_get := alpha_get d;
     strategy_init := strategy_init d;
     get_name := get_name d;
     get_event_loop := Demo.answer (event_loop_fault q) 7;
     loop_check_closed := fun _ => Demo.answer (loop_closed_fault q) tt;
     create_context := create_context d;
     ctx_write := fun _ => Demo.answer (write_fault q) tt;
     ctx_nodes := ctx_nodes d;
     ctx_start_begin := ctx_start_begin d;
     ctx_start_end := ctx_start_end d;
     ctx_alive := ctx_alive d;
     ctx_tick := ctx_tick d;
     ctx_kill := ctx_kill d;
     ctx_stop := fun _ => Demo.answer (stop_fault q) tt;
     executor_factory := fun _ mw => Demo.answer (factory_fault q mw) 1;
     exec_enter := fun ex => Demo.answer (exec_enter_fault q) ex;
     exec_exit := fun _ x w => (exec_exit_reply q x, w);
     submit := submit d;
     node_enter := node_enter d;
     node_exit := fun _ x w => (node_exit_reply q x, w);
     node_loop := node_loop d |}.

Definition never_swallow : option exc -> reply bool := fun _ => Returns false.
Definition swallow : option exc -> reply bool := fun _ => Returns true.

Definition no_size_fault : option nat -> option exc := fun _ => None.

(** [concurrent.futures] refuses a pool of no worker. *)
Definition bad_size : exc :=
  mkExc ValueError "max_workers must be greater than 0"%string.
Definition refuse_empty_pool : option nat -> option exc :=
  fun mw => match mw with Some 0 => Some bad_size | _ => None end.

Definition none : faults :=
  mkFaults None no_size_fault None never_swallow None None None never_swallow.

(** The factory refuses an empty pool. *)
Definition strict_factory : faults :=
  mkFaults None refuse_empty_pool None never_swallow None None None
    never_swallow.

(** The executor's [__exit__] returns a true value. *)
Definition swallowing_executor : faults :=
  mkFaults None no_size_fault None swallow None None None never_swallow.

(** The node's [__exit__] returns a true value. *)
Definition swallowing_node : faults :=
  mkFaults None no_size_fault None never_swallow None None None swallow.

(** The event loop is closed. *)
Definition closed_loop : faults :=
  mkFaults None no_size_fault None never_swallow None None (Some Demo.boom)
    never_swallow.

End Faulty.

(** ** Closing calls *)

Section FinalCalls.

Context {node C E L : Type}.

(** [stop()] and the release of the executor. *)
Definition is_final (ev : @event node C E L) : bool :=
  match ev with CtxStop _ | ExecExit _ _ => true | _ => false end.

End FinalCalls.

(** ** The size a strategy asks for *)

Section PoolSize.

Context {node : Type}.

(** The [max_workers] keyword of the pool request of strategy [k]: none for
    the base strategy, the number of nodes for the others. *)
Definition pool_size_of (k : strategy) (graph : list node) : option nat :=
  match k with
  | ExecutorStrategy => None
  | _ => Some (List.length graph)
  end.

End PoolSize.

(** * Properties *)

(** ** Running the combinators *)

Section MonadFacts.

Context {St Ev : Type}.

Lemma bind_normal {A B} (m : Comp St Ev A) (k : A -> Comp St Ev B) s a s1 t1 :
  m s = (Normal a, s1, t1) ->
  bind m k s = (let '(r, s2, t2) := k a s1 in (r, s2, t1 ++ t2)).
Proof. intros Hm. unfold bind. rewrite Hm. reflexivity. Qed.

Lemma bind_raised {A B} (m : Comp St Ev A) (k : A -> Comp St Ev B) s e s1 t1 :
  m s = (Raised e, s1, t1) -> bind m k s = (Raised e, s1, t1).
Proof. intros Hm. unfold bind. rewrite Hm. reflexivity. Qed.

Lemma within_normal (exit : option exc -> Comp St Ev bool) body s s1 t1 :
  body s = (Normal tt, s1, t1) ->
  within exit body s =
    match exit None s1 with
    | (Normal _, s2, t2) => (Normal tt, s2, t1 ++ t2)
    | (Raised e, s2, t2) => (Raised e, s2, t1 ++ t2)
    | (Unfinished, s2, t2) => (Unfinished, s2, t1 ++ t2)
    end.
Proof.
  intros Hb. unfold within, bind, attempt, ret. rewrite Hb.
  destruct (exit None s1) as [[[b | e |] s2] t2]; try reflexivity.
  now rewrite app_nil_r.
Qed.

Lemma within_raised (exit : option exc -> Comp St Ev bool) body s e s1 t1 :
  body s = (Raised e, s1, t1) ->
  within exit body s =
    match exit (Some e) s1 with
    | (Normal true, s2, t2) => (Normal tt, s2, t1 ++ t2)
    | (Normal false, s2, t2) => (Raised e, s2, t1 ++ t2)
    | (Raised e', s2, t2) => (Raised e', s2, t1 ++ t2)
    | (Unfinished, s2, t2) => (Unfinished, s2, t1 ++ t2)
    end.
Proof.
  intros Hb. unfold within, bind, attempt, ret, raise. rewrite Hb.
  destruct (exit (Some e) s1) as [[[[] | e' |] s2] t2]; try reflexivity;
    now rewrite app_nil_r.
Qed.

Lemma within_unfinished (exit : option exc -> Comp St Ev bool) body s s1 t1 :
  body s = (Unfinished, s1, t1) -> within exit body s = (Unfinished, s1, t1).
Proof. intros Hb. unfold within, bind, attempt. rewrite Hb. reflexivity. Qed.

Lemma emits_ret {A} (P : Ev -> Prop) (a : A) : emits P (@ret St Ev A a).
Proof. intros s. constructor. Qed.

Lemma emits_raise {A} (P : Ev -> Prop) e : emits P (@raise St Ev A e).
Proof. intros s. constructor. Qed.

Lemma emits_out_of_fuel {A} (P : Ev -> Prop) : emits P (@out_of_fuel St Ev A).
Proof. intros s. constructor. Qed.

Lemma emits_bind {A B} (P : Ev -> Prop) (m : Comp St Ev A)
    (k : A -> Comp St Ev B) :
  emits P m -> (forall a, emits P (k a)) -> emits P (bind m k).
Proof.
  intros Hm Hk s. unfold bind. specialize (Hm s).
  destruct (m s) as [[[a | e |] s1] t1]; simpl in *; trivial.
  specialize (Hk a s1). destruct (k a s1) as [[r s2] t2]; simpl in *.
  apply Forall_app. now split.
Qed.

Lemma emits_attempt {A} (P : Ev -> Prop) (m : Comp St Ev A) :
  emits P m -> emits P (attempt m).
Proof.
  intros Hm s. unfold attempt. specialize (Hm s).
  now destruct (m s) as [[[a | e |] s1] t1].
Qed.

Lemma emits_try_except {A} (P : Ev -> Prop) (m : Comp St Ev A) k h :
  emits P m -> (forall e, emits P (h e)) -> emits P (try_except m k h).
Proof.
  intros Hm Hh. unfold try_except. apply emits_bind.
  - now apply emits_attempt.
  - intros [a | e]; [apply emits_ret |].
    destruct (isinstance e k); [apply Hh | apply emits_raise].
Qed.

Lemma emits_within (P : Ev -> Prop) (exit : option exc -> Comp St Ev bool)
    body :
  (forall x, emits P (exit x)) -> emits P body -> emits P (within exit body).
Proof.
  intros Hexit Hbody. unfold within. apply emits_bind.
  - now apply emits_attempt.
  - intros [u | e]; apply emits_bind; trivial; intros b.
    + apply emits_ret.
    + destruct b; [apply emits_ret | apply emits_raise].
Qed.

Lemma emits_for_each {A} (P : Ev -> Prop) (l : list A)
    (f : A -> Comp St Ev unit) :
  (forall a, emits P (f a)) -> emits P (for_each l f).
Proof.
  intros Hf. induction l as [| a l IH]; simpl.
  - apply emits_ret.
  - apply emits_bind; [apply Hf | intros _; exact IH].
Qed.

Lemma emits_impl {A} (P Q : Ev -> Prop) (m : Comp St Ev A) :
  (forall ev, P ev -> Q ev) -> emits P m -> emits Q m.
Proof. intros HPQ Hm s. eapply Forall_impl; [exact HPQ | apply Hm]. Qed.

End MonadFacts.

(** ** The runner, the starter and the constructors *)

Section Units.

Context {W node C E H L : Type} (env : @Env W node C E H L).

Implicit Types (s : @store W H L) (n : node) (executor : E) (e : exc).

Lemma set_world_twice s (w1 w2 : W) :
  set_world w2 (set_world w1 s) = set_world w2 s.
Proof. reflexivity. Qed.

Lemma call_trace {A} (ev : @event node C E L) (op : W -> reply A * W) s :
  snd (call ev op s) = [ev].
Proof. unfold call. now destruct (op (world s)). Qed.

(** [KeyboardInterrupt] and [SystemExit] are no instances of [Exception];
    [NotImplementedError] and [RuntimeError] are. *)
Lemma exception_classes (msg : string) :
  isinstance (mkExc KeyboardInterrupt msg) Exception = false /\
  isinstance (mkExc SystemExit msg) Exception = false /\
  isinstance (mkExc NotImplementedError msg) Exception = true /\
  isinstance (mkExc RuntimeError msg) Exception = true /\
  isinstance (mkExc KeyboardInterrupt msg) KeyboardInterrupt = true.
Proof. repeat split. Qed.

(** How [with node: node.loop()] runs, call by call. *)
Lemma node_scope_run n s :
  node_scope env n s =
    match node_enter env n (world s) with
    | (Raises e, w1) => (Raised e, set_world w1 s, [NodeEnter n])
    | (Returns _, w1) =>
        let '(r, w2) := node_loop env n w1 in
        let t := [NodeEnter n; NodeLoop n; NodeExit n (exc_of r)] in
        match node_exit env n (exc_of r) w2, r with
        | (Raises e', w3), _ => (Raised e', set_world w3 s, t)
        | (Returns _, w3), Returns _ => (Normal tt, set_world w3 s, t)
        | (Returns true, w3), Raises _ => (Normal tt, set_world w3 s, t)
        | (Returns false, w3), Raises e => (Raised e, set_world w3 s, t)
        end
    end.
Proof.
  unfold node_scope, with_, within, attempt, bind, call, ret, raise.
  destruct (node_enter env n (world s)) as [[u | e] w1]; simpl; [| reflexivity].
  destruct (node_loop env n w1) as [[v | e] w2]; simpl.
  - destruct (node_exit env n None w2) as [[[] | e'] w3]; reflexivity.
  - destruct (node_exit env n (Some e) w2) as [[[] | e'] w3]; reflexivity.
Qed.

Lemma node_scope_finishes n s : fst (fst (node_scope env n s)) <> Unfinished.
Proof.
  rewrite node_scope_run.
  destruct (node_enter env n (world s)) as [[u | e] w1]; [| discriminate].
  destruct (node_loop env n w1) as [[v | e] w2]; simpl.
  - destruct (node_exit env n None w2) as [[[] | e'] w3]; discriminate.
  - destruct (node_exit env n (Some e) w2) as [[[] | e'] w3]; discriminate.
Qed.

(** How the runner ends, from how the node's scope ended. *)
Lemma runner_run n s :
  _runner env n s =
    match node_scope env n s with
    | (Normal _, s1, t1) => (Normal PyNone, s1, t1)
    | (Raised e, s1, t1) =>
        if isinstance e Exception
        then (Normal PyNone, s1,
              t1 ++ [Log CRITICAL Msg.runner_failed (Some e)])
        else (Raised e, s1, t1)
    | (Unfinished, s1, t1) => (Unfinished, s1, t1)
    end.
Proof.
  unfold _runner, try_except, attempt, bind, log, ret, raise.
  destruct (node_scope env n s) as [[[u | e |] s1] t1]; simpl.
  - now rewrite !app_nil_r.
  - destruct (isinstance e Exception); simpl; now rewrite ?app_nil_r.
  - reflexivity.
Qed.

(** How the starter runs, from what [submit] answers. *)
Lemma starter_run executor n s :
  starter env executor n s =
    match submit env executor (RunnerTask n) (world s) with
    | (Returns h, w1) =>
        (Normal PyNone, set_futures (futures s ++ [h]) (set_world w1 s),
         [Submit executor (RunnerTask n)])
    | (Raises e, w1) =>
        if isinstance e Exception
        then (Normal PyNone, set_world w1 s,
              [Submit executor (RunnerTask n);
               Log CRITICAL Msg.submit_failed (Some e)])
        else (Raised e, set_world w1 s, [Submit executor (RunnerTask n)])
    end.
Proof.
  unfold starter, try_except, attempt, bind, call, append_future, log, ret,
    raise.
  destruct (submit env executor (RunnerTask n) (world s)) as [[h | e] w1];
    simpl.
  - reflexivity.
  - destruct (isinstance e Exception); reflexivity.
Qed.

(** One step of the iteration over the nodes in [context.start]. *)
Lemma offer_all_cons n (ns : list node)
    (f : node -> @M W node C E H L (@pyvalue H L)) s :
  offer_all (n :: ns) f s =
    match f n s with
    | (Normal _, s1, t1) =>
        let '(r, s2, t2) := offer_all ns f s1 in (r, s2, Offer n :: t1 ++ t2)
    | (Raised e, s1, t1) => (Raised e, s1, Offer n :: t1)
    | (Unfinished, s1, t1) => (Unfinished, s1, Offer n :: t1)
    end.
Proof.
  unfold offer_all. simpl. unfold bind, emit, ret.
  destruct (f n s) as [[[v | e |] s1] t1]; simpl; try reflexivity.
  rewrite app_nil_r.
  now destruct (for_each ns _ s1) as [[r s2] t2].
Qed.

End Units.

Section UnitClaims.

Context {W node C E H L : Type} (env : @Env W node C E H L).

Implicit Types (s : @store W H L) (n : node) (executor : E) (e : exc).

(** C2, as the code has it.  The unit of work the starter builds for a node
    first acquires the node's scope; once the scope is acquired it is
    released exactly once, after the loop and whatever the loop did,
    [__exit__] receiving the exception that left the loop; no instance of
    [Exception] ever leaves the unit of work, which always ends.  What is
    caught and logged is what leaves the [with] statement: an instance of
    [Exception] raised by [__enter__], raised by the loop when the node's
    [__exit__] returns a false value, or raised by [__exit__] itself is
    logged as critical, once, and the unit of work returns [None].  An
    exception of the loop that the node's own [__exit__] swallows by
    returning a true value never reaches the handler: the unit of work
    returns [None] and nothing is logged.  So exactly one record is logged
    when an instance of [Exception] leaves the scope, and none otherwise. *)
Theorem runner_releases_scope_and_contains_exceptions n s :
  (exists tl, snd (_runner env n s) = NodeEnter n :: tl) /\
  (forall u w1,
     node_enter env n (world s) = (Returns u, w1) ->
     exists tl,
       snd (_runner env n s) =
         NodeEnter n :: NodeLoop n
           :: NodeExit n (exc_of (fst (node_loop env n w1))) :: tl /\
       count is_node_exit (snd (_runner env n s)) = 1) /\
  (forall e, fst (fst (_runner env n s)) = Raised e ->
             isinstance e Exception = false) /\
  fst (fst (_runner env n s)) <> Unfinished /\
  (forall e s1 t1,
     node_scope env n s = (Raised e, s1, t1) ->
     isinstance e Exception = true ->
     _runner env n s =
       (Normal PyNone, s1, t1 ++ [Log CRITICAL Msg.runner_failed (Some e)])) /\
  (forall e u w1 w2 w3,
     node_enter env n (world s) = (Returns u, w1) ->
     node_loop env n w1 = (Raises e, w2) ->
     node_exit env n (Some e) w2 = (Returns false, w3) ->
     isinstance e Exception = true ->
     _runner env n s =
       (Normal PyNone, set_world w3 s,
        [NodeEnter n; NodeLoop n; NodeExit n (Some e);
         Log CRITICAL Msg.runner_failed (Some e)])) /\
  (forall e w1,
     node_enter env n (world s) = (Raises e, w1) ->
     isinstance e Exception = true ->
     _runner env n s =
       (Normal PyNone, set_world w1 s,
        [NodeEnter n; Log CRITICAL Msg.runner_failed (Some e)])) /\
  (forall u w1 r w2 e' w3,
     node_enter env n (world s) = (Returns u, w1) ->
     node_loop env n w1 = (r, w2) ->
     node_exit env n (exc_of r) w2 = (Raises e', w3) ->
     isinstance e' Exception = true ->
     _runner env n s =
       (Normal PyNone, set_world w3 s,
        [NodeEnter n; NodeLoop n; NodeExit n (exc_of r);
         Log CRITICAL Msg.runner_failed (Some e')])) /\
  (forall u w1 e w2 w3,
     node_enter env n (world s) = (Returns u, w1) ->
     node_loop env n w1 = (Raises e, w2) ->
     node_exit env n (Some e) w2 = (Returns true, w3) ->
     _runner env n s =
       (Normal PyNone, set_world w3 s,
        [NodeEnter n; NodeLoop n; NodeExit n (Some e)])) /\
  count is_log (snd (_runner env n s)) =
    match fst (fst (node_scope env n s)) with
    | Raised e => if isinstance e Exception then 1 else 0
    | _ => 0
    end.
Proof.
  split; [| split; [| split; [| split; [| split; [| split; [| split;
    [| split; [| split]]]]]]]].
  - rewrite runner_run, node_scope_run.
    destruct (node_enter env n (world s)) as [[u | e] w1].
    + destruct (node_loop env n w1) as [[v | e] w2]; simpl.
      * destruct (node_exit env n None w2) as [[[] | e'] w3];
          try destruct (isinstance e' Exception); simpl; eauto.
      * destruct (node_exit env n (Some e) w2) as [[[] | e'] w3];
          try destruct (isinstance e' Exception);
          try destruct (isinstance e Exception); simpl; eauto.
    + destruct (isinstance e Exception); simpl; eauto.
  - intros u w1 Henter. rewrite runner_run, node_scope_run, Henter.
    destruct (node_loop env n w1) as [[v | e] w2]; simpl.
    + destruct (node_exit env n None w2) as [[[] | e'] w3];
        try destruct (isinstance e' Exception); simpl; eauto.
    + destruct (node_exit env n (Some e) w2) as [[[] | e'] w3];
        try destruct (isinstance e' Exception);
        try destruct (isinstance e Exception); simpl; eauto.
  - intros e. rewrite runner_run.
    destruct (node_scope env n s) as [[[u | e' |] s1] t1]; simpl;
      try discriminate.
    destruct (isinstance e' Exception) eqn:Hcls; simpl; try discriminate.
    intros [= <-]. exact Hcls.
  - rewrite runner_run. pose proof (node_scope_finishes env n s) as Hfin.
    destruct (node_scope env n s) as [[[u | e' |] s1] t1]; simpl in *;
      try discriminate; try congruence.
    destruct (isinstance e' Exception); discriminate.
  - intros e s1 t1 Hscope Hcls. now rewrite runner_run, Hscope, Hcls.
  - intros e u w1 w2 w3 Henter Hloop Hexit Hcls.
    rewrite runner_run, node_scope_run, Henter, Hloop. simpl.
    now rewrite Hexit, Hcls.
  - intros e w1 Henter Hcls.
    now rewrite runner_run, node_scope_run, Henter, Hcls.
  - intros u w1 r w2 e' w3 Henter Hloop Hexit Hcls.
    rewrite runner_run, node_scope_run, Henter, Hloop. simpl.
    rewrite Hexit. destruct r; now rewrite Hcls.
  - intros u w1 e w2 w3 Henter Hloop Hexit.
    rewrite runner_run, node_scope_run, Henter, Hloop. simpl.
    now rewrite Hexit.
  - rewrite runner_run, node_scope_run.
    destruct (node_enter env n (world s)) as [[u | e] w1].
    + destruct (node_loop env n w1) as [[v | e] w2]; simpl.
      * destruct (node_exit env n None w2) as [[[] | e'] w3]; simpl;
          try destruct (isinstance e' Exception); reflexivity.
      * destruct (node_exit env n (Some e) w2) as [[[] | e'] w3]; simpl;
          try destruct (isinstance e' Exception);
          try destruct (isinstance e Exception); reflexivity.
    + simpl. destruct (isinstance e Exception); reflexivity.
Qed.

(** C6. When [submit] raises an instance of [Exception] for a node, the
    starter callback logs it as critical and returns [None]: nothing is
    raised and nothing is appended to [futures].  Hence, over any list of
    nodes whose submissions return or fail in that way, the callback is
    invoked for every node, in order, a runner is submitted for each of
    them, and every invocation returns normally. *)
Theorem starter_contains_submission_failure executor :
  (forall n s e w1,
     submit env executor (RunnerTask n) (world s) = (Raises e, w1) ->
     isinstance e Exception = true ->
     starter env executor n s =
       (Normal PyNone, set_world w1 s,
        [Submit executor (RunnerTask n);
         Log CRITICAL Msg.submit_failed (Some e)])) /\
  (forall ns s,
     submissions_contained env executor ns (world s) ->
     exists s1 t1,
       offer_all ns (starter env executor) s = (Normal tt, s1, t1) /\
       offers t1 = ns /\
       submitted t1 = map RunnerTask ns).
Proof.
  split.
  - intros n s e w1 Hsub Hcls. now rewrite starter_run, Hsub, Hcls.
  - induction ns as [| n ns IH]; intros s Hall.
    + exists s, []. repeat split.
    + simpl in Hall. rewrite offer_all_cons, starter_run.
      destruct (submit env executor (RunnerTask n) (world s)) as [[h | e] w1].
      * specialize (IH (set_futures (futures s ++ [h]) (set_world w1 s)) Hall).
        destruct IH as (s1 & t1 & Hrun & Hoff & Hsub).
        rewrite Hrun. eexists _, _. split; [reflexivity |]. simpl.
        now rewrite Hoff, Hsub.
      * destruct Hall as [Hcls Hall]. rewrite Hcls.
        specialize (IH (set_world w1 s) Hall).
        destruct IH as (s1 & t1 & Hrun & Hoff & Hsub).
        rewrite Hrun. eexists _, _. split; [reflexivity |]. simpl.
        now rewrite Hoff, Hsub.
Qed.

(** C9, as the code has it.  Only instances of [Exception] are caught by
    the two handlers.  An exception of another class (such as
    [KeyboardInterrupt] or [SystemExit]) leaves the node runner when
    [__enter__] raises it, when the loop raises it and [__exit__] returns a
    false value, and when [__exit__] raises it; it leaves the starter
    callback when [submit] raises it.  In each case nothing is logged.
    Raised by the loop it does not always leave the runner, for the [with]
    statement comes before the handler: when the node's [__exit__] returns
    a true value it is swallowed, the runner returns [None] and nothing is
    logged; and when [__exit__] raises an instance of [Exception], that
    exception replaces it, is caught and logged, and the runner returns
    [None]. *)
Theorem non_exception_errors_escape n executor s e :
  isinstance e Exception = false ->
  (forall w1,
     node_enter env n (world s) = (Raises e, w1) ->
     _runner env n s = (Raised e, set_world w1 s, [NodeEnter n])) /\
  (forall u w1 w2 w3,
     node_enter env n (world s) = (Returns u, w1) ->
     node_loop env n w1 = (Raises e, w2) ->
     node_exit env n (Some e) w2 = (Returns false, w3) ->
     _runner env n s =
       (Raised e, set_world w3 s,
        [NodeEnter n; NodeLoop n; NodeExit n (Some e)])) /\
  (forall u w1 r w2 w3,
     node_enter env n (world s) = (Returns u, w1) ->
     node_loop env n w1 = (r, w2) ->
     node_exit env n (exc_of r) w2 = (Raises e, w3) ->
     _runner env n s =
       (Raised e, set_world w3 s,
        [NodeEnter n; NodeLoop n; NodeExit n (exc_of r)])) /\
  (forall w1,
     submit env executor (RunnerTask n) (world s) = (Raises e, w1) ->
     starter env executor n s =
       (Raised e, set_world w1 s, [Submit executor (RunnerTask n)])) /\
  (forall u w1 w2 w3,
     node_enter env n (world s) = (Returns u, w1) ->
     node_loop env n w1 = (Raises e, w2) ->
     node_exit env n (Some e) w2 = (Returns true, w3) ->
     _runner env n s =
       (Normal PyNone, set_world w3 s,
        [NodeEnter n; NodeLoop n; NodeExit n (Some e)])) /\
  (forall u w1 w2 e' w3,
     node_enter env n (world s) = (Returns u, w1) ->
     node_loop env n w1 = (Raises e, w2) ->
     node_exit env n (Some e) w2 = (Raises e', w3) ->
     isinstance e' Exception = true ->
     _runner env n s =
       (Normal PyNone, set_world w3 s,
        [NodeEnter n; NodeLoop n; NodeExit n (Some e);
         Log CRITICAL Msg.runner_failed (Some e')])).
Proof.
  intros Hcls.
  split; [| split; [| split; [| split; [| split]]]].
  - intros w1 Henter. now rewrite runner_run, node_scope_run, Henter, Hcls.
  - intros u w1 w2 w3 Henter Hloop Hexit.
    rewrite runner_run, node_scope_run, Henter, Hloop. simpl.
    now rewrite Hexit, Hcls.
  - intros u w1 r w2 w3 Henter Hloop Hexit.
    rewrite runner_run, node_scope_run, Henter, Hloop. simpl.
    rewrite Hexit. destruct r; now rewrite Hcls.
  - intros w1 Hsub. now rewrite starter_run, Hsub, Hcls.
  - intros u w1 w2 w3 Henter Hloop Hexit.
    rewrite runner_run, node_scope_run, Henter, Hloop. simpl.
    now rewrite Hexit.
  - intros u w1 w2 e' w3 Henter Hloop Hexit Hcls'.
    rewrite runner_run, node_scope_run, Henter, Hloop. simpl.
    now rewrite Hexit, Hcls'.
Qed.

(** C5. Constructing the event-loop strategy reads the ALPHA setting
    first.  When the setting is off it raises [NotImplementedError] at
    once: reading the setting is the only call made, so no executor, event
    loop or context has been asked for.  When the setting is on, the guard
    raises nothing and construction is that of the base class; it succeeds
    when the base constructor returns. *)
Theorem async_strategy_needs_alpha s w1 :
  (alpha_get env (world s) = (Returns false, w1) ->
   init env AsyncThreadPoolExecutorStrategy s =
     (Raised (mkExc NotImplementedError
                (Msg.experimental
                   (get_name env AsyncThreadPoolExecutorStrategy))),
      set_world w1 s, [AlphaGet])) /\
  (alpha_get env (world s) = (Returns true, w1) ->
   init env AsyncThreadPoolExecutorStrategy s =
     (let '(r, w2) := strategy_init env w1 in
      (of_reply r, set_world w2 s, [AlphaGet; StrategyInit])) /\
   forall u w2,
     strategy_init env w1 = (Returns u, w2) ->
     init env AsyncThreadPoolExecutorStrategy s =
       (Normal u, set_world w2 s, [AlphaGet; StrategyInit])).
Proof.
  split.
  - intros Hflag. unfold init, bind, call, raise. rewrite Hflag. reflexivity.
  - intros Hflag.
    assert (Hrun : init env AsyncThreadPoolExecutorStrategy s =
              (let '(r, w2) := strategy_init env w1 in
               (of_reply r, set_world w2 s, [AlphaGet; StrategyInit]))).
    { unfold init, bind, call. rewrite Hflag. simpl.
      now destruct (strategy_init env w1) as [[u | e] w2]. }
    split; [exact Hrun |].
    intros u w2 Hbase. rewrite Hrun, Hbase. reflexivity.
Qed.

End UnitClaims.

(** ** Counting and splitting traces *)

Section TraceFacts.

Context {node C E L : Type}.

Implicit Types (t : list (@event node C E L))
  (kind : @event node C E L -> bool).

Lemma count_app kind t1 t2 :
  count kind (t1 ++ t2) = count kind t1 + count kind t2.
Proof. unfold count. now rewrite filter_app, length_app. Qed.

Lemma count_none kind t :
  Forall (fun ev => kind ev = false) t -> count kind t = 0.
Proof.
  unfold count. induction 1 as [| ev t Hev _ IH]; simpl; [reflexivity |].
  now rewrite Hev.
Qed.

Lemma count_none_of (kind other : @event node C E L -> bool) t :
  (forall ev, other ev = true -> kind ev = false) ->
  Forall (fun ev => other ev = true) t -> count kind t = 0.
Proof.
  intros Hdisjoint Hall. apply count_none.
  eapply Forall_impl; [| exact Hall]. exact Hdisjoint.
Qed.

Lemma offers_app t1 t2 : offers (t1 ++ t2) = offers t1 ++ offers t2.
Proof.
  induction t1 as [| ev t1 IH]; simpl; [reflexivity |].
  destruct ev; simpl; now rewrite IH.
Qed.

Lemma offers_none (other : @event node C E L -> bool) t :
  (forall n, other (Offer n) = false) ->
  Forall (fun ev => other ev = true) t -> offers t = [].
Proof.
  intros Hother. induction 1 as [| ev t Hev _ IH]; simpl; [reflexivity |].
  destruct ev; trivial. rewrite Hother in Hev. discriminate.
Qed.

(** A call of a kind that the first part of a trace does not hold lies in
    the second part. *)
Lemma split_after kind t1 t2 pre post ev :
  Forall (fun ev' => kind ev' = false) t1 ->
  kind ev = true ->
  t1 ++ t2 = pre ++ ev :: post ->
  exists pre', pre = t1 ++ pre' /\ t2 = pre' ++ ev :: post.
Proof.
  intros Hnone Hev. revert pre.
  induction Hnone as [| a t1 Ha _ IH]; intros pre Heq; simpl in *.
  - now exists pre.
  - destruct pre as [| b pre]; simpl in Heq.
    + injection Heq as -> _. congruence.
    + injection Heq as -> Heq. destruct (IH pre Heq) as (pre' & -> & ->).
      now exists pre'.
Qed.

(** A trace that ends with its only call of a kind splits at that call in
    one way. *)
Lemma split_last kind t pre post ev ev' :
  Forall (fun a => kind a = false) t ->
  kind ev' = true ->
  t ++ [ev] = pre ++ ev' :: post ->
  pre = t /\ ev' = ev /\ post = [].
Proof.
  intros Hnone Hev' Heq.
  destruct (split_after kind t [ev] pre post ev' Hnone Hev' Heq)
    as (pre' & -> & Hlast).
  destruct pre' as [| a pre']; simpl in Hlast.
  - injection Hlast as <- <-. now rewrite app_nil_r.
  - injection Hlast as _ Hnil. now destruct pre'.
Qed.

Lemma not_in_trace kind t pre post ev :
  Forall (fun a => kind a = false) t -> kind ev = true ->
  t <> pre ++ ev :: post.
Proof.
  intros Hnone Hev ->. apply Forall_app in Hnone as [_ Hnone].
  inversion Hnone; congruence.
Qed.

End TraceFacts.

(** ** The phases of [execute] *)

Section Execute.

Context {W node C E H L : Type} (env : @Env W node C E H L).

Implicit Types (s : @store W H L) (c : C) (ex executor : E) (e : exc)
  (k : strategy) (graph : list node) (P : @event node C E L -> Prop).

Lemma emits_call {A} P (ev : @event node C E L) (op : W -> reply A * W) :
  P ev -> emits P (@call W node C E H L A ev op).
Proof. intros Hev s. rewrite call_trace. now constructor. Qed.

Lemma emits_log P lvl msg x :
  P (Log lvl msg x) -> emits P (@log W node C E H L lvl msg x).
Proof. intros Hev s. simpl. now constructor. Qed.

Lemma emits_emit P (ev : @event node C E L) :
  P ev -> emits P (@emit W node C E H L ev).
Proof. intros Hev s. simpl. now constructor. Qed.

Lemma emits_self_loop P : P GetEventLoop -> emits P (self_loop env).
Proof.
  intros Hev. unfold self_loop. apply emits_bind; [intros s; constructor |].
  intros [l |]; [apply emits_ret |].
  apply emits_bind; [now apply emits_call | intros l].
  apply emits_bind; [intros s; constructor | intros _; apply emits_ret].
Qed.

Lemma prologue_emits k graph :
  emits (fun ev => is_setup ev = true) (prologue env k graph).
Proof.
  unfold prologue. apply emits_bind.
  - destruct k; simpl; try (now apply emits_call).
    apply emits_bind; [now apply emits_self_loop | intros l].
    now apply emits_call.
  - intros c. apply emits_bind; [now apply emits_call | intros _].
    apply emits_bind; [intros s; constructor | intros _].
    apply emits_bind; [destruct k; now apply emits_call | intros ex].
    apply emits_bind; [now apply emits_call | intros executor].
    apply emits_ret.
Qed.

Lemma starter_emits executor (n : node) :
  emits (fun ev => is_submitting ev = true) (starter env executor n).
Proof.
  unfold starter. apply emits_bind; [| intros _; apply emits_ret].
  apply emits_try_except.
  - apply emits_bind; [now apply emits_call | intros h s; constructor].
  - intros e. now apply emits_log.
Qed.

Lemma get_starter_emits k executor :
  emits (fun ev => is_starting ev = true) (get_starter env k executor).
Proof.
  destruct k; simpl; try apply emits_ret.
  apply emits_bind; [now apply emits_self_loop | intros l; apply emits_ret].
Qed.

(** Whatever [get_starter] returns makes only calls of the start. *)
Lemma get_starter_result_emits k executor s f s1 t1 (n : node) :
  get_starter env k executor s = (Normal f, s1, t1) ->
  emits (fun ev => is_submitting ev = true) (f n).
Proof.
  destruct k; simpl; unfold ret;
    try (intros [= <- _ _]; apply starter_emits).
  unfold bind.
  destruct (self_loop env s) as [[[l | e |] s'] t']; try discriminate.
  intros [= <- _ _]. unfold run_in_executor.
  apply emits_bind; [now apply emits_call | intros _].
  apply emits_bind; [now apply emits_call | intros h; apply emits_ret].
Qed.

Lemma context_start_emits c (f : node -> @M W node C E H L (@pyvalue H L)) :
  (forall n, emits (fun ev => is_starting ev = true) (f n)) ->
  emits (fun ev => is_starting ev = true) (context_start env c f).
Proof.
  intros Hf. unfold context_start.
  apply emits_bind; [now apply emits_call | intros _].
  apply emits_bind; [| intros _; now apply emits_call].
  unfold offer_all. apply emits_for_each. intros n.
  apply emits_bind; [now apply emits_emit | intros _].
  apply emits_bind; [apply Hf | intros _; apply emits_ret].
Qed.

Lemma start_guarded_emits k c executor :
  emits (fun ev => is_starting ev = true) (start_guarded env k c executor).
Proof.
  unfold start_guarded. apply emits_try_except.
  - intros s. unfold start_attempt, bind.
    pose proof (get_starter_emits k executor s) as Hget.
    destruct (get_starter env k executor s) as [[[f | e |] s1] t1] eqn:Hrun;
      simpl in *; trivial.
    assert (Hstart : emits (fun ev => is_starting ev = true)
                       (context_start env c f)).
    { apply context_start_emits. intros n.
      eapply emits_impl; [| eapply get_starter_result_emits; eassumption].
      now intros [] Hev; try destruct lvl. }
    specialize (Hstart s1).
    destruct (context_start env c f s1) as [[r s2] t2]; simpl in *.
    apply Forall_app. now split.
  - intros e. now apply emits_log.
Qed.

Lemma tick_loop_emits fuel c :
  emits (fun ev => is_looping ev = true) (tick_loop env fuel c).
Proof.
  induction fuel as [| fuel IH]; simpl; [apply emits_out_of_fuel |].
  apply emits_bind; [now apply emits_call | intros [|]; [| apply emits_ret]].
  apply emits_bind.
  - apply emits_try_except.
    + apply emits_bind; [now apply emits_call | intros _; apply emits_ret].
    + intros _. apply emits_bind; [now apply emits_log | intros _].
      apply emits_bind; [now apply emits_call | intros _; apply emits_ret].
  - intros [|]; [apply emits_ret | exact IH].
Qed.

(** [execute], phase by phase: the prologue, then the body of the [with]
    statement under the executor's [__exit__]. *)
Lemma execute_run k graph fuel s :
  execute env k graph fuel s =
    match prologue env k graph s with
    | (Normal (c, ex, executor), s1, t1) =>
        let '(r, s2, t2) :=
          within (executor_exit env ex) (supervise env k fuel c executor) s1 in
        (returning c r, s2, t1 ++ t2)
    | (Raised e, s1, t1) => (Raised e, s1, t1)
    | (Unfinished, s1, t1) => (Unfinished, s1, t1)
    end.
Proof.
  unfold execute, prologue, with_, bind, ret.
  destruct (create_graph_execution_context env k graph s)
    as [[[c | e |] s1] t1]; cbv beta iota; try reflexivity.
  destruct (call (CtxWrite c) (ctx_write env c) s1)
    as [[[u | e |] s2] t2]; cbv beta iota; try reflexivity.
  destruct (reset_futures s2) as [[[u' | e |] s3] t3]; cbv beta iota;
    try reflexivity.
  destruct (create_executor env k graph s3)
    as [[[ex | e |] s4] t4]; cbv beta iota; try reflexivity.
  destruct (call (ExecEnter ex) (exec_enter env ex) s4)
    as [[[executor | e |] s5] t5]; cbv beta iota; try reflexivity.
  destruct (within (executor_exit env ex) (supervise env k fuel c executor) s5)
    as [[[u'' | e |] s6] t6]; simpl;
    now rewrite ?app_nil_r, <- ?app_assoc.
Qed.

Lemma start_guarded_run k c executor s :
  start_guarded env k c executor s =
    match start_attempt env k c executor s with
    | (Normal _, s1, t1) => (Normal tt, s1, t1)
    | (Raised e, s1, t1) =>
        if isinstance e Exception
        then (Normal tt, s1, t1 ++ [Log CRITICAL Msg.start_failed (Some e)])
        else (Raised e, s1, t1)
    | (Unfinished, s1, t1) => (Unfinished, s1, t1)
    end.
Proof.
  unfold start_guarded, try_except, attempt, bind, log, ret, raise.
  destruct (start_attempt env k c executor s) as [[[[] | e |] s1] t1]; simpl.
  - now rewrite app_nil_r.
  - destruct (isinstance e Exception); simpl; now rewrite ?app_nil_r.
  - reflexivity.
Qed.

(** One iteration of the tick loop, call by call. *)
Lemma tick_loop_step fuel c s :
  tick_loop env (S fuel) c s =
    match ctx_alive env c (world s) with
    | (Raises e, w1) => (Raised e, set_world w1 s, [CtxAlive c])
    | (Returns false, w1) => (Normal tt, set_world w1 s, [CtxAlive c])
    | (Returns true, w1) =>
        match ctx_tick env c w1 with
        | (Returns _, w2) =>
            let '(r, s', t) := tick_loop env fuel c (set_world w2 s) in
            (r, s', CtxAlive c :: CtxTick c :: t)
        | (Raises e, w2) =>
            if isinstance e KeyboardInterrupt then
              let t := [CtxAlive c; CtxTick c;
                        Log WARNING Msg.interrupted None; CtxKill c] in
              match ctx_kill env c w2 with
              | (Returns _, w3) => (Normal tt, set_world w3 s, t)
              | (Raises e', w3) => (Raised e', set_world w3 s, t)
              end
            else (Raised e, set_world w2 s, [CtxAlive c; CtxTick c])
        end
    end.
Proof.
  simpl. unfold try_except, attempt, bind, call, log, ret, raise.
  destruct (ctx_alive env c (world s)) as [[[] | e] w1]; simpl; trivial.
  destruct (ctx_tick env c w1) as [[u | e] w2]; simpl.
  - rewrite set_world_twice.
    now destruct (tick_loop env fuel c (set_world w2 s)) as [[[[] | e |] s'] t].
  - destruct (isinstance e KeyboardInterrupt); simpl; trivial.
    now destruct (ctx_kill env c w2) as [[u | e'] w3].
Qed.

(** The loop only ever ticks the context it is given. *)
Lemma tick_loop_ticks_its_context fuel c :
  emits (fun ev => forall c', ev = CtxTick c' -> c' = c) (tick_loop env fuel c).
Proof.
  induction fuel as [| fuel IH]; simpl; [apply emits_out_of_fuel |].
  apply emits_bind; [now apply emits_call | intros [|]; [| apply emits_ret]].
  apply emits_bind.
  - apply emits_try_except.
    + apply emits_bind; [| intros _; apply emits_ret].
      apply emits_call. now intros c' [= ->].
    + intros _. apply emits_bind; [now apply emits_log | intros _].
      apply emits_bind; [now apply emits_call | intros _; apply emits_ret].
  - intros [|]; [apply emits_ret | exact IH].
Qed.

Lemma rounds_trace c j : forall s s' t,
  rounds env c j s = Some (s', t) ->
  Forall (fun ev => is_looping ev = true) t /\
  count is_tick t = j /\ count is_kill t = 0.
Proof.
  induction j as [| j IH]; intros s s' t; simpl.
  - intros [= <- <-]. repeat split. constructor.
  - destruct (ctx_alive env c (world s)) as [[[] | e] w1]; try discriminate.
    destruct (ctx_tick env c w1) as [[u | e] w2]; try discriminate.
    destruct (rounds env c j (set_world w2 s)) as [[s1 t1] |] eqn:Hrest;
      try discriminate.
    intros [= <- <-]. destruct (IH _ _ _ Hrest) as (Hall & Hticks & Hkills).
    repeat split.
    + now repeat constructor.
    + unfold count in *. simpl. now rewrite Hticks.
    + exact Hkills.
Qed.

(** An interrupt raised by [tick()] after [j] quiet iterations: the
    warning, [kill()], and the loop is left, by the [break] when [kill()]
    returns and by its exception when it raises. *)
Lemma tick_loop_interrupted c j : forall fuel s s3 t3 w4 e w5,
  rounds env c j s = Some (s3, t3) ->
  ctx_alive env c (world s3) = (Returns true, w4) ->
  ctx_tick env c w4 = (Raises e, w5) ->
  isinstance e KeyboardInterrupt = true ->
  j < fuel ->
  tick_loop env fuel c s =
    (let '(r, w6) := ctx_kill env c w5 in
     (match r with Returns _ => Normal tt | Raises e' => Raised e' end,
      set_world w6 s3,
      t3 ++ [CtxAlive c; CtxTick c; Log WARNING Msg.interrupted None;
             CtxKill c])).
Proof.
  induction j as [| j IH]; intros fuel s s3 t3 w4 e w5 Hrounds Halive
    Htick Hcls Hfuel;
    (destruct fuel as [| fuel]; [lia |]); rewrite tick_loop_step;
    simpl in Hrounds.
  - injection Hrounds as <- <-. rewrite Halive, Htick, Hcls.
    now destruct (ctx_kill env c w5) as [[u | e'] w6].
  - destruct (ctx_alive env c (world s)) as [[[] | e0] w1]; try discriminate.
    destruct (ctx_tick env c w1) as [[u0 | e0] w2]; try discriminate.
    destruct (rounds env c j (set_world w2 s)) as [[s1 t1] |] eqn:Hrest;
      try discriminate.
    injection Hrounds as <- <-.
    rewrite (IH fuel _ _ _ _ _ _ Hrest Halive Htick Hcls); [| lia].
    now destruct (ctx_kill env c w5) as [[u | e'] w6].
Qed.

(** The body of the [with] statement, phase by phase. *)
Lemma supervise_run k fuel c executor s :
  supervise env k fuel c executor s =
    match start_guarded env k c executor s with
    | (Normal _, s2, t2) =>
        match tick_loop env fuel c s2 with
        | (Normal _, s3, t3) =>
            let '(r, w4) := ctx_stop env c (world s3) in
            (of_reply r, set_world w4 s3, t2 ++ t3 ++ [CtxStop c])
        | (Raised e, s3, t3) => (Raised e, s3, t2 ++ t3)
        | (Unfinished, s3, t3) => (Unfinished, s3, t2 ++ t3)
        end
    | (Raised e, s2, t2) => (Raised e, s2, t2)
    | (Unfinished, s2, t2) => (Unfinished, s2, t2)
    end.
Proof.
  unfold supervise, tick_and_stop, bind, call.
  destruct (start_guarded env k c executor s) as [[[u | e |] s2] t2];
    try reflexivity.
  destruct (tick_loop env fuel c s2) as [[[u' | e |] s3] t3]; try reflexivity.
  now destruct (ctx_stop env c (world s3)) as [[u'' | e] w4].
Qed.

(** The executor's [__exit__] after the body of the [with] statement. *)
Lemma executor_scope_run ex (body : @M W node C E H L unit) s :
  snd (within (executor_exit env ex) body s) =
    match body s with
    | (Normal _, _, t) => t ++ [ExecExit ex None]
    | (Raised e, _, t) => t ++ [ExecExit ex (Some e)]
    | (Unfinished, _, t) => t
    end.
Proof.
  destruct (body s) as [[[[] | e |] s1] t1] eqn:Hbody.
  - rewrite (within_normal _ _ _ _ _ Hbody). unfold executor_exit, call.
    now destruct (exec_exit env ex None (world s1)) as [[b | e] w].
  - rewrite (within_raised _ _ _ _ _ _ Hbody). unfold executor_exit, call.
    now destruct (exec_exit env ex (Some e) (world s1)) as [[[] | e'] w].
  - now rewrite (within_unfinished _ _ _ _ _ Hbody).
Qed.

Lemma supervise_emits k fuel c executor :
  emits (fun ev => is_release ev = false) (supervise env k fuel c executor).
Proof.
  unfold supervise, tick_and_stop. apply emits_bind.
  - eapply emits_impl; [| apply start_guarded_emits]. now intros [].
  - intros _. apply emits_bind; [| intros _; now apply emits_call].
    eapply emits_impl; [| apply tick_loop_emits]. now intros [].
Qed.

Lemma tick_and_stop_run fuel c s :
  tick_and_stop env fuel c s =
    match tick_loop env fuel c s with
    | (Normal _, s3, t3) =>
        let '(r, w4) := ctx_stop env c (world s3) in
        (of_reply r, set_world w4 s3, t3 ++ [CtxStop c])
    | (Raised e, s3, t3) => (Raised e, s3, t3)
    | (Unfinished, s3, t3) => (Unfinished, s3, t3)
    end.
Proof.
  unfold tick_and_stop, bind, call.
  destruct (tick_loop env fuel c s) as [[[u | e |] s3] t3]; try reflexivity.
  now destruct (ctx_stop env c (world s3)) as [[u' | e] w4].
Qed.

(** With fuel left, the first thing the loop does is to ask [alive]. *)
Lemma tick_and_stop_asks_alive fuel c s :
  exists tl, snd (tick_and_stop env (S fuel) c s) = CtxAlive c :: tl.
Proof.
  rewrite tick_and_stop_run, tick_loop_step.
  destruct (ctx_alive env c (world s)) as [[[] | e] w1]; simpl.
  - destruct (ctx_tick env c w1) as [[u | e] w2].
    + destruct (tick_loop env fuel c (set_world w2 s)) as [[[[] | e |] s'] t];
        simpl; eauto.
      destruct (ctx_stop env c (world s')) as [r w]; simpl; eauto.
    + destruct (isinstance e KeyboardInterrupt); simpl; eauto.
      destruct (ctx_kill env c w2) as [[u | e'] w3]; simpl; eauto.
      destruct (ctx_stop env c w3) as [r w]; simpl; eauto.
  - destruct (ctx_stop env c w1) as [r w]; simpl; eauto.
  - eauto.
Qed.

(** Calls made before the body of a [with] statement's remainder stay in
    front of what the remainder and [__exit__] add. *)
Lemma within_after (exit : option exc -> @M W node C E H L bool)
    (body rest : @M W node C E H L unit) s s0 pre :
  body s = (let '(r, s', t) := rest s0 in (r, s', pre ++ t)) ->
  within exit body s =
    (let '(r, s', t) := within exit rest s0 in (r, s', pre ++ t)).
Proof.
  intros Hbody.
  destruct (rest s0) as [[[[] | e |] s1] t1] eqn:Hrest.
  - rewrite (within_normal _ _ _ _ _ Hbody), (within_normal _ _ _ _ _ Hrest).
    destruct (exit None s1) as [[[b | e |] s2] t2]; now rewrite app_assoc.
  - rewrite (within_raised _ _ _ _ _ _ Hbody),
      (within_raised _ _ _ _ _ _ Hrest).
    destruct (exit (Some e) s1) as [[[[] | e' |] s2] t2]; now rewrite app_assoc.
  - now rewrite (within_unfinished _ _ _ _ _ Hbody),
      (within_unfinished _ _ _ _ _ Hrest).
Qed.

Lemma execute_trace k graph fuel s c ex executor s1 t1 :
  prologue env k graph s = (Normal (c, ex, executor), s1, t1) ->
  snd (execute env k graph fuel s) =
    t1 ++ snd (within (executor_exit env ex)
                      (supervise env k fuel c executor) s1).
Proof.
  intros Hpro. rewrite execute_run, Hpro.
  now destruct (within _ _ s1) as [[r s2] t2].
Qed.

(** How [context.start] runs, call by call. *)
Lemma context_start_run c (f : node -> @M W node C E H L (@pyvalue H L)) s :
  context_start env c f s =
    match ctx_start_begin env c (world s) with
    | (Raises e, w1) => (Raised e, set_world w1 s, [CtxStart c])
    | (Returns _, w1) =>
        match offer_all (ctx_nodes env c) f (set_world w1 s) with
        | (Normal _, s2, t2) =>
            let '(r, w3) := ctx_start_end env c (world s2) in
            (of_reply r, set_world w3 s2, CtxStart c :: t2 ++ [CtxStartEnd c])
        | (Raised e, s2, t2) => (Raised e, s2, CtxStart c :: t2)
        | (Unfinished, s2, t2) => (Unfinished, s2, CtxStart c :: t2)
        end
    end.
Proof.
  unfold context_start, bind, call.
  destruct (ctx_start_begin env c (world s)) as [[u | e] w1]; simpl; trivial.
  destruct (offer_all (ctx_nodes env c) f (set_world w1 s))
    as [[[u' | e |] s2] t2]; trivial.
  now destruct (ctx_start_end env c (world s2)) as [[u'' | e] w3].
Qed.

(** When every node has been handed to the callback, the offers made are
    the nodes, in order. *)
Lemma offer_all_offers (f : node -> @M W node C E H L (@pyvalue H L)) :
  (forall n, emits (fun ev => is_submitting ev = true) (f n)) ->
  forall ns s s1 t1,
    offer_all ns f s = (Normal tt, s1, t1) -> offers t1 = ns.
Proof.
  intros Hf. induction ns as [| n ns IH]; intros s s1 t1.
  - now intros [= _ <-].
  - rewrite offer_all_cons. pose proof (Hf n s) as Hn.
    destruct (f n s) as [[[v | e |] s2] t2]; try discriminate.
    destruct (offer_all ns f s2) as [[[[] | e |] s3] t3] eqn:Hrest;
      try discriminate.
    intros [= _ <-]. simpl in *. rewrite offers_app, (IH _ _ _ Hrest).
    now rewrite (offers_none is_submitting t2).
Qed.

(** The prologue of the event-loop strategy leaves the loop cached. *)
Lemma prologue_caches_loop graph s c ex executor s1 t1 :
  prologue env AsyncThreadPoolExecutorStrategy graph s =
    (Normal (c, ex, executor), s1, t1) ->
  loop_cache s1 <> None.
Proof.
  unfold prologue, create_graph_execution_context, create_executor, self_loop,
    read_loop_cache, write_loop_cache, reset_futures, bind, call, ret.
  simpl.
  destruct (loop_cache s) as [l |] eqn:Hcache; simpl.
  - destruct (create_context env graph (Some l) (world s)) as [[c0 | e] w1];
      simpl; try discriminate.
    destruct (ctx_write env c0 w1) as [[u | e] w2]; simpl; try discriminate.
    destruct (executor_factory env _ _ w2) as [[ex0 | e] w3]; simpl;
      try discriminate.
    destruct (exec_enter env ex0 w3) as [[executor0 | e] w4]; simpl;
      try discriminate.
    intros [= _ _ _ <- _]. simpl. congruence.
  - destruct (get_event_loop env (world s)) as [[l | e] w0]; simpl;
      try discriminate.
    destruct (create_context env graph (Some l) w0) as [[c0 | e] w1];
      simpl; try discriminate.
    destruct (ctx_write env c0 w1) as [[u | e] w2]; simpl; try discriminate.
    destruct (executor_factory env _ _ w2) as [[ex0 | e] w3]; simpl;
      try discriminate.
    destruct (exec_enter env ex0 w3) as [[executor0 | e] w4]; simpl;
      try discriminate.
    intros [= _ _ _ <- _]. simpl. congruence.
Qed.

(** With the loop at hand, [get_starter] makes no call. *)
Lemma get_starter_ready k executor s :
  (k = AsyncThreadPoolExecutorStrategy -> loop_cache s <> None) ->
  exists f,
    get_starter env k executor s = (Normal f, s, []) /\
    forall n, emits (fun ev => is_submitting ev = true) (f n).
Proof.
  intros Hcache.
  assert (Hsome : forall f, get_starter env k executor s = (Normal f, s, []) ->
            exists f0, get_starter env k executor s = (Normal f0, s, []) /\
              forall n, emits (fun ev => is_submitting ev = true) (f0 n)).
  { intros f Hget. exists f. split; [exact Hget |]. intros n.
    eapply get_starter_result_emits; exact Hget. }
  destruct k; try (eapply Hsome; reflexivity).
  destruct (loop_cache s) as [l |] eqn:Hl; [| now destruct Hcache].
  eapply Hsome. simpl.
  unfold self_loop, read_loop_cache, bind, ret. rewrite Hl. reflexivity.
Qed.

(** A guarded start that lets [execute] go on has called [context.start],
    and either offered every node or logged the failure. *)
Lemma start_guarded_outcome k c executor s s2 t2 :
  (k = AsyncThreadPoolExecutorStrategy -> loop_cache s <> None) ->
  start_guarded env k c executor s = (Normal tt, s2, t2) ->
  In (CtxStart c) t2 /\
  (offers t2 = ctx_nodes env c \/
   exists e, In (Log CRITICAL Msg.start_failed (Some e)) t2).
Proof.
  intros Hcache. destruct (get_starter_ready k executor s Hcache)
    as (f & Hget & Hf).
  rewrite start_guarded_run. unfold start_attempt.
  rewrite (bind_normal _ _ _ _ _ _ Hget), context_start_run.
  destruct (ctx_start_begin env c (world s)) as [[u | e] w1]; simpl.
  - destruct (offer_all (ctx_nodes env c) f (set_world w1 s))
      as [[[[] | e |] s3] t3] eqn:Hoffer; simpl.
    + pose proof (offer_all_offers f Hf _ _ _ _ Hoffer) as Hnodes.
      destruct (ctx_start_end env c (world s3)) as [[u' | e] w3]; simpl.
      * intros [= _ <-]. split; [now left |]. left. simpl.
        rewrite offers_app, Hnodes. simpl. now rewrite app_nil_r.
      * destruct (isinstance e Exception); [| discriminate].
        intros [= _ <-]. split; [now left |]. right. exists e.
        simpl. right. apply in_or_app. right. now left.
    + destruct (isinstance e Exception); [| discriminate].
      intros [= _ <-]. split; [now left |]. right. exists e.
      simpl. right. apply in_or_app. right. now left.
    + discriminate.
  - destruct (isinstance e Exception); [| discriminate].
    intros [= _ <-]. split; [now left |]. right. exists e.
    simpl. right. now left.
Qed.

(** What follows the guarded start inside the [with] statement: calls of
    the loop, [stop()] and the release; the loop is only reached when the
    guarded start ended normally. *)
Lemma supervised_trace k fuel c ex executor s :
  exists rest,
    snd (within (executor_exit env ex) (supervise env k fuel c executor) s) =
      snd (start_guarded env k c executor s) ++ rest /\
    Forall (fun ev => is_closing ev = true /\
                      forall c', ev = CtxTick c' -> c' = c) rest /\
    (fst (fst (start_guarded env k c executor s)) <> Normal tt ->
     Forall (fun ev => is_tick ev = false) rest).
Proof.
  rewrite executor_scope_run, supervise_run.
  destruct (start_guarded env k c executor s) as [[[[] | e |] s2] t2]; simpl.
  - pose proof (tick_loop_emits fuel c s2) as Hloop.
    pose proof (tick_loop_ticks_its_context fuel c s2) as Hctx.
    assert (Hboth : Forall (fun ev => is_closing ev = true /\
                       forall c', ev = CtxTick c' -> c' = c)
                      (snd (tick_loop env fuel c s2))).
    { apply Forall_forall. intros ev Hin. split.
      - eapply Forall_forall in Hloop; [| exact Hin]. now destruct ev.
      - eapply Forall_forall in Hctx; [| exact Hin]. exact Hctx. }
    destruct (tick_loop env fuel c s2) as [[[[] | e |] s3] t3]; simpl in *.
    + destruct (ctx_stop env c (world s3)) as [[u | e] w4]; simpl;
        eexists; (split; [rewrite <- !app_assoc; reflexivity |]);
        (split; [| congruence]);
        (apply Forall_app; split; [exact Hboth |]);
        now repeat constructor.
    + eexists. split; [rewrite <- !app_assoc; reflexivity |].
      split; [| congruence].
      apply Forall_app. split; [exact Hboth |]. now repeat constructor.
    + exists t3. repeat split; trivial. congruence.
  - exists [ExecExit ex (Some e)]. repeat split; now repeat constructor.
  - exists []. rewrite app_nil_r. repeat split; constructor.
Qed.

(** Fuel only bounds the loop: a run that ended is the same with more. *)
Lemma tick_loop_more_fuel c : forall fuel s r s' t,
  tick_loop env fuel c s = (r, s', t) -> r <> Unfinished ->
  forall fuel', fuel <= fuel' -> tick_loop env fuel' c s = (r, s', t).
Proof.
  induction fuel as [| fuel IH]; intros s r s' t Hrun Hended fuel' Hle.
  - injection Hrun as <- _ _. congruence.
  - destruct fuel' as [| fuel']; [lia |].
    rewrite tick_loop_step in *.
    destruct (ctx_alive env c (world s)) as [[[] | e] w1]; trivial.
    destruct (ctx_tick env c w1) as [[u | e] w2]; trivial.
    destruct (tick_loop env fuel c (set_world w2 s)) as [[r1 s1] t1] eqn:Hrest.
    injection Hrun as <- <- <-.
    rewrite (IH _ _ _ _ Hrest Hended fuel'); [reflexivity | lia].
Qed.

Lemma execute_more_fuel k graph fuel s r s' t :
  execute env k graph fuel s = (r, s', t) -> r <> Unfinished ->
  forall fuel', fuel <= fuel' -> execute env k graph fuel' s = (r, s', t).
Proof.
  intros Hrun Hended fuel' Hle. rewrite execute_run in *.
  destruct (prologue env k graph s) as [[[[[c ex] executor] | e |] s1] t1];
    trivial.
  assert (Hsame : supervise env k fuel c executor s1 =
                    supervise env k fuel' c executor s1 \/
                  fst (fst (supervise env k fuel c executor s1)) = Unfinished).
  { rewrite !supervise_run.
    destruct (start_guarded env k c executor s1) as [[[[] | e |] s2] t2];
      try (now left).
    destruct (tick_loop env fuel c s2) as [[r3 s3] t3] eqn:Hloop.
    destruct r3 as [[] | e |]; [| | now right]; left;
      now rewrite (tick_loop_more_fuel c _ _ _ _ _ Hloop)
        by (congruence || lia). }
  destruct Hsame as [Hsame | Hout].
  - unfold within, attempt, bind in *. now rewrite <- Hsame.
  - destruct (supervise env k fuel c executor s1) as [[rb sb] tb] eqn:Hbody.
    simpl in Hout. subst rb.
    rewrite (within_unfinished _ _ _ _ _ Hbody) in Hrun.
    injection Hrun as <- _ _. now destruct Hended.
Qed.

(** The pool requests [execute] makes, for the strategies that size their
    pool: the strategy's factory, with [max_workers = len(graph)]. *)
Lemma execute_pool_requests k graph fuel :
  k <> ExecutorStrategy ->
  emits (fun ev => forall f mw, ev = CreateExecutor f mw ->
                   f = executor_factory_of k /\
                   mw = Some (List.length graph))
        (execute env k graph fuel).
Proof.
  intros Hk.
  set (P := fun ev : @event node C E L =>
              forall f mw, ev = CreateExecutor f mw ->
              f = executor_factory_of k /\ mw = Some (List.length graph)).
  assert (Hother : forall ev,
            (forall f mw, ev <> CreateExecutor f mw) -> P ev).
  { intros ev Hne f mw Heq. now destruct (Hne f mw). }
  unfold execute. apply emits_bind.
  - destruct k; simpl; try (apply emits_call, Hother; discriminate).
    apply emits_bind; [apply emits_self_loop, Hother; discriminate |].
    intros l. apply emits_call, Hother. discriminate.
  - intros c. apply emits_bind; [apply emits_call, Hother; discriminate |].
    intros _. apply emits_bind; [intros s; constructor | intros _].
    apply emits_bind.
    + destruct k; try congruence; simpl; apply emits_call;
        intros f mw [= <- <-]; now split.
    + intros ex. apply emits_bind; [| intros _; apply emits_ret].
      unfold with_.
      apply emits_bind; [apply emits_call, Hother; discriminate |].
      intros executor. apply emits_within.
      * intros x. apply emits_call, Hother. discriminate.
      * unfold supervise, tick_and_stop. apply emits_bind.
        -- eapply emits_impl; [| apply start_guarded_emits].
           intros ev Hev. apply Hother. intros f mw ->. discriminate.
        -- intros _. apply emits_bind.
           ++ eapply emits_impl; [| apply tick_loop_emits].
              intros ev Hev. apply Hother. intros f mw ->. discriminate.
           ++ intros _. apply emits_call, Hother. discriminate.
Qed.

End Execute.

(** ** Claims about [execute] *)

Section ExecuteClaims.

Context {W node C E H L : Type} (env : @Env W node C E H L).

Implicit Types (s : @store W H L) (c : C) (ex executor : E) (e : exc)
  (k : strategy) (graph : list node).

Lemma setup_is_quiet k graph s :
  let t := snd (prologue env k graph s) in
  count is_tick t = 0 /\ count is_kill t = 0 /\ count is_stop t = 0 /\
  count is_release t = 0 /\ count is_log t = 0 /\ offers t = [].
Proof.
  pose proof (prologue_emits env k graph s) as Hall. simpl.
  repeat split;
    try (eapply count_none_of; [| exact Hall]; now intros []).
  eapply offers_none; [| exact Hall]. reflexivity.
Qed.

Lemma start_is_quiet k c executor s :
  let t := snd (start_guarded env k c executor s) in
  count is_tick t = 0 /\ count is_kill t = 0 /\ count is_stop t = 0 /\
  count is_release t = 0.
Proof.
  pose proof (start_guarded_emits env k c executor s) as Hall. simpl.
  repeat split; (eapply count_none_of; [| exact Hall]; now intros []).
Qed.

(** C1, as the code has it.  When starting the context raises an instance
    of [Exception], [execute] logs it as critical and goes on with the tick
    loop from the store the failed start left: with fuel left, the next
    call is the [alive] check; and when the loop, [stop()] and the release
    of the executor then return, [execute] returns the context.  An
    exception raised while the context is built is outside the guard: it
    leaves [execute] at once, nothing is logged and the context is never
    ticked. *)
Theorem start_failure_is_logged_and_ticking_goes_on k graph fuel s :
  (forall c ex executor s1 t1 e s2 t2,
     prologue env k graph s = (Normal (c, ex, executor), s1, t1) ->
     start_attempt env k c executor s1 = (Raised e, s2, t2) ->
     isinstance e Exception = true ->
     start_guarded env k c executor s1 =
       (Normal tt, s2, t2 ++ [Log CRITICAL Msg.start_failed (Some e)]) /\
     execute env k graph fuel s =
       (let '(r, s3, t3) :=
          within (executor_exit env ex) (tick_and_stop env fuel c) s2 in
        (returning c r, s3,
         t1 ++ t2 ++ Log CRITICAL Msg.start_failed (Some e) :: t3)) /\
     (forall fuel', fuel = S fuel' ->
        exists tl,
          snd (execute env k graph fuel s) =
            t1 ++ t2 ++ Log CRITICAL Msg.start_failed (Some e)
               :: CtxAlive c :: tl) /\
     (forall s3 t3 b w4,
        tick_and_stop env fuel c s2 = (Normal tt, s3, t3) ->
        exec_exit env ex None (world s3) = (Returns b, w4) ->
        execute env k graph fuel s =
          (Normal c, set_world w4 s3,
           t1 ++ t2 ++ Log CRITICAL Msg.start_failed (Some e)
              :: t3 ++ [ExecExit ex None]))) /\
  (forall e s1 t1,
     create_graph_execution_context env k graph s = (Raised e, s1, t1) ->
     execute env k graph fuel s = (Raised e, s1, t1) /\
     count is_log t1 = 0 /\ count is_tick t1 = 0).
Proof.
  split.
  - intros c ex executor s1 t1 e s2 t2 Hpro Hstart Hcls.
    assert (Hguard : start_guarded env k c executor s1 =
              (Normal tt, s2, t2 ++ [Log CRITICAL Msg.start_failed (Some e)])).
    { now rewrite start_guarded_run, Hstart, Hcls. }
    assert (Hbody : supervise env k fuel c executor s1 =
              (let '(r, s', t) := tick_and_stop env fuel c s2 in
               (r, s', (t2 ++ [Log CRITICAL Msg.start_failed (Some e)]) ++ t))).
    { unfold supervise. now rewrite (bind_normal _ _ _ _ _ _ Hguard). }
    assert (Hrun : execute env k graph fuel s =
              (let '(r, s3, t3) :=
                 within (executor_exit env ex) (tick_and_stop env fuel c) s2 in
               (returning c r, s3,
                t1 ++ t2 ++ Log CRITICAL Msg.start_failed (Some e) :: t3))).
    { rewrite execute_run, Hpro.
      rewrite (within_after _ _ _ _ _ _ Hbody).
      destruct (within (executor_exit env ex) (tick_and_stop env fuel c) s2)
        as [[r s3] t3].
      now rewrite <- !app_assoc. }
    repeat split; trivial.
    + intros fuel' ->. rewrite Hrun.
      pose proof (executor_scope_run env ex (tick_and_stop env (S fuel') c) s2)
        as Htrace.
      destruct (tick_and_stop_asks_alive env fuel' c s2) as (tl & Hfirst).
      destruct (within (executor_exit env ex)
                  (tick_and_stop env (S fuel') c) s2)
        as [[r s3] t3]. simpl in *. subst t3.
      destruct (tick_and_stop env (S fuel') c s2) as [[[[] | e' |] s'] t'];
        simpl in Hfirst; subst t'; simpl; eauto.
    + intros s3 t3 b w4 Hloop Hexit. rewrite Hrun.
      rewrite (within_normal _ _ _ _ _ Hloop). unfold executor_exit, call.
      now rewrite Hexit.
  - intros e s1 t1 Hcreate. split.
    + unfold execute. now rewrite (bind_raised _ _ _ _ _ _ Hcreate).
    + pose proof (setup_is_quiet k graph s) as Hquiet.
      unfold prologue in Hquiet.
      rewrite (bind_raised _ _ _ _ _ _ Hcreate) in Hquiet. simpl in Hquiet.
      tauto.
Qed.

(** C3, as the code has it.  When [tick()] raises [KeyboardInterrupt] in
    the tick loop, after any number of quiet iterations, a warning is
    logged, [kill()] is called, and the loop is left: in the whole trace
    [kill()] is called once, no [tick()] follows the interrupted one, and
    the executor is released once.  When [kill()] returns, [stop()] is
    called next, once, and the release of the executor comes last.  When
    [kill()] raises, its exception leaves the handler and the loop:
    [stop()] is not called, the executor is released with that exception,
    and [execute] raises it when the executor's [__exit__] returns a false
    value. *)
Theorem interrupt_kills_then_stops k graph fuel s c ex executor s1 t1 s2 t2
    j s3 t3 w4 e w5 :
  prologue env k graph s = (Normal (c, ex, executor), s1, t1) ->
  start_guarded env k c executor s1 = (Normal tt, s2, t2) ->
  rounds env c j s2 = Some (s3, t3) ->
  ctx_alive env c (world s3) = (Returns true, w4) ->
  ctx_tick env c w4 = (Raises e, w5) ->
  isinstance e KeyboardInterrupt = true ->
  j < fuel ->
  let t := snd (execute env k graph fuel s) in
  let killed :=
    t1 ++ t2 ++ t3 ++
      [CtxAlive c; CtxTick c; Log WARNING Msg.interrupted None; CtxKill c] in
  (count is_kill t = 1 /\ count is_tick t = S j /\ count is_release t = 1) /\
  (forall u w6,
     ctx_kill env c w5 = (Returns u, w6) ->
     t = killed ++
           [CtxStop c; ExecExit ex (exc_of (fst (ctx_stop env c w6)))] /\
     count is_stop t = 1) /\
  (forall e' w6,
     ctx_kill env c w5 = (Raises e', w6) ->
     t = killed ++ [ExecExit ex (Some e')] /\
     count is_stop t = 0 /\
     forall w7,
       exec_exit env ex (Some e') w6 = (Returns false, w7) ->
       execute env k graph fuel s = (Raised e', set_world w7 s3, t)).
Proof.
  intros Hpro Hstart Hrounds Halive Htick Hcls Hfuel t killed.
  pose proof (tick_loop_interrupted env c j fuel s2 s3 t3 w4 e w5
                Hrounds Halive Htick Hcls Hfuel) as Hloop.
  pose proof (setup_is_quiet k graph s) as Hsetup.
  pose proof (start_is_quiet k c executor s1) as Hquiet.
  rewrite Hpro in Hsetup. rewrite Hstart in Hquiet. simpl in Hsetup, Hquiet.
  destruct Hsetup as (Hs1 & Hs2 & Hs3 & Hs4 & _).
  destruct Hquiet as (Hq1 & Hq2 & Hq3 & Hq4).
  destruct (rounds_trace env c j _ _ _ Hrounds) as (Hall & Hticks & Hkills).
  assert (Hstops : count is_stop t3 = 0)
    by (eapply count_none_of; [| exact Hall]; now intros []).
  assert (Hrels : count is_release t3 = 0)
    by (eapply count_none_of; [| exact Hall]; now intros []).
  assert (Hcounts : count is_kill killed = 1 /\ count is_tick killed = S j /\
                    count is_release killed = 0 /\ count is_stop killed = 0).
  { unfold killed. rewrite !count_app.
    rewrite Hs1, Hs2, Hs3, Hs4, Hq1, Hq2, Hq3, Hq4, Hticks, Hkills, Hstops,
      Hrels.
    unfold count. simpl. repeat split; lia. }
  destruct Hcounts as (Hk & Ht & Hr & Hs).
  assert (Hreturns : forall u w6,
            ctx_kill env c w5 = (Returns u, w6) ->
            t = killed ++
                  [CtxStop c;
                   ExecExit ex (exc_of (fst (ctx_stop env c w6)))]).
  { intros u w6 Hkill. unfold t, killed.
    rewrite (execute_trace env _ _ _ _ _ _ _ _ _ Hpro).
    rewrite executor_scope_run, supervise_run, Hstart, Hloop, Hkill. simpl.
    destruct (ctx_stop env c w6) as [[u' | e'] w7]; simpl;
      now rewrite <- !app_assoc. }
  assert (Hraises : forall e' w6,
            ctx_kill env c w5 = (Raises e', w6) ->
            t = killed ++ [ExecExit ex (Some e')]).
  { intros e' w6 Hkill. unfold t, killed.
    rewrite (execute_trace env _ _ _ _ _ _ _ _ _ Hpro).
    rewrite executor_scope_run, supervise_run, Hstart, Hloop, Hkill. simpl.
    now rewrite <- !app_assoc. }
  split; [| split].
  - destruct (ctx_kill env c w5) as [[u | e'] w6] eqn:Hkill.
    + rewrite (Hreturns u w6 eq_refl), !count_app, Hk, Ht, Hr.
      unfold count. simpl. repeat split; lia.
    + rewrite (Hraises e' w6 eq_refl), !count_app, Hk, Ht, Hr.
      unfold count. simpl. repeat split; lia.
  - intros u w6 Hkill. split; [exact (Hreturns u w6 Hkill) |].
    rewrite (Hreturns u w6 Hkill), !count_app, Hs. reflexivity.
  - intros e' w6 Hkill. split; [exact (Hraises e' w6 Hkill) |].
    split; [rewrite (Hraises e' w6 Hkill), !count_app, Hs; reflexivity |].
    intros w7 Hexit.
    assert (Hbody : supervise env k fuel c executor s1 =
                      (Raised e', set_world w6 s3,
                       t2 ++ t3 ++
                         [CtxAlive c; CtxTick c;
                          Log WARNING Msg.interrupted None; CtxKill c])).
    { now rewrite supervise_run, Hstart, Hloop, Hkill. }
    rewrite (Hraises e' w6 Hkill). unfold killed.
    rewrite execute_run, Hpro, (within_raised _ _ _ _ _ _ Hbody).
    unfold executor_exit, call. simpl. rewrite Hexit. simpl.
    now rewrite <- !app_assoc.
Qed.

Lemma loop_is_quiet fuel c s :
  let t := snd (tick_loop env fuel c s) in
  count is_stop t = 0 /\ count is_release t = 0.
Proof.
  pose proof (tick_loop_emits env fuel c s) as Hall. simpl.
  split; (eapply count_none_of; [| exact Hall]; now intros []).
Qed.

Lemma supervise_stops_at_most_once k fuel c executor s :
  count is_stop (snd (supervise env k fuel c executor s)) <= 1.
Proof.
  rewrite supervise_run.
  pose proof (start_is_quiet k c executor s) as (_ & _ & Hstart & _).
  destruct (start_guarded env k c executor s) as [[[[] | e |] s2] t2];
    simpl in *; try lia.
  pose proof (loop_is_quiet fuel c s2) as (Hloop & _).
  destruct (tick_loop env fuel c s2) as [[[[] | e |] s3] t3]; simpl in *.
  - destruct (ctx_stop env c (world s3)) as [r w4]. simpl.
    rewrite !count_app, Hstart, Hloop. unfold count. simpl. lia.
  - rewrite count_app. lia.
  - rewrite count_app. lia.
Qed.

(** The trace of [execute]: calls that are not a release and hold at most
    one [stop()], then at most one release. *)
Lemma execute_trace_shape k graph fuel s :
  exists body,
    Forall (fun ev => is_release ev = false) body /\
    count is_stop body <= 1 /\
    (snd (execute env k graph fuel s) = body \/
     exists ex x, snd (execute env k graph fuel s) = body ++ [ExecExit ex x]).
Proof.
  pose proof (prologue_emits env k graph s) as Hsetup.
  pose proof (setup_is_quiet k graph s) as (_ & _ & Hstops & _).
  assert (Hquiet : Forall (fun ev => is_release ev = false)
                     (snd (prologue env k graph s))).
  { eapply Forall_impl; [| exact Hsetup]. now intros []. }
  destruct (prologue env k graph s) as [[[[[c ex] executor] | e |] s1] t1]
    eqn:Hpro; simpl in *.
  - rewrite (execute_trace env _ _ _ _ _ _ _ _ _ Hpro), executor_scope_run.
    pose proof (supervise_emits env k fuel c executor s1) as Hbody.
    pose proof (supervise_stops_at_most_once k fuel c executor s1) as Hone.
    exists (t1 ++ snd (supervise env k fuel c executor s1)).
    split; [apply Forall_app; now split |].
    split; [rewrite count_app; lia |].
    destruct (supervise env k fuel c executor s1) as [[[[] | e |] sb] tb];
      simpl.
    + right. exists ex, None. now rewrite app_assoc.
    + right. exists ex, (Some e). now rewrite app_assoc.
    + now left.
  - exists t1. rewrite execute_run, Hpro. simpl.
    split; [exact Hquiet |]. split; [lia | now left].
  - exists t1. rewrite execute_run, Hpro. simpl.
    split; [exact Hquiet |]. split; [lia | now left].
Qed.

(** C4, as the code has it.  [stop()] is the statement after the tick
    loop, not a cleanup handler.  Whenever the loop ends -- the context is
    no longer alive, or an interrupt was answered by [kill()] -- [stop()]
    is called, once, also when the start had failed and was logged, and
    the release of the executor follows it.  When an exception leaves the
    loop, or one that is no instance of [Exception] leaves the start,
    [stop()] is not called and the executor is released all the same.  In
    every execution [stop()] is called at most once and the release, if
    it comes, is the last call. *)
Theorem stop_follows_the_loop_and_precedes_release k graph fuel s :
  (forall c ex executor s1 t1 s2 t2 s3 t3,
     prologue env k graph s = (Normal (c, ex, executor), s1, t1) ->
     start_guarded env k c executor s1 = (Normal tt, s2, t2) ->
     tick_loop env fuel c s2 = (Normal tt, s3, t3) ->
     let t := snd (execute env k graph fuel s) in
     t = t1 ++ t2 ++ t3 ++
           [CtxStop c;
            ExecExit ex (exc_of (fst (ctx_stop env c (world s3))))] /\
     count is_stop t = 1 /\ count is_release t = 1) /\
  (forall c ex executor s1 t1 s2 t2 e s3 t3,
     prologue env k graph s = (Normal (c, ex, executor), s1, t1) ->
     start_guarded env k c executor s1 = (Normal tt, s2, t2) ->
     tick_loop env fuel c s2 = (Raised e, s3, t3) ->
     let t := snd (execute env k graph fuel s) in
     t = t1 ++ t2 ++ t3 ++ [ExecExit ex (Some e)] /\ count is_stop t = 0) /\
  (forall c ex executor s1 t1 e s2 t2,
     prologue env k graph s = (Normal (c, ex, executor), s1, t1) ->
     start_guarded env k c executor s1 = (Raised e, s2, t2) ->
     let t := snd (execute env k graph fuel s) in
     t = t1 ++ t2 ++ [ExecExit ex (Some e)] /\ count is_stop t = 0) /\
  (let t := snd (execute env k graph fuel s) in
   count is_stop t <= 1 /\
   forall pre ex x post,
     t = pre ++ ExecExit ex x :: post ->
     post = [] /\ count is_release pre = 0 /\
     count is_stop pre = count is_stop t).
Proof.
  assert (Hcounts : forall c ex executor s1 t1 r2 s2 t2 r3 s3 t3,
            prologue env k graph s = (Normal (c, ex, executor), s1, t1) ->
            start_guarded env k c executor s1 = (r2, s2, t2) ->
            tick_loop env fuel c s2 = (r3, s3, t3) ->
            count is_stop t1 = 0 /\ count is_release t1 = 0 /\
            count is_stop t2 = 0 /\ count is_release t2 = 0 /\
            count is_stop t3 = 0 /\ count is_release t3 = 0).
  { intros c ex executor s1 t1 r2 s2 t2 r3 s3 t3 Hpro Hstart Hloop.
    pose proof (setup_is_quiet k graph s) as Hq1.
    pose proof (start_is_quiet k c executor s1) as Hq2.
    pose proof (loop_is_quiet fuel c s2) as Hq3.
    rewrite Hpro in Hq1. rewrite Hstart in Hq2. rewrite Hloop in Hq3.
    simpl in Hq1, Hq2, Hq3. tauto. }
  split; [| split; [| split]].
  - intros c ex executor s1 t1 s2 t2 s3 t3 Hpro Hstart Hloop t.
    destruct (Hcounts _ _ _ _ _ _ _ _ _ _ _ Hpro Hstart Hloop)
      as (Ha & Hb & Hc & Hd & He & Hf).
    assert (Ht : t = t1 ++ t2 ++ t3 ++
              [CtxStop c;
               ExecExit ex (exc_of (fst (ctx_stop env c (world s3))))]).
    { unfold t. rewrite (execute_trace env _ _ _ _ _ _ _ _ _ Hpro).
      rewrite executor_scope_run, supervise_run, Hstart, Hloop.
      destruct (ctx_stop env c (world s3)) as [[u | e] w4]; simpl;
        now rewrite <- !app_assoc. }
    split; [exact Ht |]. rewrite Ht, !count_app, Ha, Hb, Hc, Hd, He, Hf.
    unfold count. simpl. lia.
  - intros c ex executor s1 t1 s2 t2 e s3 t3 Hpro Hstart Hloop t.
    destruct (Hcounts _ _ _ _ _ _ _ _ _ _ _ Hpro Hstart Hloop)
      as (Ha & Hb & Hc & Hd & He & Hf).
    assert (Ht : t = t1 ++ t2 ++ t3 ++ [ExecExit ex (Some e)]).
    { unfold t. rewrite (execute_trace env _ _ _ _ _ _ _ _ _ Hpro).
      rewrite executor_scope_run, supervise_run, Hstart, Hloop. simpl.
      now rewrite <- !app_assoc. }
    split; [exact Ht |]. rewrite Ht, !count_app, Ha, Hc, He.
    unfold count. simpl. lia.
  - intros c ex executor s1 t1 e s2 t2 Hpro Hstart t.
    destruct (tick_loop env fuel c s2) as [[r3 s3] t3] eqn:Hloop.
    destruct (Hcounts _ _ _ _ _ _ _ _ _ _ _ Hpro Hstart Hloop)
      as (Ha & Hb & Hc & Hd & He & Hf).
    assert (Ht : t = t1 ++ t2 ++ [ExecExit ex (Some e)]).
    { unfold t. rewrite (execute_trace env _ _ _ _ _ _ _ _ _ Hpro).
      now rewrite executor_scope_run, supervise_run, Hstart. }
    split; [exact Ht |]. rewrite Ht, !count_app, Ha, Hc.
    unfold count. simpl. lia.
  - intros t.
    destruct (execute_trace_shape k graph fuel s)
      as (body & Hquiet & Hone & Hshape).
    assert (Hstops : count is_stop t = count is_stop body).
    { destruct Hshape as [Heq | (ex & x & Heq)]; unfold t; rewrite Heq;
        trivial.
      rewrite count_app. unfold count at 2. simpl. lia. }
    split; [lia |].
    intros pre ex x post Hsplit.
    destruct Hshape as [Heq | (ex0 & x0 & Heq)]; unfold t in Hsplit;
      rewrite Heq in Hsplit.
    + now apply (not_in_trace is_release) in Hsplit.
    + apply (split_last is_release) in Hsplit as (-> & _ & ->); trivial.
      split; [reflexivity |]. split; [now apply count_none | lia].
Qed.

(** C8, as the code has it.  In every execution of [execute], a [tick()]
    comes after [context.start] has been called on the same context, and
    after that start has either completed, every node having been offered
    to the starter, or been abandoned and logged as critical.  After an
    abandoned start the context is ticked although some of its nodes were
    never offered. *)
Theorem ticking_follows_the_start k graph fuel s pre c post :
  snd (execute env k graph fuel s) = pre ++ CtxTick c :: post ->
  In (CtxStart c) pre /\
  (offers pre = ctx_nodes env c \/
   exists e, In (Log CRITICAL Msg.start_failed (Some e)) pre).
Proof.
  intros Heq.
  pose proof (prologue_emits env k graph s) as Hsetup.
  assert (Hquiet : Forall (fun ev => is_tick ev = false)
                     (snd (prologue env k graph s))).
  { eapply Forall_impl; [| exact Hsetup]. now intros []. }
  pose proof (setup_is_quiet k graph s) as (_ & _ & _ & _ & _ & Hoff1).
  destruct (prologue env k graph s) as [[[[[c0 ex] executor] | e |] s1] t1]
    eqn:Hpro; simpl in *.
  - rewrite (execute_trace env _ _ _ _ _ _ _ _ _ Hpro) in Heq.
    destruct (supervised_trace env k fuel c0 ex executor s1)
      as (rest & Htrace & Hrest & Hreached).
    rewrite Htrace in Heq.
    apply (split_after is_tick) in Heq as (pre1 & -> & Heq); trivial.
    pose proof (start_guarded_emits env k c0 executor s1) as Hstart.
    assert (Hquiet2 : Forall (fun ev => is_tick ev = false)
                        (snd (start_guarded env k c0 executor s1))).
    { eapply Forall_impl; [| exact Hstart]. now intros []. }
    apply (split_after is_tick) in Heq as (pre2 & -> & Heq); trivial.
    subst rest. apply Forall_app in Hrest as (Hpre2 & Hfrom).
    inversion Hfrom as [| ? ? (_ & Hsame) _]; subst.
    rewrite (Hsame c eq_refl) in *.
    assert (Hoff2 : offers pre2 = []).
    { apply (offers_none is_closing); [reflexivity |].
      eapply Forall_impl; [| exact Hpre2]. now intros ev []. }
    destruct (start_guarded env k c0 executor s1) as [[[[] | e |] s2] t2]
      eqn:Hguard; simpl in *.
    + assert (Hcache : k = AsyncThreadPoolExecutorStrategy ->
                       loop_cache s1 <> None).
      { intros ->. eapply prologue_caches_loop; exact Hpro. }
      destruct (start_guarded_outcome env k c0 executor s1 s2 t2 Hcache Hguard)
        as (Hcalled & Hdone).
      split.
      * apply in_or_app. right. apply in_or_app. now left.
      * destruct Hdone as [Hall | (e & Hlog)].
        -- left. now rewrite !offers_app, Hoff1, Hoff2, app_nil_r.
        -- right. exists e. apply in_or_app. right. apply in_or_app. now left.
    + exfalso. assert (Hno : Forall (fun ev => is_tick ev = false)
                               (pre2 ++ CtxTick c0 :: post))
        by (apply Hreached; discriminate).
      apply Forall_app in Hno as (_ & Hno). inversion Hno. discriminate.
    + exfalso. assert (Hno : Forall (fun ev => is_tick ev = false)
                               (pre2 ++ CtxTick c0 :: post))
        by (apply Hreached; discriminate).
      apply Forall_app in Hno as (_ & Hno). inversion Hno. discriminate.
  - rewrite execute_run, Hpro in Heq. simpl in Heq.
    now apply (not_in_trace is_tick) in Heq.
  - rewrite execute_run, Hpro in Heq. simpl in Heq.
    now apply (not_in_trace is_tick) in Heq.
Qed.

(** C7. For every graph the thread-backed and the process-backed strategy
    make exactly one call to their executor factory, with
    [max_workers = len(graph)], and the pool they hand over is the answer
    to that call; and whatever pool is asked for in an execution of
    [execute] under these strategies is asked of the strategy's factory
    with [max_workers = len(graph)]. *)
Theorem pool_sized_to_graph (graph : list node) s :
  let max_workers := Some (List.length graph) in
  create_executor env ThreadPoolExecutorStrategy graph s =
    call (CreateExecutor ThreadPoolExecutor max_workers)
         (executor_factory env ThreadPoolExecutor max_workers) s /\
  snd (create_executor env ThreadPoolExecutorStrategy graph s) =
    [CreateExecutor ThreadPoolExecutor max_workers] /\
  create_executor env ProcessPoolExecutorStrategy graph s =
    call (CreateExecutor ProcessPoolExecutor max_workers)
         (executor_factory env ProcessPoolExecutor max_workers) s /\
  snd (create_executor env ProcessPoolExecutorStrategy graph s) =
    [CreateExecutor ProcessPoolExecutor max_workers] /\
  (forall fuel f mw,
     In (CreateExecutor f mw)
        (snd (execute env ThreadPoolExecutorStrategy graph fuel s)) ->
     f = ThreadPoolExecutor /\ mw = max_workers) /\
  (forall fuel f mw,
     In (CreateExecutor f mw)
        (snd (execute env ProcessPoolExecutorStrategy graph fuel s)) ->
     f = ProcessPoolExecutor /\ mw = max_workers).
Proof.
  intros max_workers. split; [reflexivity |]. split; [apply call_trace |].
  split; [reflexivity |]. split; [apply call_trace |].
  split; intros fuel f mw Hin.
  - pose proof (execute_pool_requests env ThreadPoolExecutorStrategy graph
                  fuel ltac:(discriminate) s) as Hall.
    eapply Forall_forall in Hall; [| exact Hin]. now apply Hall.
  - pose proof (execute_pool_requests env ProcessPoolExecutorStrategy graph
                  fuel ltac:(discriminate) s) as Hall.
    eapply Forall_forall in Hall; [| exact Hin]. now apply Hall.
Qed.

End ExecuteClaims.

(** ** The claims on scripted runs *)

Section Runs.

Import Demo.

(** The loop of node 10 raises [RuntimeError]: the scope is released, the
    error is logged, the runner returns [None]. *)
Lemma runner_contains_failed_loop :
  _runner (env failed_loop) 10 s0 =
    (Normal PyNone, s0,
     [NodeEnter 10; NodeLoop 10; NodeExit 10 (Some boom);
      Log CRITICAL Msg.runner_failed (Some boom)]).
Proof.
  refine (proj1 (proj2 (proj2 (proj2 (proj2 (proj2
            (runner_releases_scope_and_contains_exceptions
               (env failed_loop) 10 s0))))))
            boom tt 0 0 0 _ _ _ _); reflexivity.
Defined.

(** The pool refuses node 20 out of three: all three are offered, a runner
    is submitted for each, and every call of the starter returns. *)
Lemma starter_goes_on_after_refusal :
  exists s1 t1,
    offer_all G (starter (env refused_submit) 1) s0 = (Normal tt, s1, t1) /\
    offers t1 = G /\ submitted t1 = map RunnerTask G.
Proof.
  refine (proj2 (starter_contains_submission_failure (env refused_submit) 1)
            G s0 _).
  simpl. repeat split.
Defined.

(** [sys.exit()] in the loop of node 10 leaves the runner, and an interrupt
    of [submit] leaves the starter. *)
Lemma system_exit_leaves_runner :
  _runner (env exiting_loop) 10 s0 =
    (Raised sys_exit, s0,
     [NodeEnter 10; NodeLoop 10; NodeExit 10 (Some sys_exit)]).
Proof.
  refine (proj1 (proj2 (non_exception_errors_escape
                          (env exiting_loop) 10 1 s0 sys_exit _))
            tt 0 0 0 _ _ _); reflexivity.
Defined.

(** With ALPHA off the constructor raises at once. *)
Lemma async_strategy_refused_without_alpha :
  init (env no_alpha) AsyncThreadPoolExecutorStrategy s0 =
    (Raised (mkExc NotImplementedError (Msg.experimental class_name)),
     s0, [AlphaGet]).
Proof.
  refine (proj1 (async_strategy_needs_alpha (env no_alpha) s0 0) _).
  reflexivity.
Defined.

(** A start that fails with [RuntimeError]: logged, then the loop runs its
    two ticks and [execute] returns the context. *)
Lemma degraded_run_returns_context :
  execute (env failed_start) ThreadPoolExecutorStrategy G 10 s0 =
    (Normal G, mkStore 2 [] None,
     [CreateContext G None; CtxWrite G;
      CreateExecutor ThreadPoolExecutor (Some 3); ExecEnter 1;
      CtxStart G; Log CRITICAL Msg.start_failed (Some boom);
      CtxAlive G; CtxTick G; CtxAlive G; CtxTick G; CtxAlive G;
      CtxStop G; ExecExit 1 None]).
Proof.
  pose proof (proj1 (start_failure_is_logged_and_ticking_goes_on
                       (env failed_start) ThreadPoolExecutorStrategy G 10 s0)
                G 1 1 _ _ boom _ _ eq_refl eq_refl eq_refl)
    as (_ & _ & _ & Hreturns).
  exact (Hreturns _ _ false _ eq_refl eq_refl).
Defined.

(** The second tick is interrupted. *)
Lemma interrupted_run_kills_and_stops_once :
  let t := snd (execute (env interrupted) ThreadPoolExecutorStrategy G 10 s0) in
  count is_kill t = 1 /\ count is_stop t = 1 /\ count is_release t = 1 /\
  count is_tick t = 2.
Proof.
  pose proof (interrupt_kills_then_stops (env interrupted)
                ThreadPoolExecutorStrategy G 10 s0
                G 1 1 _ _ _ _ 1 _ _ _ ctrl_c _
                eq_refl eq_refl eq_refl eq_refl eq_refl eq_refl ltac:(lia))
    as Hrun.
  cbv zeta in Hrun. destruct Hrun as ((Hkill & Hticks & Hrelease) & Hreturns & _).
  destruct (Hreturns tt _ eq_refl) as (_ & Hstop).
  cbv zeta. repeat split; assumption.
Defined.

(** The context dies after two ticks: [stop()], then the release. *)
Lemma quiet_run_stops_then_releases :
  let t := snd (execute (env quiet) ThreadPoolExecutorStrategy G 10 s0) in
  count is_stop t = 1 /\ count is_release t = 1.
Proof.
  refine (proj2 (proj1 (stop_follows_the_loop_and_precedes_release
                          (env quiet) ThreadPoolExecutorStrategy G 10 s0)
                   G 1 1 _ _ _ _ _ _ _ _ _)); reflexivity.
Defined.

(** Every tick of a quiet run comes after the start, all nodes offered. *)
Lemma quiet_run_ticks_after_start :
  let pre : list (@event nat (list nat) nat nat) :=
    [CreateContext G None; CtxWrite G;
     CreateExecutor ThreadPoolExecutor (Some 3); ExecEnter 1; CtxStart G;
     Offer 10; Submit 1 (RunnerTask 10); Offer 20; Submit 1 (RunnerTask 20);
     Offer 30; Submit 1 (RunnerTask 30); CtxStartEnd G; CtxAlive G] in
  In (CtxStart G) pre /\
  (offers pre = ctx_nodes (env quiet) G \/
   exists e, In (Log CRITICAL Msg.start_failed (Some e)) pre).
Proof.
  refine (ticking_follows_the_start (env quiet) ThreadPoolExecutorStrategy
            G 10 s0 _ G
            [CtxAlive G; CtxTick G; CtxAlive G; CtxStop G; ExecExit 1 None] _).
  reflexivity.
Defined.

(** A quiet run asks for one pool, of three workers for three nodes. *)
Lemma quiet_run_asks_for_three_workers :
  let t := snd (execute (env quiet) ThreadPoolExecutorStrategy G 10 s0) in
  In (CreateExecutor ThreadPoolExecutor (Some 3)) t /\
  ThreadPoolExecutor = ThreadPoolExecutor /\ Some 3 = Some (List.length G).
Proof.
  assert (Hin : In (CreateExecutor ThreadPoolExecutor (Some 3))
                  (snd (execute (env quiet) ThreadPoolExecutorStrategy
                          G 10 s0))).
  { vm_compute. tauto. }
  split; [exact Hin |].
  exact (proj1 (proj2 (proj2 (proj2 (proj2
           (pool_sized_to_graph (env quiet) G s0)))))
           10 ThreadPoolExecutor (Some 3) Hin).
Defined.

(** C1, counterexample.  Building the context raises [RuntimeError], an
    instance of [Exception]: [execute] raises it, returns no context, logs
    nothing and never ticks. *)
Lemma building_failure_leaves_execute :
  let run := execute (env no_context) ThreadPoolExecutorStrategy G 10 s0 in
  create_context (env no_context) G None (world s0) = (Raises boom, 0) /\
  isinstance boom Exception = true /\
  fst (fst run) = Raised boom /\
  (forall c, fst (fst run) <> Normal c) /\
  count is_log (snd run) = 0 /\
  count is_tick (snd run) = 0.
Proof.
  repeat split. intros c. discriminate.
Qed.

(** C4, counterexample.  The second [tick()] raises [RuntimeError]: the
    executor is released and [execute] raises, but [stop()] is never
    called. *)
Lemma failed_tick_skips_stop :
  let run := execute (env failed_tick) ThreadPoolExecutorStrategy G 10 s0 in
  fst (fst run) = Raised boom /\
  count is_stop (snd run) = 0 /\
  count is_release (snd run) = 1.
Proof.
  repeat split.
Qed.

(** C8, counterexample.  With the event-loop strategy the pool refuses the
    callable for node 20 and [run_in_executor] raises inside
    [context.start]: the start is abandoned and logged, node 30 is never
    offered, and the context is ticked. *)
Lemma tick_after_abandoned_start :
  let run :=
    execute (env refused_submit) AsyncThreadPoolExecutorStrategy G 10 s0 in
  exists pre post,
    snd run = pre ++ CtxTick G :: post /\
    offers pre = [10; 20] /\
    ctx_nodes (env refused_submit) G = [10; 20; 30] /\
    offers pre <> ctx_nodes (env refused_submit) G.
Proof.
  exists [GetEventLoop; CreateContext G (Some 7); CtxWrite G;
          CreateExecutor ThreadPoolExecutor (Some 3); ExecEnter 1;
          CtxStart G; Offer 10; LoopCheckClosed 7; Submit 1 (StarterTask 1 10);
          Offer 20; LoopCheckClosed 7; Submit 1 (StarterTask 1 20);
          Log CRITICAL Msg.start_failed (Some boom); CtxAlive G].
  exists [CtxAlive G; CtxTick G; CtxAlive G; CtxStop G; ExecExit 1 None].
  repeat split. discriminate.
Qed.

(** C2, counterexample.  The loop of node 10 raises [RuntimeError], an
    instance of [Exception], inside the node's scope, and the node's own
    [__exit__] returns a true value: the runner returns [None] and logs
    nothing. *)
Lemma swallowed_failure_leaves_no_record :
  let world_of_node := Faulty.env failed_loop Faulty.swallowing_node in
  let run := _runner world_of_node 10 s0 in
  node_loop world_of_node 10 0 = (Raises boom, 0) /\
  isinstance boom Exception = true /\
  fst (fst run) = Normal PyNone /\
  count is_log (snd run) = 0.
Proof.
  repeat split.
Qed.

(** C3, counterexample.  The second [tick()] raises [KeyboardInterrupt] and
    [kill()] then raises [RuntimeError]: [kill()] was called once, the
    executor is released, [execute] raises, and [stop()] is never
    called. *)
Lemma failed_kill_skips_stop :
  let run := execute (env failed_kill) ThreadPoolExecutorStrategy G 10 s0 in
  ctx_tick (env failed_kill) G 1 = (Raises ctrl_c, 2) /\
  isinstance ctrl_c KeyboardInterrupt = true /\
  fst (fst run) = Raised boom /\
  count is_kill (snd run) = 1 /\
  count is_stop (snd run) = 0 /\
  count is_release (snd run) = 1.
Proof.
  repeat split.
Qed.

(** C9, counterexample.  The loop of node 10 raises [SystemExit], which is
    no instance of [Exception], and the node's own [__exit__] returns a
    true value: the exception does not leave the runner, which returns
    [None]. *)
Lemma swallowed_system_exit_stays_in_runner :
  let world_of_node := Faulty.env exiting_loop Faulty.swallowing_node in
  node_loop world_of_node 10 0 = (Raises sys_exit, 0) /\
  isinstance sys_exit Exception = false /\
  _runner world_of_node 10 s0 =
    (Normal PyNone, s0,
     [NodeEnter 10; NodeLoop 10; NodeExit 10 (Some sys_exit)]).
Proof.
  repeat split.
Qed.

End Runs.

(** * Further properties of the module *)

(** ** How [execute] ends *)

Section Endings.

Context {W node C E H L : Type} (env : @Env W node C E H L).

Implicit Types (s : @store W H L) (c : C) (ex executor : E) (e : exc)
  (k : strategy) (graph : list node).

(** The loop after [j] quiet iterations, when the context is then found
    not alive. *)
Lemma tick_loop_ends_quietly c j : forall fuel s s3 t3 w4,
  rounds env c j s = Some (s3, t3) ->
  ctx_alive env c (world s3) = (Returns false, w4) ->
  j < fuel ->
  tick_loop env fuel c s = (Normal tt, set_world w4 s3, t3 ++ [CtxAlive c]).
Proof.
  induction j as [| j IH]; intros fuel s s3 t3 w4 Hrounds Hdead Hfuel;
    (destruct fuel as [| fuel]; [lia |]); rewrite tick_loop_step;
    simpl in Hrounds.
  - injection Hrounds as <- <-. now rewrite Hdead.
  - destruct (ctx_alive env c (world s)) as [[[] | e0] w1]; try discriminate.
    destruct (ctx_tick env c w1) as [[u0 | e0] w2]; try discriminate.
    destruct (rounds env c j (set_world w2 s)) as [[s1 t1] |] eqn:Hrest;
      try discriminate.
    injection Hrounds as <- <-.
    rewrite (IH fuel _ _ _ _ Hrest Hdead); [reflexivity | lia].
Qed.

(** The loop after [j] quiet iterations, when [tick()] then raises
    something else than [KeyboardInterrupt]. *)
Lemma tick_loop_fails c j : forall fuel s s3 t3 w4 e w5,
  rounds env c j s = Some (s3, t3) ->
  ctx_alive env c (world s3) = (Returns true, w4) ->
  ctx_tick env c w4 = (Raises e, w5) ->
  isinstance e KeyboardInterrupt = false ->
  j < fuel ->
  tick_loop env fuel c s =
    (Raised e, set_world w5 s3, t3 ++ [CtxAlive c; CtxTick c]).
Proof.
  induction j as [| j IH]; intros fuel s s3 t3 w4 e w5 Hrounds Halive Htick
    Hcls Hfuel;
    (destruct fuel as [| fuel]; [lia |]); rewrite tick_loop_step;
    simpl in Hrounds.
  - injection Hrounds as <- <-. now rewrite Halive, Htick, Hcls.
  - destruct (ctx_alive env c (world s)) as [[[] | e0] w1]; try discriminate.
    destruct (ctx_tick env c w1) as [[u0 | e0] w2]; try discriminate.
    destruct (rounds env c j (set_world w2 s)) as [[s1 t1] |] eqn:Hrest;
      try discriminate.
    injection Hrounds as <- <-.
    rewrite (IH fuel _ _ _ _ _ _ Hrest Halive Htick Hcls); [reflexivity | lia].
Qed.

(** The loop after [j] quiet iterations, when reading [alive] raises. *)
Lemma tick_loop_alive_fails c j : forall fuel s s3 t3 e w4,
  rounds env c j s = Some (s3, t3) ->
  ctx_alive env c (world s3) = (Raises e, w4) ->
  j < fuel ->
  tick_loop env fuel c s = (Raised e, set_world w4 s3, t3 ++ [CtxAlive c]).
Proof.
  induction j as [| j IH]; intros fuel s s3 t3 e w4 Hrounds Halive Hfuel;
    (destruct fuel as [| fuel]; [lia |]); rewrite tick_loop_step;
    simpl in Hrounds.
  - injection Hrounds as <- <-. now rewrite Halive.
  - destruct (ctx_alive env c (world s)) as [[[] | e0] w1]; try discriminate.
    destruct (ctx_tick env c w1) as [[u0 | e0] w2]; try discriminate.
    destruct (rounds env c j (set_world w2 s)) as [[s1 t1] |] eqn:Hrest;
      try discriminate.
    injection Hrounds as <- <-.
    rewrite (IH fuel _ _ _ _ _ Hrest Halive); [reflexivity | lia].
Qed.

Lemma rounds_are_quiet c j s s3 t3 :
  rounds env c j s = Some (s3, t3) ->
  count is_tick t3 = j /\ count is_kill t3 = 0 /\ count is_stop t3 = 0 /\
  count is_release t3 = 0 /\ count is_warning t3 = 0 /\ count is_log t3 = 0.
Proof.
  intros Hrounds.
  destruct (rounds_trace env c j _ _ _ Hrounds) as (Hall & Hticks & Hkills).
  repeat split; trivial.
  - eapply count_none_of; [| exact Hall]. now intros [].
  - eapply count_none_of; [| exact Hall]. now intros [].
  - clear Hticks Hkills. revert s s3 t3 Hrounds Hall.
    induction j as [| j IH]; intros s s3 t3; simpl.
    + now intros [= _ <-].
    + destruct (ctx_alive env c (world s)) as [[[] | e0] w1]; try discriminate.
      destruct (ctx_tick env c w1) as [[u0 | e0] w2]; try discriminate.
      destruct (rounds env c j (set_world w2 s)) as [[s1 t1] |] eqn:Hrest;
        try discriminate.
      intros [= _ <-] Hall. inversion Hall as [| ? ? _ Hall1]; subst.
      inversion Hall1 as [| ? ? _ Hall2]; subst.
      exact (IH _ _ _ Hrest Hall2).
  - clear Hticks Hkills. revert s s3 t3 Hrounds Hall.
    induction j as [| j IH]; intros s s3 t3; simpl.
    + now intros [= _ <-].
    + destruct (ctx_alive env c (world s)) as [[[] | e0] w1]; try discriminate.
      destruct (ctx_tick env c w1) as [[u0 | e0] w2]; try discriminate.
      destruct (rounds env c j (set_world w2 s)) as [[s1 t1] |] eqn:Hrest;
        try discriminate.
      intros [= _ <-] Hall. inversion Hall as [| ? ? _ Hall1]; subst.
      inversion Hall1 as [| ? ? _ Hall2]; subst.
      exact (IH _ _ _ Hrest Hall2).
Qed.

Lemma phases_are_quiet k graph s c ex executor s1 t1 r2 s2 t2 :
  prologue env k graph s = (Normal (c, ex, executor), s1, t1) ->
  start_guarded env k c executor s1 = (r2, s2, t2) ->
  (count is_tick t1 = 0 /\ count is_kill t1 = 0 /\ count is_stop t1 = 0 /\
   count is_release t1 = 0 /\ count is_warning t1 = 0) /\
  (count is_tick t2 = 0 /\ count is_kill t2 = 0 /\ count is_stop t2 = 0 /\
   count is_release t2 = 0 /\ count is_warning t2 = 0).
Proof.
  intros Hpro Hstart.
  pose proof (prologue_emits env k graph s) as H1.
  pose proof (start_guarded_emits env k c executor s1) as H2.
  rewrite Hpro in H1. rewrite Hstart in H2. simpl in H1, H2.
  split; repeat split;
    try (eapply count_none_of; [| exact H1]; now intros []);
    (eapply count_none_of; [| exact H2]; intros [] Hev; trivial;
     try discriminate; now destruct lvl).
Qed.

(** X1. When the context is alive for [j] checks, each followed by a
    [tick()] that returns, and then reports that it is not alive, and
    [stop()] and the release of the executor return, [execute] returns the
    context it built: it has ticked [j] times, called [stop()] once, never
    [kill()], and released the executor last.  Any fuel above [j] gives
    this run. *)
Theorem execute_returns_when_context_dies k graph fuel s c ex executor s1 t1
    s2 t2 j s3 t3 w4 u w5 b w6 :
  prologue env k graph s = (Normal (c, ex, executor), s1, t1) ->
  start_guarded env k c executor s1 = (Normal tt, s2, t2) ->
  rounds env c j s2 = Some (s3, t3) ->
  ctx_alive env c (world s3) = (Returns false, w4) ->
  ctx_stop env c w4 = (Returns u, w5) ->
  exec_exit env ex None w5 = (Returns b, w6) ->
  j < fuel ->
  let t := t1 ++ t2 ++ t3 ++ [CtxAlive c; CtxStop c; ExecExit ex None] in
  execute env k graph fuel s = (Normal c, set_world w6 s3, t) /\
  count is_tick t = j /\ count is_stop t = 1 /\ count is_kill t = 0 /\
  count is_release t = 1.
Proof.
  intros Hpro Hstart Hrounds Hdead Hstop Hexit Hfuel t.
  pose proof (tick_loop_ends_quietly c j fuel s2 s3 t3 w4 Hrounds Hdead Hfuel)
    as Hloop.
  split.
  - rewrite execute_run, Hpro.
    assert (Hbody : supervise env k fuel c executor s1 =
              (Normal tt, set_world w5 s3,
               t2 ++ (t3 ++ [CtxAlive c]) ++ [CtxStop c])).
    { rewrite supervise_run, Hstart, Hloop. simpl. rewrite Hstop.
      now destruct u. }
    rewrite (within_normal _ _ _ _ _ Hbody). unfold executor_exit, call.
    simpl. rewrite Hexit. simpl. unfold t. now rewrite <- !app_assoc.
  - destruct (phases_are_quiet k graph s c ex executor s1 t1 _ s2 t2 Hpro Hstart)
      as ((A1 & A2 & A3 & A4 & _) & (B1 & B2 & B3 & B4 & _)).
    destruct (rounds_are_quiet c j s2 s3 t3 Hrounds)
      as (C1 & C2 & C3 & C4 & _).
    unfold t. rewrite !count_app, A1, A2, A3, A4, B1, B2, B3, B4, C1, C2, C3, C4.
    unfold count. simpl. repeat split; lia.
Qed.

(** X2. What leaves [execute] when the body of its [with] statement raises
    is decided by the executor's [__exit__], which is called with that
    exception: a false result lets the exception out of [execute]; a true
    result swallows it and [execute] returns the context; an exception
    raised by [__exit__] replaces it.  When the body ends normally and
    [__exit__] raises, [execute] raises. *)
Theorem executor_exit_decides_what_leaves k graph fuel s c ex executor s1 t1 :
  prologue env k graph s = (Normal (c, ex, executor), s1, t1) ->
  (forall e s2 t2,
     supervise env k fuel c executor s1 = (Raised e, s2, t2) ->
     (forall w,
        exec_exit env ex (Some e) (world s2) = (Returns false, w) ->
        execute env k graph fuel s =
          (Raised e, set_world w s2, t1 ++ t2 ++ [ExecExit ex (Some e)])) /\
     (forall w,
        exec_exit env ex (Some e) (world s2) = (Returns true, w) ->
        execute env k graph fuel s =
          (Normal c, set_world w s2, t1 ++ t2 ++ [ExecExit ex (Some e)])) /\
     (forall e' w,
        exec_exit env ex (Some e) (world s2) = (Raises e', w) ->
        execute env k graph fuel s =
          (Raised e', set_world w s2, t1 ++ t2 ++ [ExecExit ex (Some e)]))) /\
  (forall s2 t2 e' w,
     supervise env k fuel c executor s1 = (Normal tt, s2, t2) ->
     exec_exit env ex None (world s2) = (Raises e', w) ->
     execute env k graph fuel s =
       (Raised e', set_world w s2, t1 ++ t2 ++ [ExecExit ex None])).
Proof.
  intros Hpro. split.
  - intros e s2 t2 Hbody.
    repeat split; intros; rewrite execute_run, Hpro,
      (within_raised _ _ _ _ _ _ Hbody); unfold executor_exit, call;
      match goal with Hx : exec_exit _ _ _ _ = _ |- _ => rewrite Hx end;
      reflexivity.
  - intros s2 t2 e' w Hbody Hexit.
    rewrite execute_run, Hpro, (within_normal _ _ _ _ _ Hbody).
    unfold executor_exit, call. now rewrite Hexit.
Qed.

End Endings.

Section Propagation.

Context {W node C E H L : Type} (env : @Env W node C E H L).

Implicit Types (s : @store W H L) (c : C) (ex executor : E) (e : exc)
  (k : strategy) (graph : list node).

(** The last call of a prologue that succeeded is [__enter__] of the
    executor. *)
Lemma prologue_ends_with_enter k graph s c ex executor s1 t1 :
  prologue env k graph s = (Normal (c, ex, executor), s1, t1) ->
  exists t0, t1 = t0 ++ [ExecEnter ex].
Proof.
  unfold prologue. unfold bind at 1.
  destruct (create_graph_execution_context env k graph s)
    as [[[c0 | e |] sa] ta]; try discriminate.
  unfold bind at 1.
  destruct (call (CtxWrite c0) (ctx_write env c0) sa)
    as [[[u | e |] sb] tb]; try discriminate.
  unfold bind at 1. unfold reset_futures at 1. unfold bind at 1.
  destruct (create_executor env k graph (set_futures [] sb))
    as [[[ex0 | e |] sc] tc]; try discriminate.
  unfold bind, ret.
  pose proof (call_trace (@ExecEnter node C E L ex0) (exec_enter env ex0) sc)
    as Henter.
  destruct (call (ExecEnter ex0) (exec_enter env ex0) sc)
    as [[[executor0 | e |] sd] td]; try discriminate.
  simpl in Henter. subst td.
  intros [= _ <- _ _ <-]. exists (ta ++ tb ++ tc).
  simpl. now rewrite <- !app_assoc.
Qed.

(** X3. An exception raised by [tick()] that is no [KeyboardInterrupt], and
    any exception raised while [context.alive] is read, even a
    [KeyboardInterrupt], is not handled by the tick loop: no warning is
    logged, [kill()] and [stop()] are not called, the executor is released
    with that exception, and it leaves [execute] when the executor's
    [__exit__] returns a false value. *)
Theorem loop_failure_is_not_handled k graph fuel s c ex executor s1 t1 s2 t2
    j s3 t3 :
  prologue env k graph s = (Normal (c, ex, executor), s1, t1) ->
  start_guarded env k c executor s1 = (Normal tt, s2, t2) ->
  rounds env c j s2 = Some (s3, t3) ->
  j < fuel ->
  (forall w4 e w5,
     ctx_alive env c (world s3) = (Returns true, w4) ->
     ctx_tick env c w4 = (Raises e, w5) ->
     isinstance e KeyboardInterrupt = false ->
     let t := t1 ++ t2 ++ t3 ++
                [CtxAlive c; CtxTick c; ExecExit ex (Some e)] in
     snd (execute env k graph fuel s) = t /\
     count is_warning t = 0 /\ count is_kill t = 0 /\ count is_stop t = 0 /\
     forall w6,
       exec_exit env ex (Some e) w5 = (Returns false, w6) ->
       execute env k graph fuel s = (Raised e, set_world w6 s3, t)) /\
  (forall e w4,
     ctx_alive env c (world s3) = (Raises e, w4) ->
     let t := t1 ++ t2 ++ t3 ++ [CtxAlive c; ExecExit ex (Some e)] in
     snd (execute env k graph fuel s) = t /\
     count is_warning t = 0 /\ count is_kill t = 0 /\ count is_stop t = 0 /\
     forall w6,
       exec_exit env ex (Some e) w4 = (Returns false, w6) ->
       execute env k graph fuel s = (Raised e, set_world w6 s3, t)).
Proof.
  intros Hpro Hstart Hrounds Hfuel.
  destruct (phases_are_quiet env k graph s c ex executor s1 t1 _ s2 t2
              Hpro Hstart)
    as ((_ & A2 & A3 & _ & A5) & (_ & B2 & B3 & _ & B5)).
  destruct (rounds_are_quiet env c j s2 s3 t3 Hrounds)
    as (_ & C2 & C3 & _ & C5 & _).
  split.
  - intros w4 e w5 Halive Htick Hcls t.
    pose proof (tick_loop_fails env c j fuel s2 s3 t3 w4 e w5
                  Hrounds Halive Htick Hcls Hfuel) as Hloop.
    assert (Hbody : supervise env k fuel c executor s1 =
              (Raised e, set_world w5 s3, t2 ++ t3 ++ [CtxAlive c; CtxTick c])).
    { now rewrite supervise_run, Hstart, Hloop. }
    split; [| split; [| split; [| split]]].
    + rewrite (execute_trace env _ _ _ _ _ _ _ _ _ Hpro).
      rewrite executor_scope_run, Hbody. unfold t.
      now rewrite <- !app_assoc.
    + unfold t. rewrite !count_app, A5, B5, C5. reflexivity.
    + unfold t. rewrite !count_app, A2, B2, C2. reflexivity.
    + unfold t. rewrite !count_app, A3, B3, C3. reflexivity.
    + intros w6 Hexit. rewrite execute_run, Hpro,
        (within_raised _ _ _ _ _ _ Hbody). unfold executor_exit, call.
      simpl. rewrite Hexit. simpl. unfold t. now rewrite <- !app_assoc.
  - intros e w4 Halive t.
    pose proof (tick_loop_alive_fails env c j fuel s2 s3 t3 e w4
                  Hrounds Halive Hfuel) as Hloop.
    assert (Hbody : supervise env k fuel c executor s1 =
              (Raised e, set_world w4 s3, t2 ++ t3 ++ [CtxAlive c])).
    { now rewrite supervise_run, Hstart, Hloop. }
    split; [| split; [| split; [| split]]].
    + rewrite (execute_trace env _ _ _ _ _ _ _ _ _ Hpro).
      rewrite executor_scope_run, Hbody. unfold t.
      now rewrite <- !app_assoc.
    + unfold t. rewrite !count_app, A5, B5, C5. reflexivity.
    + unfold t. rewrite !count_app, A2, B2, C2. reflexivity.
    + unfold t. rewrite !count_app, A3, B3, C3. reflexivity.
    + intros w6 Hexit. rewrite execute_run, Hpro,
        (within_raised _ _ _ _ _ _ Hbody). unfold executor_exit, call.
      simpl. rewrite Hexit. simpl. unfold t. now rewrite <- !app_assoc.
Qed.

(** X4. [execute] does not leak the executor it entered: an execution that
    ends, normally or by an exception, after [__enter__] returned calls
    [__exit__] on that executor exactly once, as its last call; an
    execution still in its tick loop has not released it. *)
Theorem entered_executor_is_released_once k graph fuel s c ex executor s1 t1 :
  prologue env k graph s = (Normal (c, ex, executor), s1, t1) ->
  let run := execute env k graph fuel s in
  (exists t0, t1 = t0 ++ [ExecEnter ex]) /\
  (fst (fst run) <> Unfinished ->
   exists body x,
     snd run = t1 ++ body ++ [ExecExit ex x] /\
     count is_release (t1 ++ body) = 0 /\
     count is_release (snd run) = 1) /\
  (fst (fst run) = Unfinished -> count is_release (snd run) = 0).
Proof.
  intros Hpro run.
  split; [eapply prologue_ends_with_enter; exact Hpro |].
  pose proof (prologue_emits env k graph s) as Hsetup.
  rewrite Hpro in Hsetup. simpl in Hsetup.
  assert (Hquiet1 : count is_release t1 = 0)
    by (eapply count_none_of; [| exact Hsetup]; now intros []).
  pose proof (supervise_emits env k fuel c executor s1) as Hbody.
  apply count_none in Hbody.
  assert (Htrace : snd run =
            t1 ++ snd (within (executor_exit env ex)
                         (supervise env k fuel c executor) s1))
    by (apply execute_trace; exact Hpro).
  assert (Hout : fst (fst run) =
            returning c (fst (fst (within (executor_exit env ex)
                                     (supervise env k fuel c executor) s1)))).
  { unfold run. rewrite execute_run, Hpro.
    now destruct (within _ _ s1) as [[r s2] t2]. }
  rewrite executor_scope_run in Htrace.
  destruct (supervise env k fuel c executor s1) as [[[[] | e |] sb] tb]
    eqn:Hsup; simpl in Hbody.
  - split; [| intros Hun; rewrite Hout, (within_normal _ _ _ _ _ Hsup) in Hun;
              exfalso; unfold executor_exit, call in Hun;
              now destruct (exec_exit env ex None (world sb)) as [[? | ?] ?]].
    intros _. exists tb, None. rewrite Htrace.
    repeat split; rewrite !count_app, ?Hquiet1, ?Hbody; reflexivity.
  - split; [| intros Hun; rewrite Hout, (within_raised _ _ _ _ _ _ Hsup) in Hun;
              exfalso; unfold executor_exit, call in Hun;
              now destruct (exec_exit env ex (Some e) (world sb))
                as [[[] | ?] ?]].
    intros _. exists tb, (Some e). rewrite Htrace.
    repeat split; rewrite !count_app, ?Hquiet1, ?Hbody; reflexivity.
  - split.
    + intros Hended. rewrite Hout, (within_unfinished _ _ _ _ _ Hsup) in Hended.
      now destruct Hended.
    + intros _. rewrite Htrace, count_app, Hquiet1, Hbody. reflexivity.
Qed.

(** X5. When [context.write], the executor factory or the executor's
    [__enter__] raises, as when the context cannot be built, the exception
    leaves [execute] at once: the context is not started, ticked, killed or
    stopped, nothing is submitted or logged, and no executor is
    released. *)
Theorem setup_failure_aborts k graph fuel s e s1 t1 :
  prologue env k graph s = (Raised e, s1, t1) ->
  execute env k graph fuel s = (Raised e, s1, t1) /\
  count is_start t1 = 0 /\ count is_submit t1 = 0 /\ count is_tick t1 = 0 /\
  count is_kill t1 = 0 /\ count is_stop t1 = 0 /\ count is_release t1 = 0 /\
  count is_log t1 = 0.
Proof.
  intros Hpro. split; [now rewrite execute_run, Hpro |].
  pose proof (prologue_emits env k graph s) as Hsetup.
  rewrite Hpro in Hsetup. simpl in Hsetup.
  repeat split; (eapply count_none_of; [| exact Hsetup]; now intros []).
Qed.

End Propagation.

(** ** Starters and runners *)

Section Starters.

Context {W node C E H L : Type} (env : @Env W node C E H L).

Implicit Types (s : @store W H L) (c : C) (ex executor : E) (e : exc)
  (k : strategy) (n : node) (ns : list node) (l : L).

(** X6. After the thread-pool starter has been invoked for a list of nodes
    whose submissions return or raise an instance of [Exception],
    [futures] has grown by exactly the handles of the accepted
    submissions, in node order: a refused submission leaves no handle but
    one critical log record, and [submit] was called once per node. *)
Theorem futures_hold_the_accepted_handles executor ns s :
  submissions_contained env executor ns (world s) ->
  exists s1 t1,
    offer_all ns (starter env executor) s = (Normal tt, s1, t1) /\
    futures s1 = futures s ++ accepted env executor ns (world s) /\
    count is_log t1 + List.length (accepted env executor ns (world s)) =
      List.length ns /\
    count is_submit t1 = List.length ns /\
    loop_cache s1 = loop_cache s.
Proof.
  revert s. induction ns as [| n ns IH]; intros s Hall.
  - exists s, []. simpl. rewrite app_nil_r. repeat split.
  - simpl in Hall. rewrite offer_all_cons, starter_run. simpl accepted.
    destruct (submit env executor (RunnerTask n) (world s)) as [[h | e] w1].
    + specialize (IH (set_futures (futures s ++ [h]) (set_world w1 s)) Hall).
      destruct IH as (s1 & t1 & Hrun & Hfut & Hlogs & Hsubs & Hcache).
      rewrite Hrun. exists s1, (Offer n :: [Submit executor (RunnerTask n)] ++ t1).
      simpl in *. split; [reflexivity |].
      split; [now rewrite Hfut, <- app_assoc |].
      unfold count in *. simpl. repeat split; try lia. exact Hcache.
    + destruct Hall as [Hcls Hall]. rewrite Hcls.
      specialize (IH (set_world w1 s) Hall).
      destruct IH as (s1 & t1 & Hrun & Hfut & Hlogs & Hsubs & Hcache).
      rewrite Hrun.
      exists s1, (Offer n :: [Submit executor (RunnerTask n);
                              Log CRITICAL Msg.submit_failed (Some e)] ++ t1).
      simpl in *. split; [reflexivity |]. split; [exact Hfut |].
      unfold count in *. simpl. repeat split; try lia. exact Hcache.
Qed.

(** How the starter of the event-loop strategy runs, call by call. *)
Lemma bridged_starter_run l executor n s :
  bridged_starter env l executor n s =
    match loop_check_closed env l (world s) with
    | (Raises e, w1) => (Raised e, set_world w1 s, [LoopCheckClosed l])
    | (Returns _, w1) =>
        let t := [LoopCheckClosed l; Submit executor (StarterTask executor n)] in
        match submit env executor (StarterTask executor n) w1 with
        | (Returns h, w2) => (Normal (AsyncFuture l h), set_world w2 s, t)
        | (Raises e, w2) => (Raised e, set_world w2 s, t)
        end
    end.
Proof.
  unfold bridged_starter, run_in_executor, bind, call, ret.
  destruct (loop_check_closed env l (world s)) as [[u | e] w1]; simpl;
    [| reflexivity].
  now destruct (submit env executor (StarterTask executor n) w1)
    as [[h | e] w2].
Qed.

(** Offering nodes through the event-loop starter while loop and pool
    accept them. *)
Lemma bridged_offers l executor ns : forall s w1,
  bridged env l executor ns (world s) = Some w1 ->
  exists t,
    offer_all ns (bridged_starter env l executor) s =
      (Normal tt, set_world w1 s, t) /\
    offers t = ns /\ count is_log t = 0.
Proof.
  induction ns as [| n ns IH]; intros s w1; simpl.
  - intros [= <-]. exists []. destruct s. repeat split.
  - rewrite offer_all_cons, bridged_starter_run.
    destruct (loop_check_closed env l (world s)) as [[u | e] wa];
      try discriminate.
    destruct (submit env executor (StarterTask executor n) wa)
      as [[h | e] wb]; try discriminate.
    intros Hrest. cbv beta iota zeta.
    destruct (IH (set_world wb s) w1 Hrest) as (t & Hrun & Hoff & Hlog).
    rewrite Hrun. eexists. split; [reflexivity |].
    simpl. rewrite Hoff. split; [reflexivity |]. exact Hlog.
Qed.

(** X7. The starter of the event-loop strategy has no handler of its own.
    With the loop cached it is the callback [get_starter] returns.  On a
    closed loop it raises without submitting; when the pool refuses the
    callable it raises what [submit] raised; nothing is logged.  Inside
    [context.start] this ends the offering at that node: the nodes after
    it are never offered, and when the exception is an instance of
    [Exception] the guarded start of [execute] logs it as a failed
    start. *)
Theorem bridged_starter_contains_nothing l executor :
  (forall s,
     loop_cache s = Some l ->
     get_starter env AsyncThreadPoolExecutorStrategy executor s =
       (Normal (bridged_starter env l executor), s, [])) /\
  (forall n s e w1,
     loop_check_closed env l (world s) = (Raises e, w1) ->
     bridged_starter env l executor n s =
       (Raised e, set_world w1 s, [LoopCheckClosed l])) /\
  (forall n s u w1 e w2,
     loop_check_closed env l (world s) = (Returns u, w1) ->
     submit env executor (StarterTask executor n) w1 = (Raises e, w2) ->
     bridged_starter env l executor n s =
       (Raised e, set_world w2 s,
        [LoopCheckClosed l; Submit executor (StarterTask executor n)])) /\
  (forall ns1 n ns2 s w1 u w2 e w3,
     bridged env l executor ns1 (world s) = Some w1 ->
     loop_check_closed env l w1 = (Returns u, w2) ->
     submit env executor (StarterTask executor n) w2 = (Raises e, w3) ->
     exists t,
       offer_all (ns1 ++ n :: ns2) (bridged_starter env l executor) s =
         (Raised e, set_world w3 s, t) /\
       offers t = ns1 ++ [n] /\ count is_log t = 0) /\
  (forall c ns1 n ns2 s u0 w0 w1 u w2 e w3,
     loop_cache s = Some l ->
     ctx_nodes env c = ns1 ++ n :: ns2 ->
     ctx_start_begin env c (world s) = (Returns u0, w0) ->
     bridged env l executor ns1 w0 = Some w1 ->
     loop_check_closed env l w1 = (Returns u, w2) ->
     submit env executor (StarterTask executor n) w2 = (Raises e, w3) ->
     isinstance e Exception = true ->
     exists t,
       start_guarded env AsyncThreadPoolExecutorStrategy c executor s =
         (Normal tt, set_world w3 s,
          t ++ [Log CRITICAL Msg.start_failed (Some e)]) /\
       offers t = ns1 ++ [n] /\ count is_log t = 0).
Proof.
  assert (Hget : forall s, loop_cache s = Some l ->
            get_starter env AsyncThreadPoolExecutorStrategy executor s =
              (Normal (bridged_starter env l executor), s, [])).
  { intros s Hcache. simpl.
    unfold self_loop, read_loop_cache, bind, ret. now rewrite Hcache. }
  assert (Hstop : forall ns1 n ns2 s w1 u w2 e w3,
            bridged env l executor ns1 (world s) = Some w1 ->
            loop_check_closed env l w1 = (Returns u, w2) ->
            submit env executor (StarterTask executor n) w2 = (Raises e, w3) ->
            exists t,
              offer_all (ns1 ++ n :: ns2) (bridged_starter env l executor) s =
                (Raised e, set_world w3 s, t) /\
              offers t = ns1 ++ [n] /\ count is_log t = 0).
  { induction ns1 as [| m ns1 IH]; intros n ns2 s w1 u w2 e w3; simpl.
    - intros [= <-] Hopen Hsub. rewrite offer_all_cons, bridged_starter_run.
      rewrite Hopen, Hsub. eexists. split; [reflexivity |]. now split.
    - rewrite offer_all_cons, bridged_starter_run.
      destruct (loop_check_closed env l (world s)) as [[ua | ea] wa];
        try discriminate.
      destruct (submit env executor (StarterTask executor m) wa)
        as [[h | eb] wb]; try discriminate.
      intros Hrest Hopen Hsub. cbv beta iota zeta.
      destruct (IH n ns2 (set_world wb s) w1 u w2 e w3 Hrest Hopen Hsub)
        as (t & Hrun & Hoff & Hlog).
      rewrite Hrun. eexists. split; [reflexivity |]. simpl. rewrite Hoff.
      split; [reflexivity |]. exact Hlog. }
  split; [exact Hget |]. split; [| split; [| split; [exact Hstop |]]].
  - intros n s e w1 Hclosed. now rewrite bridged_starter_run, Hclosed.
  - intros n s u w1 e w2 Hopen Hsub.
    now rewrite bridged_starter_run, Hopen, Hsub.
  - intros c ns1 n ns2 s u0 w0 w1 u w2 e w3 Hcache Hnodes Hbegin Hpre Hopen
      Hsub Hcls.
    destruct (Hstop ns1 n ns2 (set_world w0 s) w1 u w2 e w3 Hpre Hopen Hsub)
      as (t & Hrun & Hoff & Hlog).
    exists (CtxStart c :: t).
    rewrite start_guarded_run. unfold start_attempt.
    rewrite (bind_normal _ _ _ _ _ _ (Hget s Hcache)), context_start_run.
    rewrite Hbegin, Hnodes, Hrun. simpl. rewrite Hcls.
    split; [reflexivity |]. split; [exact Hoff | exact Hlog].
Qed.

(** X8. The node's loop only runs inside an acquired scope: when
    [__enter__] raises, whatever the exception, neither [loop()] nor
    [__exit__] is called.  A runner whose scope and loop return logs
    nothing and returns [None]; so does one whose loop raises when the
    node's own [__exit__] returns a true value, the exception being
    swallowed there.  No run of the runner logs more than one record. *)
Theorem loop_runs_only_in_acquired_scope n s :
  (forall e w1,
     node_enter env n (world s) = (Raises e, w1) ->
     count is_node_loop (snd (_runner env n s)) = 0 /\
     count is_node_exit (snd (_runner env n s)) = 0) /\
  (forall u w1 v w2 b w3,
     node_enter env n (world s) = (Returns u, w1) ->
     node_loop env n w1 = (Returns v, w2) ->
     node_exit env n None w2 = (Returns b, w3) ->
     _runner env n s =
       (Normal PyNone, set_world w3 s,
        [NodeEnter n; NodeLoop n; NodeExit n None])) /\
  (forall u w1 e w2 w3,
     node_enter env n (world s) = (Returns u, w1) ->
     node_loop env n w1 = (Raises e, w2) ->
     node_exit env n (Some e) w2 = (Returns true, w3) ->
     _runner env n s =
       (Normal PyNone, set_world w3 s,
        [NodeEnter n; NodeLoop n; NodeExit n (Some e)])) /\
  count is_log (snd (_runner env n s)) <= 1.
Proof.
  split; [| split; [| split]].
  - intros e w1 Henter. rewrite runner_run, node_scope_run, Henter.
    now destruct (isinstance e Exception).
  - intros u w1 v w2 b w3 Henter Hloop Hexit.
    rewrite runner_run, node_scope_run, Henter, Hloop. simpl.
    rewrite Hexit. now destruct b.
  - intros u w1 e w2 w3 Henter Hloop Hexit.
    rewrite runner_run, node_scope_run, Henter, Hloop. simpl.
    now rewrite Hexit.
  - rewrite runner_run, node_scope_run.
    destruct (node_enter env n (world s)) as [[u | e] w1].
    + destruct (node_loop env n w1) as [[v | e] w2]; simpl.
      * destruct (node_exit env n None w2) as [[[] | e'] w3];
          try destruct (isinstance e' Exception); unfold count; simpl; lia.
      * destruct (node_exit env n (Some e) w2) as [[[] | e'] w3];
          try destruct (isinstance e' Exception);
          try destruct (isinstance e Exception); unfold count; simpl; lia.
    + destruct (isinstance e Exception); unfold count; simpl; lia.
Qed.

End Starters.

(** ** The shape of every execution *)

Section Shape.

Context {W node C E H L : Type} (env : @Env W node C E H L).

Implicit Types (s : @store W H L) (c : C) (ex executor : E) (e : exc)
  (k : strategy) (graph : list node).

(** A call of a kind that the last part of a trace does not hold lies in
    the first part. *)
Lemma split_before (kind : @event node C E L -> bool) t4 ev : forall t3 pre post,
  Forall (fun a => kind a = false) t4 ->
  kind ev = true ->
  t3 ++ t4 = pre ++ ev :: post ->
  exists post', post = post' ++ t4 /\ t3 = pre ++ ev :: post'.
Proof.
  intros t3 pre post Hnone Hev. revert t3.
  induction pre as [| b pre IH]; intros t3 Heq.
  - destruct t3 as [| a t3]; simpl in Heq.
    + now apply (not_in_trace kind t4 [] post ev Hnone Hev) in Heq.
    + injection Heq as -> <-. now exists t3.
  - destruct t3 as [| a t3]; simpl in Heq.
    + now apply (not_in_trace kind t4 (b :: pre) post ev Hnone Hev) in Heq.
    + injection Heq as -> Heq. destruct (IH t3 Heq) as (post' & -> & ->).
      now exists post'.
Qed.

(** Every trace of [execute] that got past the prologue: the calls of the
    prologue, of the guarded start, of the tick loop if it was reached, and
    the closing calls. *)
Lemma execute_parts k graph fuel s c ex executor s1 t1 :
  prologue env k graph s = (Normal (c, ex, executor), s1, t1) ->
  exists t3 t4,
    snd (execute env k graph fuel s) =
      t1 ++ snd (start_guarded env k c executor s1) ++ t3 ++ t4 /\
    (t3 = [] \/ exists s2, t3 = snd (tick_loop env fuel c s2)) /\
    Forall (fun ev => ev = CtxStop c \/ exists x, ev = ExecExit ex x) t4.
Proof.
  intros Hpro. rewrite (execute_trace env _ _ _ _ _ _ _ _ _ Hpro).
  rewrite executor_scope_run, supervise_run.
  destruct (start_guarded env k c executor s1) as [[[[] | e |] s2] t2].
  - destruct (tick_loop env fuel c s2) as [[[[] | e |] s3] t3] eqn:Hloop.
    + destruct (ctx_stop env c (world s3)) as [[u | e] w4]; simpl;
        [exists t3, [CtxStop c; @ExecExit node C E L ex None]
        | exists t3, [CtxStop c; @ExecExit node C E L ex (Some e)]];
        (split; [now rewrite <- !app_assoc |]);
        (split; [right; exists s2; now rewrite Hloop |]);
        (constructor; [now left |]);
        (constructor; [right; eauto | constructor]).
    + simpl. exists t3, [@ExecExit node C E L ex (Some e)].
      split; [now rewrite <- !app_assoc |].
      split; [right; exists s2; now rewrite Hloop |].
      constructor; [right; eauto | constructor].
    + simpl. exists t3, []. split; [now rewrite !app_nil_r |].
      split; [right; exists s2; now rewrite Hloop | constructor].
  - simpl. exists [], [@ExecExit node C E L ex (Some e)].
    split; [reflexivity |]. split; [now left |].
    constructor; [right; eauto | constructor].
  - simpl. exists [], []. split; [now rewrite !app_nil_r |].
    split; [now left | constructor].
Qed.

End Shape.

(** ** The discipline of the tick loop *)

Section LoopDiscipline.

Context {W node C E H L : Type} (env : @Env W node C E H L).

Implicit Types (s : @store W H L) (c : C) (ex executor : E) (e : exc)
  (k : strategy) (graph : list node).

(** Where a [tick()] stands in the trace of the loop. *)
Lemma loop_tick_position c fuel : forall s pre c' post,
  snd (tick_loop env fuel c s) = pre ++ CtxTick c' :: post ->
  c' = c /\ exists pre', pre = pre' ++ [CtxAlive c].
Proof.
  induction fuel as [| fuel IH]; intros s pre c' post.
  - simpl. now destruct pre.
  - rewrite tick_loop_step.
    destruct (ctx_alive env c (world s)) as [[[] | e] w1]; simpl.
    + destruct (ctx_tick env c w1) as [[u | e] w2].
      * specialize (IH (set_world w2 s)).
        destruct (tick_loop env fuel c (set_world w2 s)) as [[r s'] t].
        simpl in *. intros Heq.
        destruct pre as [| a [| b pre]]; simpl in Heq.
        -- discriminate.
        -- injection Heq as Ha Hb Hc. subst.
           split; [reflexivity |]. now exists [].
        -- injection Heq as Ha Hb Heq. subst a b.
           destruct (IH _ _ _ Heq) as (-> & pre' & ->). split; [reflexivity |].
           now exists (CtxAlive c :: CtxTick c :: pre').
      * destruct (isinstance e KeyboardInterrupt);
          [destruct (ctx_kill env c w2) as [[u | e'] w3] |]; simpl;
          intros Heq;
          destruct pre as [| a [| b [| d [| f pre]]]]; simpl in Heq;
          inversion Heq; subst;
          try (split; [reflexivity |]; now exists []);
          now destruct pre.
    + intros Heq. destruct pre as [| a pre]; simpl in Heq; inversion Heq.
      now destruct pre.
    + intros Heq. destruct pre as [| a pre]; simpl in Heq; inversion Heq.
      now destruct pre.
Qed.

(** Where a [kill()] stands in the trace of the loop. *)
Lemma loop_kill_position c fuel : forall s pre c' post,
  snd (tick_loop env fuel c s) = pre ++ CtxKill c' :: post ->
  c' = c /\ post = [] /\ count is_kill pre = 0 /\
  exists pre',
    pre = pre' ++ [CtxAlive c; CtxTick c; Log WARNING Msg.interrupted None].
Proof.
  induction fuel as [| fuel IH]; intros s pre c' post.
  - simpl. now destruct pre.
  - rewrite tick_loop_step.
    destruct (ctx_alive env c (world s)) as [[[] | e] w1]; simpl.
    + destruct (ctx_tick env c w1) as [[u | e] w2].
      * specialize (IH (set_world w2 s)).
        destruct (tick_loop env fuel c (set_world w2 s)) as [[r s'] t].
        simpl in *. intros Heq.
        destruct pre as [| a [| b pre]]; simpl in Heq; try discriminate.
        injection Heq as Ha Hb Heq. subst a b.
        destruct (IH _ _ _ Heq) as (-> & -> & Hnone & pre' & ->).
        repeat split; trivial.
        now exists (CtxAlive c :: CtxTick c :: pre').
      * destruct (isinstance e KeyboardInterrupt);
          [destruct (ctx_kill env c w2) as [[u | e'] w3] |]; simpl;
          intros Heq;
          destruct pre as [| a [| b [| d [| f pre]]]]; simpl in Heq;
          inversion Heq; subst;
          try (repeat split; now exists []);
          now destruct pre.
    + intros Heq. destruct pre as [| a pre]; simpl in Heq; inversion Heq.
      now destruct pre.
    + intros Heq. destruct pre as [| a pre]; simpl in Heq; inversion Heq.
      now destruct pre.
Qed.

Lemma final_calls_are_quiet c ex (t4 : list (@event node C E L)) :
  Forall (fun ev => ev = CtxStop c \/ exists x, ev = ExecExit ex x) t4 ->
  Forall (fun ev => is_tick ev = false) t4 /\
  Forall (fun ev => is_kill ev = false) t4 /\
  count is_tick t4 = 0 /\ count is_kill t4 = 0 /\
  count is_alive_check t4 = 0 /\ count is_warning t4 = 0.
Proof.
  intros Hall.
  assert (Hkinds : forall kind : @event node C E L -> bool,
            (forall c0, kind (CtxStop c0) = false) ->
            (forall ex0 x, kind (ExecExit ex0 x) = false) ->
            Forall (fun ev => kind ev = false) t4).
  { intros kind Hstop Hexit. eapply Forall_impl; [| exact Hall].
    intros ev [-> | (x & ->)]; [apply Hstop | apply Hexit]. }
  repeat split; try apply count_none; now apply Hkinds.
Qed.

(** X9. In every execution of [execute], [tick()] is only called right
    after [alive] has been read on the same context. *)
Theorem tick_follows_alive_check k graph fuel s pre c post :
  snd (execute env k graph fuel s) = pre ++ CtxTick c :: post ->
  exists pre', pre = pre' ++ [CtxAlive c].
Proof.
  intros Heq.
  pose proof (prologue_emits env k graph s) as Hsetup.
  assert (Hq1 : Forall (fun ev => is_tick ev = false)
                  (snd (prologue env k graph s))).
  { eapply Forall_impl; [| exact Hsetup]. now intros []. }
  destruct (prologue env k graph s) as [[[[[c0 ex] executor] | e |] s1] t1]
    eqn:Hpro; simpl in Hq1.
  - destruct (execute_parts env k graph fuel s c0 ex executor s1 t1 Hpro)
      as (t3 & t4 & Htrace & Hloop & Hfinal).
    rewrite Htrace in Heq.
    apply (split_after is_tick) in Heq as (pre1 & -> & Heq); trivial.
    assert (Hq2 : Forall (fun ev => is_tick ev = false)
                    (snd (start_guarded env k c0 executor s1))).
    { eapply Forall_impl; [| apply start_guarded_emits]. now intros []. }
    apply (split_after is_tick) in Heq as (pre2 & -> & Heq); trivial.
    destruct (final_calls_are_quiet c0 ex t4 Hfinal) as (Hq4 & _).
    apply (split_before is_tick) in Heq as (post' & -> & Heq); trivial.
    destruct Hloop as [-> | (s2 & ->)]; [now destruct pre2 |].
    apply loop_tick_position in Heq as (-> & pre' & ->).
    exists (t1 ++ snd (start_guarded env k c0 executor s1) ++ pre').
    now rewrite <- !app_assoc.
  - rewrite execute_run, Hpro in Heq. simpl in Heq.
    now apply (not_in_trace is_tick) in Heq.
  - rewrite execute_run, Hpro in Heq. simpl in Heq.
    now apply (not_in_trace is_tick) in Heq.
Qed.

(** X10. In every execution of [execute], [kill()] is called at most once,
    and only right after the warning that follows a [tick()] on the same
    context; after [kill()] the context is neither asked whether it is
    alive nor ticked again. *)
Theorem kill_only_answers_an_interrupt k graph fuel s pre c post :
  snd (execute env k graph fuel s) = pre ++ CtxKill c :: post ->
  (exists pre',
     pre = pre' ++
       [CtxAlive c; CtxTick c; Log WARNING Msg.interrupted None]) /\
  count is_kill pre = 0 /\ count is_kill post = 0 /\
  count is_alive_check post = 0 /\ count is_tick post = 0.
Proof.
  intros Heq.
  pose proof (prologue_emits env k graph s) as Hsetup.
  assert (Hq1 : Forall (fun ev => is_kill ev = false)
                  (snd (prologue env k graph s))).
  { eapply Forall_impl; [| exact Hsetup]. now intros []. }
  destruct (prologue env k graph s) as [[[[[c0 ex] executor] | e |] s1] t1]
    eqn:Hpro; simpl in Hq1.
  - destruct (execute_parts env k graph fuel s c0 ex executor s1 t1 Hpro)
      as (t3 & t4 & Htrace & Hloop & Hfinal).
    rewrite Htrace in Heq.
    apply (split_after is_kill) in Heq as (pre1 & -> & Heq); trivial.
    assert (Hq2 : Forall (fun ev => is_kill ev = false)
                    (snd (start_guarded env k c0 executor s1))).
    { eapply Forall_impl; [| apply start_guarded_emits]. now intros []. }
    apply (split_after is_kill) in Heq as (pre2 & -> & Heq); trivial.
    destruct (final_calls_are_quiet c0 ex t4 Hfinal)
      as (_ & Hq4 & Hticks & Hkills & Halives & _).
    apply (split_before is_kill) in Heq as (post' & -> & Heq); trivial.
    destruct Hloop as [-> | (s2 & ->)]; [now destruct pre2 |].
    apply loop_kill_position in Heq as (-> & -> & Hnone & pre' & ->).
    split.
    + exists (t1 ++ snd (start_guarded env k c0 executor s1) ++ pre').
      now rewrite <- !app_assoc.
    + pose proof (count_none _ _ Hq1) as Hn1.
      pose proof (count_none _ _ Hq2) as Hn2.
      rewrite !count_app in *. repeat split; trivial; lia.
  - rewrite execute_run, Hpro in Heq. simpl in Heq.
    now apply (not_in_trace is_kill) in Heq.
  - rewrite execute_run, Hpro in Heq. simpl in Heq.
    now apply (not_in_trace is_kill) in Heq.
Qed.

End LoopDiscipline.

(** ** What each phase calls *)

Section Calls.

Context {W node C E H L : Type} (env : @Env W node C E H L).

Implicit Types (s : @store W H L) (c : C) (ex executor : E) (e : exc)
  (k : strategy) (graph : list node) (n : node) (l : L)
  (P : @event node C E L -> Prop).

Lemma starter_calls P executor n :
  P (Submit executor (RunnerTask n)) ->
  (forall e, P (Log CRITICAL Msg.submit_failed (Some e))) ->
  emits P (starter env executor n).
Proof.
  intros Hsub Hlog s. rewrite starter_run.
  destruct (submit env executor (RunnerTask n) (world s)) as [[h | e] w1];
    try destruct (isinstance e Exception); simpl; repeat constructor; trivial.
Qed.

Lemma bridged_starter_calls P l executor n :
  P (LoopCheckClosed l) ->
  P (Submit executor (StarterTask executor n)) ->
  emits P (bridged_starter env l executor n).
Proof.
  intros Hopen Hsub s. rewrite bridged_starter_run.
  destruct (loop_check_closed env l (world s)) as [[u | e] w1]; simpl;
    [| now repeat constructor].
  destruct (submit env executor (StarterTask executor n) w1) as [[h | e] w2];
    simpl; now repeat constructor.
Qed.

Lemma context_start_calls P c
    (f : node -> @M W node C E H L (@pyvalue H L)) :
  P (CtxStart c) -> (forall n, P (Offer n)) -> P (CtxStartEnd c) ->
  (forall n, emits P (f n)) ->
  emits P (context_start env c f).
Proof.
  intros Hstart Hoffer Hend Hf. unfold context_start.
  apply emits_bind; [now apply emits_call | intros _].
  apply emits_bind; [| intros _; now apply emits_call].
  unfold offer_all. apply emits_for_each. intros n.
  apply emits_bind; [now apply emits_emit | intros _].
  apply emits_bind; [apply Hf | intros _; apply emits_ret].
Qed.

Lemma tick_loop_calls P fuel c :
  P (CtxAlive c) -> P (CtxTick c) -> P (CtxKill c) ->
  P (Log WARNING Msg.interrupted None) ->
  emits P (tick_loop env fuel c).
Proof.
  intros Halive Htick Hkill Hwarn.
  induction fuel as [| fuel IH]; simpl; [apply emits_out_of_fuel |].
  apply emits_bind; [now apply emits_call | intros [|]; [| apply emits_ret]].
  apply emits_bind.
  - apply emits_try_except.
    + apply emits_bind; [now apply emits_call | intros _; apply emits_ret].
    + intros _. apply emits_bind; [now apply emits_log | intros _].
      apply emits_bind; [now apply emits_call | intros _; apply emits_ret].
  - intros [|]; [apply emits_ret | exact IH].
Qed.

(** The callback [get_starter] returns once the loop is at hand: the
    thread-pool starter, or the event-loop starter for the cached loop. *)
Lemma get_starter_cases k executor s :
  (k = AsyncThreadPoolExecutorStrategy -> loop_cache s <> None) ->
  (k <> AsyncThreadPoolExecutorStrategy /\
   get_starter env k executor s = (Normal (starter env executor), s, [])) \/
  (k = AsyncThreadPoolExecutorStrategy /\
   exists l,
     loop_cache s = Some l /\
     get_starter env k executor s =
       (Normal (bridged_starter env l executor), s, [])).
Proof.
  intros Hcache. destruct k; try (left; split; [discriminate | reflexivity]).
  right. split; [reflexivity |].
  destruct (loop_cache s) as [l |] eqn:Hl; [| now destruct Hcache].
  exists l. split; [reflexivity |]. simpl.
  unfold self_loop, read_loop_cache, bind, ret. now rewrite Hl.
Qed.

(** The calls of a guarded start whose callback is [f]. *)
Lemma start_guarded_with P k c executor s
    (f : node -> @M W node C E H L (@pyvalue H L)) :
  get_starter env k executor s = (Normal f, s, []) ->
  emits P (context_start env c f) ->
  (forall e, P (Log CRITICAL Msg.start_failed (Some e))) ->
  Forall P (snd (start_guarded env k c executor s)).
Proof.
  intros Hget Hstart Hlog. rewrite start_guarded_run. unfold start_attempt.
  rewrite (bind_normal _ _ _ _ _ _ Hget). specialize (Hstart s).
  destruct (context_start env c f s) as [[[[] | e |] s1] t1]; simpl in *;
    trivial.
  destruct (isinstance e Exception); simpl; trivial.
  apply Forall_app. split; [exact Hstart |]. now repeat constructor.
Qed.

(** How the context is built, call by call. *)
Lemma create_context_run k graph s :
  create_graph_execution_context env k graph s =
    match k with
    | AsyncThreadPoolExecutorStrategy =>
        match loop_cache s with
        | Some l =>
            let '(r, w) := create_context env graph (Some l) (world s) in
            (of_reply r, set_world w s, [CreateContext graph (Some l)])
        | None =>
            match get_event_loop env (world s) with
            | (Returns l, w0) =>
                let '(r, w) := create_context env graph (Some l) w0 in
                (of_reply r, set_world w (set_loop_cache l s),
                 [GetEventLoop; CreateContext graph (Some l)])
            | (Raises e, w0) => (Raised e, set_world w0 s, [GetEventLoop])
            end
        end
    | _ =>
        let '(r, w) := create_context env graph None (world s) in
        (of_reply r, set_world w s, [CreateContext graph None])
    end.
Proof.
  destruct k; simpl; try reflexivity.
  unfold self_loop, read_loop_cache, write_loop_cache, bind, call, ret.
  destruct (loop_cache s) as [l |]; simpl.
  - now destruct (create_context env graph (Some l) (world s)) as [[c | e] w].
  - destruct (get_event_loop env (world s)) as [[l | e] w0]; simpl; trivial.
    now destruct (create_context env graph (Some l) w0) as [[c | e] w].
Qed.

(** The prologue once the context is built, call by call. *)
Lemma prologue_after_context k graph s c sa ta :
  create_graph_execution_context env k graph s = (Normal c, sa, ta) ->
  prologue env k graph s =
    let f := executor_factory_of k in
    let size := pool_size_of k graph in
    match ctx_write env c (world sa) with
    | (Raises e, w1) => (Raised e, set_world w1 sa, ta ++ [CtxWrite c])
    | (Returns _, w1) =>
        match executor_factory env f size w1 with
        | (Raises e, w2) =>
            (Raised e, set_futures [] (set_world w2 sa),
             ta ++ [CtxWrite c; CreateExecutor f size])
        | (Returns ex, w2) =>
            match exec_enter env ex w2 with
            | (Raises e, w3) =>
                (Raised e, set_futures [] (set_world w3 sa),
                 ta ++ [CtxWrite c; CreateExecutor f size; ExecEnter ex])
            | (Returns executor, w3) =>
                (Normal (c, ex, executor), set_futures [] (set_world w3 sa),
                 ta ++ [CtxWrite c; CreateExecutor f size; ExecEnter ex])
            end
        end
    end.
Proof.
  intros Hcreate. unfold prologue.
  rewrite (bind_normal _ _ _ _ _ _ Hcreate).
  unfold bind, call, reset_futures, ret.
  destruct (ctx_write env c (world sa)) as [[u | e] w1]; simpl; trivial.
  assert (Hpool : forall s0,
            create_executor env k graph s0 =
              call (CreateExecutor (executor_factory_of k) (pool_size_of k graph))
                   (executor_factory env (executor_factory_of k)
                      (pool_size_of k graph)) s0)
    by (intros s0; now destruct k).
  rewrite Hpool. unfold call. simpl.
  destruct (executor_factory env (executor_factory_of k) (pool_size_of k graph)
              w1) as [[ex | e] w2]; simpl; trivial.
  now destruct (exec_enter env ex w2) as [[executor | e] w3].
Qed.

Lemma prologue_without_context k graph s e sa ta :
  create_graph_execution_context env k graph s = (Raised e, sa, ta) ->
  prologue env k graph s = (Raised e, sa, ta).
Proof.
  intros Hcreate. unfold prologue. now rewrite (bind_raised _ _ _ _ _ _ Hcreate).
Qed.

Lemma create_context_finishes k graph s :
  fst (fst (create_graph_execution_context env k graph s)) <> Unfinished.
Proof.
  rewrite create_context_run. destruct k;
    try (now destruct (create_context env graph None (world s))
           as [[c | e] w]).
  destruct (loop_cache s) as [l |].
  - now destruct (create_context env graph (Some l) (world s)) as [[c | e] w].
  - destruct (get_event_loop env (world s)) as [[l | e] w0]; try discriminate.
    now destruct (create_context env graph (Some l) w0) as [[c | e] w].
Qed.

End Calls.

(** ** One pool, one context *)

Section OnePool.

Context {W node C E H L : Type} (env : @Env W node C E H L).

Implicit Types (s : @store W H L) (c : C) (ex executor : E) (e : exc)
  (k : strategy) (graph : list node) (n : node) (l : L)
  (P : @event node C E L -> Prop).

Lemma create_context_calls P k graph :
  P GetEventLoop -> (forall lo, P (CreateContext graph lo)) ->
  emits P (create_graph_execution_context env k graph).
Proof.
  intros Hloop Hcreate s. rewrite create_context_run.
  destruct k;
    try (destruct (create_context env graph None (world s)) as [[c | e] w];
         now repeat constructor).
  destruct (loop_cache s) as [l |].
  - destruct (create_context env graph (Some l) (world s)) as [[c | e] w];
      now repeat constructor.
  - destruct (get_event_loop env (world s)) as [[l | e] w0];
      [| now repeat constructor].
    destruct (create_context env graph (Some l) w0) as [[c | e] w];
      now repeat constructor.
Qed.

Lemma start_guarded_calls P k c executor :
  P GetEventLoop -> P (CtxStart c) -> (forall n, P (Offer n)) ->
  P (CtxStartEnd c) ->
  (forall e, P (Log CRITICAL Msg.start_failed (Some e))) ->
  (forall ev, is_submitting ev = true -> P ev) ->
  emits P (start_guarded env k c executor).
Proof.
  intros Hloop Hstart Hoffer Hend Hlog Hsub.
  unfold start_guarded. apply emits_try_except; [| intros e; now apply emits_log].
  intros s. unfold start_attempt, bind.
  assert (Hget : emits P (get_starter env k executor)).
  { destruct k; simpl; try apply emits_ret.
    apply emits_bind; [now apply emits_self_loop | intros l; apply emits_ret]. }
  specialize (Hget s).
  destruct (get_starter env k executor s) as [[[f | e |] s1] t1] eqn:Hrun;
    simpl in *; trivial.
  assert (Hctx : emits P (context_start env c f)).
  { apply context_start_calls; trivial. intros n.
    eapply emits_impl; [exact Hsub |].
    eapply get_starter_result_emits; exact Hrun. }
  specialize (Hctx s1).
  destruct (context_start env c f s1) as [[r s2] t2]; simpl in *.
  apply Forall_app. now split.
Qed.

(** Every trace of [execute] once the context is built: the calls that
    built it, [write], the pool request and [__enter__] as far as the
    prologue got, then the calls of the start, the loop and the end. *)
Lemma execute_after_context k graph fuel s c sa ta :
  create_graph_execution_context env k graph s = (Normal c, sa, ta) ->
  exists mid rest,
    snd (execute env k graph fuel s) = ta ++ mid ++ rest /\
    (mid = [CtxWrite c] \/
     mid = [CtxWrite c;
            CreateExecutor (executor_factory_of k) (pool_size_of k graph)] \/
     exists ex,
       mid = [CtxWrite c;
              CreateExecutor (executor_factory_of k) (pool_size_of k graph);
              ExecEnter ex]) /\
    Forall (fun ev => (is_starting ev = true \/ is_closing ev = true) /\
                      forall c', context_of ev = Some c' -> c' = c) rest.
Proof.
  intros Hcreate.
  pose proof (prologue_after_context env k graph s c sa ta Hcreate) as Hpro.
  cbv zeta in Hpro.
  destruct (ctx_write env c (world sa)) as [[u | e] w1].
  - destruct (executor_factory env (executor_factory_of k)
                (pool_size_of k graph) w1) as [[ex | e] w2].
    + destruct (exec_enter env ex w2) as [[executor | e] w3].
      * destruct (execute_parts env k graph fuel s _ _ _ _ _ Hpro)
          as (t3 & t4 & Htrace & Hloop & Hfinal).
        exists [CtxWrite c;
                CreateExecutor (executor_factory_of k) (pool_size_of k graph);
                ExecEnter ex],
               (snd (start_guarded env k c executor
                       (set_futures [] (set_world w3 sa))) ++ t3 ++ t4).
        split; [rewrite Htrace; now rewrite <- app_assoc |].
        split; [right; right; now exists ex |].
        apply Forall_app. split; [| apply Forall_app; split].
        -- apply (start_guarded_calls
                    (fun ev => (is_starting ev = true \/ is_closing ev = true) /\
                               forall c', context_of ev = Some c' -> c' = c));
             try (split; [now left | simpl; congruence]).
           intros ev Hev. split.
           ++ left. destruct ev; trivial; try discriminate;
                try now destruct lvl.
           ++ destruct ev; discriminate.
        -- destruct Hloop as [-> | (s2 & ->)]; [constructor |].
           apply tick_loop_calls; split; try (now right); simpl; congruence.
        -- eapply Forall_impl; [| exact Hfinal].
           intros ev [-> | (x & ->)]; split; try (now right); simpl; congruence.
      * exists [CtxWrite c;
                CreateExecutor (executor_factory_of k) (pool_size_of k graph);
                ExecEnter ex], [].
        rewrite execute_run, Hpro. simpl.
        split; [reflexivity |]. split; [right; right; now exists ex |].
        constructor.
    + exists [CtxWrite c;
              CreateExecutor (executor_factory_of k) (pool_size_of k graph)],
             [].
      rewrite execute_run, Hpro. simpl.
      split; [reflexivity |]. split; [now right; left | constructor].
  - exists [CtxWrite c], []. rewrite execute_run, Hpro. simpl.
    split; [reflexivity |]. split; [now left | constructor].
Qed.

(** X11. An execution of [execute] asks for at most one pool: of the
    strategy's factory, with no size for the base strategy and with
    [max_workers = len(graph)] for the others, and only right after the
    context has been built and [context.write] has returned. *)
Theorem one_pool_per_execution k graph fuel s :
  let t := snd (execute env k graph fuel s) in
  count is_pool_request t <= 1 /\
  forall pre f size post,
    t = pre ++ CreateExecutor f size :: post ->
    f = executor_factory_of k /\ size = pool_size_of k graph /\
    exists pre' c, pre = pre' ++ [CtxWrite c].
Proof.
  intros t.
  pose proof (create_context_calls
                (fun ev => is_pool_request ev = false) k graph
                eq_refl (fun _ => eq_refl) s) as Hctx.
  destruct (create_graph_execution_context env k graph s)
    as [[[c | e |] sa] ta] eqn:Hcreate; simpl in Hctx.
  - destruct (execute_after_context k graph fuel s c sa ta Hcreate)
      as (mid & rest & Htrace & Hmid & Hrest).
    assert (Hquiet : Forall (fun ev => is_pool_request ev = false) rest).
    { eapply Forall_impl; [| exact Hrest].
      intros ev ([Hev | Hev] & _); destruct ev; trivial; discriminate. }
    unfold t. rewrite Htrace. split.
    + rewrite !count_app, (count_none _ _ Hctx), (count_none _ _ Hquiet).
      destruct Hmid as [-> | [-> | (ex & ->)]]; unfold count; simpl; lia.
    + intros pre f size post Heq.
      apply (split_after is_pool_request) in Heq as (pre1 & -> & Heq);
        trivial.
      apply (split_before is_pool_request) in Heq as (post' & -> & Heq);
        trivial.
      destruct Hmid as [-> | [-> | (ex & ->)]];
        destruct pre1 as [| a [| b [| d pre1]]]; simpl in Heq;
        inversion Heq; subst;
        try (repeat split; now exists ta, c);
        now destruct pre1.
  - unfold t. rewrite execute_run,
      (prologue_without_context env k graph s e sa ta Hcreate). simpl.
    split; [rewrite (count_none _ _ Hctx); lia |].
    intros pre f size post Heq.
    now apply (not_in_trace is_pool_request) in Heq.
  - now destruct (create_context_finishes env k graph s); rewrite Hcreate.
Qed.

(** X12. [execute] works on the context it built and on no other: every
    call on a context in the trace ([write], [start], [alive], [tick],
    [kill], [stop]) is a call on that context, and the context [execute]
    returns is that one. *)
Theorem execute_works_on_the_context_it_built k graph fuel s c sa ta :
  create_graph_execution_context env k graph s = (Normal c, sa, ta) ->
  Forall (fun ev => forall c', context_of ev = Some c' -> c' = c)
         (snd (execute env k graph fuel s)) /\
  forall c', fst (fst (execute env k graph fuel s)) = Normal c' -> c' = c.
Proof.
  intros Hcreate. split.
  - destruct (execute_after_context k graph fuel s c sa ta Hcreate)
      as (mid & rest & -> & Hmid & Hrest).
    apply Forall_app. split; [| apply Forall_app; split].
    + pose proof (create_context_calls
                    (fun ev => forall c', context_of ev = Some c' -> c' = c)
                    k graph ltac:(discriminate) ltac:(discriminate) s) as Hctx.
      now rewrite Hcreate in Hctx.
    + destruct Hmid as [-> | [-> | (ex & ->)]]; repeat constructor;
        simpl; congruence.
    + eapply Forall_impl; [| exact Hrest]. now intros ev (_ & Hev).
  - intros c'. rewrite execute_run.
    pose proof (prologue_after_context env k graph s c sa ta Hcreate) as Hpro.
    cbv zeta in Hpro. rewrite Hpro.
    destruct (ctx_write env c (world sa)) as [[u | e] w1]; try discriminate.
    destruct (executor_factory env (executor_factory_of k)
                (pool_size_of k graph) w1) as [[ex | e] w2]; try discriminate.
    destruct (exec_enter env ex w2) as [[executor | e] w3]; try discriminate.
    destruct (within (executor_exit env ex) (supervise env k fuel c executor) _)
      as [[[[] | e |] s2] t2]; simpl; congruence.
Qed.

End OnePool.

(** ** The event loop *)

Section OneLoop.

Context {W node C E H L : Type} (env : @Env W node C E H L).

Implicit Types (s : @store W H L) (c : C) (ex executor : E) (e : exc)
  (k : strategy) (graph : list node) (n : node) (l : L)
  (P : @event node C E L -> Prop).

(** The calls of a guarded start that begins with the loop at hand. *)
Lemma start_guarded_ready_calls P k c executor s :
  (k = AsyncThreadPoolExecutorStrategy -> loop_cache s <> None) ->
  P (CtxStart c) -> (forall n, P (Offer n)) -> P (CtxStartEnd c) ->
  (forall e, P (Log CRITICAL Msg.start_failed (Some e))) ->
  (k <> AsyncThreadPoolExecutorStrategy ->
   forall n, P (Submit executor (RunnerTask n))) ->
  (k <> AsyncThreadPoolExecutorStrategy ->
   forall e, P (Log CRITICAL Msg.submit_failed (Some e))) ->
  (forall l, k = AsyncThreadPoolExecutorStrategy -> loop_cache s = Some l ->
             P (LoopCheckClosed l) /\
             forall n, P (Submit executor (StarterTask executor n))) ->
  Forall P (snd (start_guarded env k c executor s)).
Proof.
  intros Hcache Hstart Hoffer Hend Hlog Hbase Hfail Hbridge.
  destruct (get_starter_cases env k executor s Hcache)
    as [(Hk & Hget) | (Hk & l & Hl & Hget)];
    apply (start_guarded_with env P k c executor s _ Hget); trivial;
    apply context_start_calls; trivial; intros n.
  - apply starter_calls; [now apply Hbase | now apply Hfail].
  - destruct (Hbridge l Hk Hl) as (Hopen & Hsub).
    now apply bridged_starter_calls.
Qed.

(** What building the context leaves behind: the loop it named is the one
    cached, and it looked a loop up only if it had to. *)
Lemma create_context_loop k graph s :
  let run := create_graph_execution_context env k graph s in
  Forall (fun ev => is_setup ev = true /\
                    forall l, loop_of ev = Some l ->
                              loop_cache (snd (fst run)) = Some l)
         (snd run) /\
  count is_loop_lookup (snd run) <= 1 /\
  (loop_cache s <> None -> count is_loop_lookup (snd run) = 0) /\
  (k <> AsyncThreadPoolExecutorStrategy ->
   Forall (fun ev => loop_of ev = None /\ is_loop_lookup ev = false)
          (snd run)) /\
  (k = AsyncThreadPoolExecutorStrategy ->
   forall c, fst (fst run) = Normal c -> loop_cache (snd (fst run)) <> None).
Proof.
  cbv zeta. rewrite create_context_run.
  destruct k;
    try (destruct (create_context env graph None (world s)) as [[c | e] w];
         simpl; repeat split; repeat constructor; trivial;
         try discriminate; try congruence; unfold count; simpl; lia).
  destruct (loop_cache s) as [l |] eqn:Hl.
  - destruct (create_context env graph (Some l) (world s)) as [[c | e] w];
      simpl; repeat split; repeat constructor; trivial; try congruence;
      try (unfold count; simpl; lia); simpl; congruence.
  - destruct (get_event_loop env (world s)) as [[l | e] w0].
    + destruct (create_context env graph (Some l) w0) as [[c | e] w];
        simpl; repeat split; repeat constructor; trivial; try congruence;
        try discriminate; try (unfold count; simpl; lia);
        simpl; congruence.
    + simpl. repeat split; repeat constructor; trivial; try congruence;
        try discriminate; unfold count; simpl; lia.
Qed.

(** A property of calls that holds of every call [execute] can make once
    the context is built holds of everything after that; what the guarded
    start calls is judged from the loop cached when the context was
    built. *)
Lemma execute_calls P k graph fuel s :
  (forall c, P (CtxWrite c)) ->
  (forall f size, P (CreateExecutor f size)) ->
  (forall ex, P (ExecEnter ex)) ->
  (forall c sa ta executor s1,
     create_graph_execution_context env k graph s = (Normal c, sa, ta) ->
     loop_cache s1 = loop_cache sa ->
     Forall P (snd (start_guarded env k c executor s1))) ->
  (forall c, P (CtxAlive c) /\ P (CtxTick c) /\ P (CtxKill c) /\
             P (CtxStop c)) ->
  P (Log WARNING Msg.interrupted None) ->
  (forall ex x, P (ExecExit ex x)) ->
  exists rest,
    snd (execute env k graph fuel s) =
      snd (create_graph_execution_context env k graph s) ++ rest /\
    Forall P rest.
Proof.
  intros Hwrite Hpool Henter Hstart Hloop Hwarn Hexit.
  destruct (create_graph_execution_context env k graph s)
    as [[[c | e |] sa] ta] eqn:Hcreate; simpl.
  - pose proof (prologue_after_context env k graph s c sa ta Hcreate) as Hpro.
    cbv zeta in Hpro.
    destruct (ctx_write env c (world sa)) as [[u | e] w1].
    + destruct (executor_factory env (executor_factory_of k)
                  (pool_size_of k graph) w1) as [[ex | e] w2].
      * destruct (exec_enter env ex w2) as [[executor | e] w3].
        -- destruct (execute_parts env k graph fuel s _ _ _ _ _ Hpro)
             as (t3 & t4 & Ht & Hparts & Hfinal).
           eexists. split; [rewrite Ht, <- app_assoc; reflexivity |].
           repeat (apply Forall_app; split).
           ++ now repeat constructor.
           ++ eapply Hstart; [reflexivity | reflexivity].
           ++ destruct Hparts as [-> | (s2 & ->)]; [constructor |].
              apply tick_loop_calls; trivial; apply Hloop.
           ++ eapply Forall_impl; [| exact Hfinal].
              intros ev [-> | (x & ->)]; [apply Hloop | apply Hexit].
        -- rewrite execute_run, Hpro. simpl. eexists.
           split; [reflexivity | now repeat constructor].
      * rewrite execute_run, Hpro. simpl. eexists.
        split; [reflexivity | now repeat constructor].
    + rewrite execute_run, Hpro. simpl. eexists.
      split; [reflexivity | now repeat constructor].
  - rewrite execute_run,
      (prologue_without_context env k graph s e sa ta Hcreate). simpl.
    exists []. now rewrite app_nil_r.
  - now destruct (create_context_finishes env k graph s); rewrite Hcreate.
Qed.

(** A cached loop stays cached while the context is built. *)
Lemma create_context_keeps_cache k graph s l :
  loop_cache s = Some l ->
  loop_cache (snd (fst (create_graph_execution_context env k graph s))) =
    Some l.
Proof.
  intros Hl. rewrite create_context_run.
  destruct k;
    try (now destruct (create_context env graph None (world s))
           as [[c | e] w]).
  rewrite Hl.
  now destruct (create_context env graph (Some l) (world s)) as [[c | e] w].
Qed.

(** X13. The [loop] property is cached: an execution of [execute] looks the
    event loop up at most once, and not at all when the loop is already
    cached.  Under the strategies other than the event-loop one, [execute]
    neither looks a loop up nor goes through [run_in_executor]. *)
Theorem loop_is_looked_up_at_most_once k graph fuel s :
  let t := snd (execute env k graph fuel s) in
  count is_loop_lookup t <= 1 /\
  (loop_cache s <> None -> count is_loop_lookup t = 0) /\
  (k <> AsyncThreadPoolExecutorStrategy ->
   count is_loop_lookup t = 0 /\ count is_bridge t = 0).
Proof.
  pose proof (create_context_loop k graph s) as Hc. cbv zeta in *.
  destruct (execute_calls
              (fun ev => is_loop_lookup ev = false /\
                         (k <> AsyncThreadPoolExecutorStrategy ->
                          is_bridge ev = false))
              k graph fuel s) as (rest & -> & Hrest);
    try (intros; repeat split; reflexivity).
  - intros c sa ta executor s1 Hcreate Hcache.
    rewrite Hcreate in Hc. simpl in Hc.
    destruct Hc as (_ & _ & _ & _ & Hasync).
    apply start_guarded_ready_calls;
      try (intros; repeat split; reflexivity).
    + intros Hk. rewrite Hcache. now apply (Hasync Hk c).
    + intros l Hk _. repeat split; trivial. intros Hne. contradiction.
  - destruct Hc as (Hnames & Hone & Hcached & Hbase & _).
    assert (Hquiet : count is_loop_lookup rest = 0).
    { apply count_none. eapply Forall_impl; [| exact Hrest]. now intros ev []. }
    rewrite !count_app, Hquiet.
    split; [lia |]. split; [intros Hl; rewrite (Hcached Hl); lia |].
    intros Hk. split.
    + specialize (Hbase Hk). rewrite (count_none is_loop_lookup); [lia |].
      eapply Forall_impl; [| exact Hbase]. now intros ev [].
    + rewrite (count_none_of is_bridge is_setup); [| now intros [] | ].
      * apply count_none. eapply Forall_impl; [| exact Hrest].
        intros ev [_ Hev]. now apply Hev.
      * eapply Forall_impl; [| exact Hnames]. now intros ev [].
Qed.

(** X14. The context and the starter share one loop.  Every call of an
    execution that names an event loop (the constructor of the context,
    [run_in_executor] in the starter) is made under the event-loop
    strategy and names the loop cached when the context was built, which
    is the loop cached beforehand if there was one; so any two of them
    name the same loop. *)
Theorem context_and_starter_share_the_loop k graph fuel s :
  let t := snd (execute env k graph fuel s) in
  let sa := snd (fst (create_graph_execution_context env k graph s)) in
  (forall ev l,
     In ev t -> loop_of ev = Some l ->
     k = AsyncThreadPoolExecutorStrategy /\ loop_cache sa = Some l /\
     forall l0, loop_cache s = Some l0 -> l0 = l) /\
  (forall ev1 ev2 l1 l2,
     In ev1 t -> In ev2 t -> loop_of ev1 = Some l1 -> loop_of ev2 = Some l2 ->
     l1 = l2).
Proof.
  cbv zeta.
  assert (Hall : Forall (fun ev => forall l, loop_of ev = Some l ->
                   k = AsyncThreadPoolExecutorStrategy /\
                   loop_cache
                     (snd (fst (create_graph_execution_context env k graph s)))
                     = Some l)
                 (snd (execute env k graph fuel s))).
  { pose proof (create_context_loop k graph s) as Hc. cbv zeta in Hc.
    destruct (execute_calls
                (fun ev => forall l, loop_of ev = Some l ->
                   k = AsyncThreadPoolExecutorStrategy /\
                   loop_cache
                     (snd (fst (create_graph_execution_context env k graph s)))
                     = Some l)
                k graph fuel s) as (rest & -> & Hrest);
      try (intros; repeat split; intros; discriminate).
    - intros c sa ta executor s1 Hcreate Hcache.
      rewrite Hcreate in Hc |- *. simpl in Hc |- *.
      destruct Hc as (_ & _ & _ & _ & Hasync).
      apply start_guarded_ready_calls;
        try (intros; repeat split; intros; discriminate).
      + intros Hk. rewrite Hcache. now apply (Hasync Hk c).
      + intros l Hk Hl. split; [| intros; discriminate].
        intros l' [= <-]. split; [exact Hk | congruence].
    - apply Forall_app. split; [| exact Hrest].
      destruct Hc as (Hnames & _ & _ & Hbase & _).
      destruct k;
        try (eapply Forall_impl; [| exact (Hbase ltac:(discriminate))];
             intros ev [Hnone _] l Hl; congruence).
      eapply Forall_impl; [| exact Hnames].
      intros ev [_ Hev] l Hl. split; [reflexivity | now apply Hev]. }
  rewrite Forall_forall in Hall.
  assert (Hone : forall ev l,
            In ev (snd (execute env k graph fuel s)) -> loop_of ev = Some l ->
            k = AsyncThreadPoolExecutorStrategy /\
            loop_cache
              (snd (fst (create_graph_execution_context env k graph s)))
              = Some l).
  { intros ev l Hin Hl. exact (Hall ev Hin l Hl). }
  split.
  - intros ev l Hin Hl. destruct (Hone ev l Hin Hl) as (Hk & Hcache).
    repeat split; trivial. intros l0 Hl0.
    rewrite (create_context_keeps_cache k graph s l0 Hl0) in Hcache.
    congruence.
  - intros ev1 ev2 l1 l2 Hin1 Hin2 Hl1 Hl2.
    destruct (Hone ev1 l1 Hin1 Hl1) as (_ & H1).
    destruct (Hone ev2 l2 Hin2 Hl2) as (_ & H2). congruence.
Qed.

End OneLoop.

(** ** What reaches the pool *)

Section Submissions.

Context {W node C E H L : Type} (env : @Env W node C E H L).

Implicit Types (s : @store W H L) (c : C) (ex executor : E) (e : exc)
  (k : strategy) (graph : list node) (n : node)
  (t : list (@event node C E L)).

Lemma submitted_app t1 t2 :
  submitted (t1 ++ t2) = submitted t1 ++ submitted t2.
Proof.
  induction t1 as [| ev t1 IH]; simpl; [reflexivity |].
  destruct ev; simpl; now rewrite IH.
Qed.

Lemma nothing_offered_or_submitted t :
  Forall (fun ev => is_offer ev = false /\ is_submit ev = false) t ->
  offers t = [] /\ submitted t = [].
Proof.
  induction 1 as [| ev t [Hoffer Hsubmit] _ [IHo IHs]]; simpl; [now split |].
  destruct ev; try discriminate; now split.
Qed.

(** The base starter turns every offer into one submission of the runner
    of that node, and the nodes are offered in the order of the context,
    up to the one at which the start was abandoned. *)
Lemma starter_offers executor (ns : list node) : forall s,
  let t := snd (offer_all ns (starter env executor) s) in
  submitted t = map (@RunnerTask node E) (offers t) /\
  exists rest, ns = offers t ++ rest.
Proof.
  induction ns as [| n ns IH]; intros s; cbv zeta.
  - simpl. split; [reflexivity | now exists []].
  - rewrite offer_all_cons, starter_run.
    destruct (submit env executor (RunnerTask n) (world s)) as [[h | e] w1].
    + specialize (IH (set_futures (futures s ++ [h]) (set_world w1 s))).
      cbv zeta in IH. destruct IH as (Hsub & rest & Hrest).
      destruct (offer_all ns (starter env executor) _) as [[r s2] t2].
      simpl in *. rewrite Hsub. split; [reflexivity |].
      exists rest. now rewrite Hrest at 1.
    + destruct (isinstance e Exception).
      * specialize (IH (set_world w1 s)).
        cbv zeta in IH. destruct IH as (Hsub & rest & Hrest).
        destruct (offer_all ns (starter env executor) _) as [[r s2] t2].
        simpl in *. rewrite Hsub. split; [reflexivity |].
        exists rest. now rewrite Hrest at 1.
      * simpl. split; [reflexivity | now exists ns].
Qed.

Lemma base_start_offers k c executor s :
  k <> AsyncThreadPoolExecutorStrategy ->
  let t := snd (start_guarded env k c executor s) in
  submitted t = map (@RunnerTask node E) (offers t) /\
  exists rest, ctx_nodes env c = offers t ++ rest.
Proof.
  intros Hk.
  destruct (get_starter_cases env k executor s) as [(_ & Hget) | (Hk' & _)];
    [intros Hk'; contradiction | | contradiction].
  cbv zeta. remember (start_guarded env k c executor s) as run eqn:Hrun.
  rewrite start_guarded_run in Hrun. unfold start_attempt in Hrun.
  unfold bind at 1 in Hrun. rewrite Hget, context_start_run in Hrun.
  destruct (ctx_start_begin env c (world s)) as [[u | e] w1].
  - pose proof (starter_offers executor (ctx_nodes env c) (set_world w1 s))
      as Hoffers. cbv zeta in Hoffers.
    destruct Hoffers as (Hsub & rest & Hrest).
    destruct (offer_all (ctx_nodes env c) (starter env executor) _)
      as [[[[] | e |] s2] t2]; simpl in Hsub, Hrest.
    + destruct (ctx_start_end env c (world s2)) as [[u' | e] w3];
        simpl in Hrun; try destruct (isinstance e Exception); subst run;
        simpl; rewrite ?app_nil_r, ?submitted_app, ?offers_app; simpl;
        rewrite ?app_nil_r, ?submitted_app, ?offers_app; simpl;
        rewrite ?app_nil_r; (split; [exact Hsub | now exists rest]).
    + simpl in Hrun. destruct (isinstance e Exception); subst run; simpl;
        rewrite ?app_nil_r, ?submitted_app, ?offers_app; simpl;
        rewrite ?app_nil_r; (split; [exact Hsub | now exists rest]).
    + subst run. simpl. split; [exact Hsub | now exists rest].
  - simpl in Hrun. destruct (isinstance e Exception); subst run; simpl;
      (split; [reflexivity | now exists (ctx_nodes env c)]).
Qed.

(** X15. Under the strategies that keep the base starter, what [execute]
    submits is, in order, one [_runner] per node that the context handed
    to the starter: nothing is submitted before or after the start, every
    submission goes to the executor that the [with] statement bound, and
    the nodes handed over are the nodes of the context up to the one at
    which the start was abandoned, if it was.  (That the context hands
    its nodes over one by one is the model of [context.start].) *)
Theorem runners_follow_the_offers k graph fuel s c ex executor s1 t1 :
  k <> AsyncThreadPoolExecutorStrategy ->
  prologue env k graph s = (Normal (c, ex, executor), s1, t1) ->
  let t := snd (execute env k graph fuel s) in
  submitted t = map (@RunnerTask node E) (offers t) /\
  (exists rest, ctx_nodes env c = offers t ++ rest) /\
  (forall pool tk, In (Submit pool tk) t -> pool = executor) /\
  offers t = offers (snd (start_guarded env k c executor s1)).
Proof.
  intros Hk Hpro. cbv zeta.
  destruct (execute_parts env k graph fuel s _ _ _ _ _ Hpro)
    as (t3 & t4 & Ht & Hparts & Hfinal).
  assert (H1 : Forall (fun ev : @event node C E L =>
                         is_offer ev = false /\ is_submit ev = false) t1).
  { pose proof (prologue_emits env k graph s) as Hall.
    rewrite Hpro in Hall. simpl in Hall.
    eapply Forall_impl; [| exact Hall]. now intros []. }
  assert (H3 : Forall (fun ev : @event node C E L =>
                         is_offer ev = false /\ is_submit ev = false) t3).
  { destruct Hparts as [-> | (s2 & ->)]; [constructor |].
    now apply tick_loop_calls. }
  assert (H4 : Forall (fun ev : @event node C E L =>
                         is_offer ev = false /\ is_submit ev = false) t4).
  { eapply Forall_impl; [| exact Hfinal]. now intros ev [-> | (x & ->)]. }
  destruct (nothing_offered_or_submitted _ H1) as (Ho1 & Hs1).
  destruct (nothing_offered_or_submitted _ H3) as (Ho3 & Hs3).
  destruct (nothing_offered_or_submitted _ H4) as (Ho4 & Hs4).
  destruct (base_start_offers k c executor s1 Hk) as (Hsub & rest & Hrest).
  assert (Hoffers : offers (snd (execute env k graph fuel s)) =
                    offers (snd (start_guarded env k c executor s1))).
  { rewrite Ht, !offers_app, Ho1, Ho3, Ho4. simpl. now rewrite app_nil_r. }
  repeat split.
  - rewrite Hoffers, Ht, !submitted_app, Hs1, Hs3, Hs4. simpl.
    now rewrite app_nil_r.
  - exists rest. now rewrite Hoffers.
  - intros pool tk Hin. rewrite Ht in Hin.
    assert (H2 : Forall (fun ev : @event node C E L =>
                           forall pool tk0,
                             ev = Submit pool tk0 -> pool = executor)
                   (snd (start_guarded env k c executor s1))).
    { apply start_guarded_ready_calls;
        try (intros; discriminate); try (intros; contradiction).
      intros _ n pool' tk0 [= <- _]. reflexivity. }
    rewrite Forall_forall in H1, H2, H3, H4.
    apply in_app_or in Hin as [Hin | Hin];
      [now destruct (H1 _ Hin) |].
    apply in_app_or in Hin as [Hin | Hin];
      [exact (H2 _ Hin pool tk eq_refl) |].
    apply in_app_or in Hin as [Hin | Hin];
      [now destruct (H3 _ Hin) | now destruct (H4 _ Hin)].
  - exact Hoffers.
Qed.

End Submissions.

(** ** The event-loop starter and its pool *)

Section Bridge.

Context {W node C E H L : Type} (env : @Env W node C E H L).

Implicit Types (s : @store W H L) (c : C) (ex executor : E) (e : exc)
  (k : strategy) (graph : list node) (n : node) (l : L)
  (t : list (@event node C E L)).

(** The pool of a prologue that got through: the answer of the strategy's
    factory to the size of the graph, and what its [__enter__] returned. *)
Lemma prologue_pool k graph s c ex executor s1 t1 :
  prologue env k graph s = (Normal (c, ex, executor), s1, t1) ->
  exists w0 w1,
    executor_factory env (executor_factory_of k) (pool_size_of k graph) w0 =
      (Returns ex, w1) /\
    exec_enter env ex w1 = (Returns executor, world s1).
Proof.
  destruct (create_graph_execution_context env k graph s)
    as [[[c0 | e |] sa] ta] eqn:Hcreate.
  - rewrite (prologue_after_context env k graph s c0 sa ta Hcreate).
    cbv zeta.
    destruct (ctx_write env c0 (world sa)) as [[u | e] wa]; try discriminate.
    destruct (executor_factory env (executor_factory_of k)
                (pool_size_of k graph) wa) as [[ex0 | e] wb] eqn:Hpool;
      try discriminate.
    destruct (exec_enter env ex0 wb) as [[executor0 | e] wc] eqn:Henter;
      try discriminate.
    intros [= <- <- <- <- _]. exists wa, wb. now split.
  - now rewrite (prologue_without_context env k graph s e sa ta Hcreate).
  - now destruct (create_context_finishes env k graph s); rewrite Hcreate.
Qed.

(** What the event-loop starter submits while the context offers nodes:
    one callable per node offered, in order, but for the last node when
    the loop refused it. *)
Lemma bridged_submissions l executor (ns : list node) : forall s,
  let t := snd (offer_all ns (bridged_starter env l executor) s) in
  (submitted t = map (@StarterTask node E executor) (offers t) \/
   exists ms n,
     offers t = ms ++ [n] /\
     submitted t = map (@StarterTask node E executor) ms) /\
  exists rest, ns = offers t ++ rest.
Proof.
  induction ns as [| n ns IH]; intros s; cbv zeta.
  - simpl. split; [now left | now exists []].
  - rewrite offer_all_cons, bridged_starter_run.
    destruct (loop_check_closed env l (world s)) as [[u | e] w1].
    + destruct (submit env executor (StarterTask executor n) w1)
        as [[h | e] w2]; cbv beta iota zeta.
      * specialize (IH (set_world w2 s)). cbv zeta in IH.
        destruct IH as (Hsub & rest & Hrest).
        destruct (offer_all ns (bridged_starter env l executor) _)
          as [[r s2] t2].
        simpl in *. split.
        -- destruct Hsub as [Hsub | (ms & m & Hoff & Hsub)].
           ++ left. now rewrite Hsub.
           ++ right. exists (n :: ms), m. rewrite Hoff, Hsub. now split.
        -- exists rest. now rewrite Hrest at 1.
      * simpl. split; [now left | now exists ns].
    + simpl. split; [| now exists ns].
      right. exists [], n. now split.
Qed.

(** The guarded start of the event-loop strategy, the loop being cached. *)
Lemma bridged_start_offers c executor s l :
  loop_cache s = Some l ->
  let t := snd (start_guarded env AsyncThreadPoolExecutorStrategy c executor s)
  in
  (submitted t = map (@StarterTask node E executor) (offers t) \/
   exists ms n,
     offers t = ms ++ [n] /\
     submitted t = map (@StarterTask node E executor) ms) /\
  exists rest, ctx_nodes env c = offers t ++ rest.
Proof.
  intros Hl.
  destruct (get_starter_cases env AsyncThreadPoolExecutorStrategy executor s)
    as [(Hk & _) | (_ & l' & Hl' & Hget)];
    [intros _; congruence | congruence |].
  assert (l' = l) as -> by congruence.
  cbv zeta.
  remember (start_guarded env AsyncThreadPoolExecutorStrategy c executor s)
    as run eqn:Hrun.
  rewrite start_guarded_run in Hrun. unfold start_attempt in Hrun.
  unfold bind at 1 in Hrun. rewrite Hget, context_start_run in Hrun.
  destruct (ctx_start_begin env c (world s)) as [[u | e] w1].
  - pose proof (bridged_submissions l executor (ctx_nodes env c)
                  (set_world w1 s)) as Hoffers.
    cbv zeta in Hoffers. destruct Hoffers as (Hsub & rest & Hrest).
    destruct (offer_all (ctx_nodes env c) (bridged_starter env l executor) _)
      as [[[[] | e |] s2] t2]; simpl in Hsub, Hrest.
    + destruct (ctx_start_end env c (world s2)) as [[u' | e] w3];
        simpl in Hrun; try destruct (isinstance e Exception); subst run;
        simpl; rewrite ?app_nil_r, ?submitted_app, ?offers_app; simpl;
        rewrite ?app_nil_r, ?submitted_app, ?offers_app; simpl;
        rewrite ?app_nil_r; (split; [exact Hsub | now exists rest]).
    + simpl in Hrun. destruct (isinstance e Exception); subst run; simpl;
        rewrite ?app_nil_r, ?submitted_app, ?offers_app; simpl;
        rewrite ?app_nil_r; (split; [exact Hsub | now exists rest]).
    + subst run. simpl. split; [exact Hsub | now exists rest].
  - simpl in Hrun. destruct (isinstance e Exception); subst run; simpl;
      (split; [now left | now exists (ctx_nodes env c)]).
Qed.

(** C10, as the code has it.  The pool of the event-loop strategy is the
    answer of the thread-pool factory to [max_workers = len(graph)].  Its
    starter is the partial application of [loop.run_in_executor] to the
    executor and to the thread-pool starter, the loop being the one the
    [loop] property has cached or else gets from asyncio.  Invoked for a
    node it first asks whether the loop is closed and then submits the
    thread-pool starter applied to that node to the executor: it returns
    the asyncio future that wraps the executor's, never [None], exactly
    when the loop is open and the pool takes the callable; on a closed
    loop it raises without submitting, and when the pool refuses the
    callable it raises what [submit] raised.  A worker that runs the
    submitted callable runs the thread-pool starter, which submits the
    node's runner to the same executor.  In an execution of [execute] the
    executor is what [__enter__] of that pool returned, the starter handed
    to [context.start] is this one, every submission of the execution is
    such a callable on that executor, and they are made in the order of
    the nodes offered, one per node but for a node refused by the
    loop. *)
Theorem async_starter_runs_on_the_pool graph s :
  create_executor env AsyncThreadPoolExecutorStrategy graph s =
    call (CreateExecutor ThreadPoolExecutor (Some (List.length graph)))
         (executor_factory env ThreadPoolExecutor (Some (List.length graph)))
         s /\
  (forall executor s' l,
     loop_cache s' = Some l ->
     get_starter env AsyncThreadPoolExecutorStrategy executor s' =
       (Normal
          (fun n => run_in_executor env l executor (StarterTask executor n)),
        s', [])) /\
  (forall executor s' l w1,
     loop_cache s' = None ->
     get_event_loop env (world s') = (Returns l, w1) ->
     get_starter env AsyncThreadPoolExecutorStrategy executor s' =
       (Normal
          (fun n => run_in_executor env l executor (StarterTask executor n)),
        set_loop_cache l (set_world w1 s'), [GetEventLoop])) /\
  (forall l executor n s',
     run_in_executor env l executor (StarterTask executor n) s' =
       match loop_check_closed env l (world s') with
       | (Raises e, w1) => (Raised e, set_world w1 s', [LoopCheckClosed l])
       | (Returns _, w1) =>
           match submit env executor (StarterTask executor n) w1 with
           | (Returns h, w2) =>
               (Normal (AsyncFuture l h), set_world w2 s',
                [LoopCheckClosed l; Submit executor (StarterTask executor n)])
           | (Raises e, w2) =>
               (Raised e, set_world w2 s',
                [LoopCheckClosed l; Submit executor (StarterTask executor n)])
           end
       end) /\
  (forall l executor n s' v,
     fst (fst (run_in_executor env l executor (StarterTask executor n) s')) =
       Normal v ->
     v <> PyNone /\
     exists u w1 h w2,
       loop_check_closed env l (world s') = (Returns u, w1) /\
       submit env executor (StarterTask executor n) w1 = (Returns h, w2) /\
       v = AsyncFuture l h) /\
  (forall executor n s',
     get_starter env ThreadPoolExecutorStrategy executor s' =
       (Normal (starter env executor), s', []) /\
     run_task env (StarterTask executor n) s' = starter env executor n s' /\
     run_task env (StarterTask executor n) s' =
       match submit env executor (RunnerTask n) (world s') with
       | (Returns h, w1) =>
           (Normal PyNone, set_futures (futures s' ++ [h]) (set_world w1 s'),
            [Submit executor (RunnerTask n)])
       | (Raises e, w1) =>
           if isinstance e Exception
           then (Normal PyNone, set_world w1 s',
                 [Submit executor (RunnerTask n);
                  Log CRITICAL Msg.submit_failed (Some e)])
           else (Raised e, set_world w1 s', [Submit executor (RunnerTask n)])
       end) /\
  (forall fuel c ex executor s1 t1,
     prologue env AsyncThreadPoolExecutorStrategy graph s =
       (Normal (c, ex, executor), s1, t1) ->
     let t := snd (execute env AsyncThreadPoolExecutorStrategy graph fuel s) in
     (exists w0 w1,
        executor_factory env ThreadPoolExecutor (Some (List.length graph)) w0 =
          (Returns ex, w1) /\
        exec_enter env ex w1 = (Returns executor, world s1)) /\
     (exists l,
        loop_cache s1 = Some l /\
        start_attempt env AsyncThreadPoolExecutorStrategy c executor s1 =
          context_start env c
            (fun n => run_in_executor env l executor (StarterTask executor n))
            s1) /\
     (forall pool tk,
        In (Submit pool tk) t ->
        pool = executor /\ exists n, tk = StarterTask executor n) /\
     (submitted t = map (@StarterTask node E executor) (offers t) \/
      exists ms n,
        offers t = ms ++ [n] /\
        submitted t = map (@StarterTask node E executor) ms) /\
     exists rest, ctx_nodes env c = offers t ++ rest).
Proof.
  split; [reflexivity |].
  split; [| split; [| split; [| split; [| split]]]].
  - intros executor s' l Hcache. simpl.
    unfold self_loop, read_loop_cache, bind, ret. now rewrite Hcache.
  - intros executor s' l w1 Hcache Hloop. simpl.
    unfold self_loop, read_loop_cache, write_loop_cache, bind, call, ret.
    now rewrite Hcache, Hloop.
  - intros l executor n s'. apply (bridged_starter_run env).
  - intros l executor n s' v.
    change (run_in_executor env l executor (StarterTask executor n) s')
      with (bridged_starter env l executor n s').
    rewrite bridged_starter_run.
    destruct (loop_check_closed env l (world s')) as [[u | e] w1] eqn:Hopen;
      [| discriminate].
    destruct (submit env executor (StarterTask executor n) w1)
      as [[h | e] w2] eqn:Hsubmit; [| discriminate].
    intros [= <-]. split; [discriminate |]. now exists u, w1, h, w2.
  - intros executor n s'. split; [reflexivity |]. split; [reflexivity |].
    apply (starter_run env).
  - intros fuel c ex executor s1 t1 Hpro. cbv zeta.
    pose proof (prologue_caches_loop env graph s c ex executor s1 t1 Hpro)
      as Hcache.
    destruct (loop_cache s1) as [l |] eqn:Hl; [clear Hcache | congruence].
    split; [exact (prologue_pool _ _ _ _ _ _ _ _ Hpro) |].
    split.
    { exists l. split; [reflexivity |].
      unfold start_attempt, bind. simpl get_starter.
      unfold self_loop, read_loop_cache, bind, ret. rewrite Hl.
      now destruct (context_start env c _ s1) as [[r s2] t2]. }
    destruct (execute_parts env _ graph fuel s _ _ _ _ _ Hpro)
      as (t3 & t4 & Ht & Hparts & Hfinal).
    assert (H1 : Forall (fun ev : @event node C E L =>
                           is_offer ev = false /\ is_submit ev = false) t1).
    { pose proof (prologue_emits env AsyncThreadPoolExecutorStrategy graph s)
        as Hall.
      rewrite Hpro in Hall. simpl in Hall.
      eapply Forall_impl; [| exact Hall]. now intros []. }
    assert (H3 : Forall (fun ev : @event node C E L =>
                           is_offer ev = false /\ is_submit ev = false) t3).
    { destruct Hparts as [-> | (s2 & ->)]; [constructor |].
      now apply tick_loop_calls. }
    assert (H4 : Forall (fun ev : @event node C E L =>
                           is_offer ev = false /\ is_submit ev = false) t4).
    { eapply Forall_impl; [| exact Hfinal]. now intros ev [-> | (x & ->)]. }
    destruct (nothing_offered_or_submitted _ H1) as (Ho1 & Hs1).
    destruct (nothing_offered_or_submitted _ H3) as (Ho3 & Hs3).
    destruct (nothing_offered_or_submitted _ H4) as (Ho4 & Hs4).
    destruct (bridged_start_offers c executor s1 l Hl) as (Hsub & rest & Hrest).
    assert (Hoffers :
              offers (snd (execute env AsyncThreadPoolExecutorStrategy graph
                             fuel s)) =
              offers (snd (start_guarded env AsyncThreadPoolExecutorStrategy
                             c executor s1))).
    { rewrite Ht, !offers_app, Ho1, Ho3, Ho4. simpl. now rewrite app_nil_r. }
    assert (Hsubmitted :
              submitted (snd (execute env AsyncThreadPoolExecutorStrategy graph
                                fuel s)) =
              submitted (snd (start_guarded env AsyncThreadPoolExecutorStrategy
                                c executor s1))).
    { rewrite Ht, !submitted_app, Hs1, Hs3, Hs4. simpl.
      now rewrite app_nil_r. }
    split; [| split].
    + intros pool tk Hin. rewrite Ht in Hin.
      assert (H2 : Forall (fun ev : @event node C E L =>
                             forall pool' tk',
                               ev = Submit pool' tk' ->
                               pool' = executor /\
                               exists n, tk' = StarterTask executor n)
                     (snd (start_guarded env AsyncThreadPoolExecutorStrategy
                             c executor s1))).
      { apply start_guarded_ready_calls;
          try (intros; discriminate); try (intros; congruence).
        intros l' _ _. split; [intros; discriminate |].
        intros n pool' tk' [= <- <-]. split; [reflexivity | now exists n]. }
      rewrite Forall_forall in H1, H2, H3, H4.
      apply in_app_or in Hin as [Hin | Hin];
        [now destruct (H1 _ Hin) |].
      apply in_app_or in Hin as [Hin | Hin];
        [exact (H2 _ Hin pool tk eq_refl) |].
      apply in_app_or in Hin as [Hin | Hin];
        [now destruct (H3 _ Hin) | now destruct (H4 _ Hin)].
    + rewrite Hoffers, Hsubmitted. exact Hsub.
    + exists rest. now rewrite Hoffers.
Qed.

End Bridge.

(** ** More runs of the scripted environment *)

Section MoreRuns.

Import Demo.

(** Nothing fails and the context dies after two ticks. *)
Lemma quiet_run_ends_after_two_ticks :
  execute (env quiet) ThreadPoolExecutorStrategy G 10 s0 =
    (Normal G, mkStore 2 [110; 120; 130] None,
     [CreateContext G None; CtxWrite G;
      CreateExecutor ThreadPoolExecutor (Some 3); ExecEnter 1;
      CtxStart G; Offer 10; Submit 1 (RunnerTask 10);
      Offer 20; Submit 1 (RunnerTask 20); Offer 30; Submit 1 (RunnerTask 30);
      CtxStartEnd G;
      CtxAlive G; CtxTick G; CtxAlive G; CtxTick G; CtxAlive G;
      CtxStop G; ExecExit 1 None]).
Proof.
  pose proof (execute_returns_when_context_dies (env quiet)
                ThreadPoolExecutorStrategy G 10 s0 G 1 1 _ _ _ _ 2 _ _ _ tt _
                false _ eq_refl eq_refl eq_refl eq_refl eq_refl eq_refl
                ltac:(lia)) as Hrun.
  cbv zeta in Hrun. exact (proj1 Hrun).
Defined.

(** The second tick fails and the pool's [__exit__] returns a true value:
    the failure does not leave [execute]. *)
Lemma swallowing_pool_hides_failed_tick :
  execute (Faulty.env failed_tick Faulty.swallowing_executor)
    ThreadPoolExecutorStrategy G 10 s0 =
    (Normal G, mkStore 2 [110; 120; 130] None,
     [CreateContext G None; CtxWrite G;
      CreateExecutor ThreadPoolExecutor (Some 3); ExecEnter 1;
      CtxStart G; Offer 10; Submit 1 (RunnerTask 10);
      Offer 20; Submit 1 (RunnerTask 20); Offer 30; Submit 1 (RunnerTask 30);
      CtxStartEnd G;
      CtxAlive G; CtxTick G; CtxAlive G; CtxTick G;
      ExecExit 1 (Some boom)]).
Proof.
  pose proof (proj1 (executor_exit_decides_what_leaves
                       (Faulty.env failed_tick Faulty.swallowing_executor)
                       ThreadPoolExecutorStrategy G 10 s0 G 1 1 _ _ eq_refl)
                boom _ _ eq_refl) as (_ & Htrue & _).
  exact (Htrue _ eq_refl).
Defined.

(** The second tick fails: no warning, no [kill()], no [stop()], and the
    failure leaves [execute]. *)
Lemma failed_tick_leaves_execute :
  execute (env failed_tick) ThreadPoolExecutorStrategy G 10 s0 =
    (Raised boom, mkStore 2 [110; 120; 130] None,
     [CreateContext G None; CtxWrite G;
      CreateExecutor ThreadPoolExecutor (Some 3); ExecEnter 1;
      CtxStart G; Offer 10; Submit 1 (RunnerTask 10);
      Offer 20; Submit 1 (RunnerTask 20); Offer 30; Submit 1 (RunnerTask 30);
      CtxStartEnd G;
      CtxAlive G; CtxTick G; CtxAlive G; CtxTick G;
      ExecExit 1 (Some boom)]).
Proof.
  pose proof (proj1 (loop_failure_is_not_handled (env failed_tick)
                       ThreadPoolExecutorStrategy G 10 s0 G 1 1 _ _ _ _ 1 _ _
                       eq_refl eq_refl eq_refl ltac:(lia))
                _ boom _ eq_refl eq_refl eq_refl) as Hrun.
  cbv zeta in Hrun. destruct Hrun as (_ & _ & _ & _ & Hleaves).
  exact (Hleaves _ eq_refl).
Defined.

(** The quiet run releases the pool once. *)
Lemma quiet_run_releases_pool_once :
  count is_release
    (snd (execute (env quiet) ThreadPoolExecutorStrategy G 10 s0)) = 1.
Proof.
  pose proof (entered_executor_is_released_once (env quiet)
                ThreadPoolExecutorStrategy G 10 s0 G 1 1 _ _ eq_refl) as Hrun.
  cbv zeta in Hrun. destruct Hrun as (_ & Hdone & _).
  destruct (Hdone ltac:(simpl; discriminate)) as (body & x & _ & _ & Hone).
  exact Hone.
Defined.

(** A factory that refuses a pool of no worker, and the empty graph:
    [execute] ends in the prologue. *)
Lemma empty_graph_aborts_setup :
  execute (Faulty.env quiet Faulty.strict_factory)
    ThreadPoolExecutorStrategy [] 10 s0 =
    (Raised Faulty.bad_size, s0,
     [CreateContext [] None; CtxWrite [];
      CreateExecutor ThreadPoolExecutor (Some 0)]).
Proof.
  exact (proj1 (setup_failure_aborts
                  (Faulty.env quiet Faulty.strict_factory)
                  ThreadPoolExecutorStrategy [] 10 s0 Faulty.bad_size _ _
                  eq_refl)).
Defined.

(** The pool refuses node 20: its handle is missing from the futures, and
    one record is logged. *)
Lemma refused_handle_is_not_kept :
  exists s1 t1,
    offer_all G (starter (env refused_submit) 1) s0 = (Normal tt, s1, t1) /\
    futures s1 = [110; 130] /\ count is_log t1 = 1.
Proof.
  destruct (futures_hold_the_accepted_handles (env refused_submit) 1 G s0
              ltac:(simpl; repeat split))
    as (s1 & t1 & Hrun & Hfutures & Hlogs & _).
  exists s1, t1. split; [exact Hrun |]. split; [exact Hfutures |].
  simpl in Hlogs. lia.
Defined.

(** The event loop is closed: the starter of the event-loop strategy
    raises before it submits. *)
Lemma closed_loop_refuses_node :
  bridged_starter (Faulty.env quiet Faulty.closed_loop) 7 1 10 s0 =
    (Raised boom, s0, [LoopCheckClosed 7]).
Proof.
  exact (proj1 (proj2 (bridged_starter_contains_nothing
                         (Faulty.env quiet Faulty.closed_loop) 7 1))
           10 s0 boom 0 eq_refl).
Defined.

(** The loop of node 10 fails and the node's [__exit__] returns a true
    value: the runner logs nothing. *)
Lemma swallowed_loop_failure_is_not_logged :
  _runner (Faulty.env failed_loop Faulty.swallowing_node) 10 s0 =
    (Normal PyNone, s0, [NodeEnter 10; NodeLoop 10; NodeExit 10 (Some boom)]).
Proof.
  exact (proj1 (proj2 (proj2 (loop_runs_only_in_acquired_scope
                                (Faulty.env failed_loop Faulty.swallowing_node)
                                10 s0)))
           tt 0 boom 0 0 eq_refl eq_refl eq_refl).
Defined.

(** The first tick of the quiet run. *)
Lemma first_tick_follows_alive_check :
  exists pre post pre',
    snd (execute (env quiet) ThreadPoolExecutorStrategy G 10 s0) =
      pre ++ CtxTick G :: post /\
    pre = pre' ++ [CtxAlive G].
Proof.
  pose (pre := [@CreateContext nat (list nat) nat nat G None; CtxWrite G;
                CreateExecutor ThreadPoolExecutor (Some 3); ExecEnter 1;
                CtxStart G; Offer 10; Submit 1 (RunnerTask 10);
                Offer 20; Submit 1 (RunnerTask 20);
                Offer 30; Submit 1 (RunnerTask 30); CtxStartEnd G;
                CtxAlive G]).
  pose (post := [CtxAlive G; CtxTick G; CtxAlive G; CtxStop G;
                 @ExecExit nat (list nat) nat nat 1 None]).
  exists pre, post.
  destruct (tick_follows_alive_check (env quiet) ThreadPoolExecutorStrategy
              G 10 s0 pre G post eq_refl) as (pre' & Hpre).
  exists pre'. split; [reflexivity | exact Hpre].
Defined.

(** The interrupted run: [kill()] comes right after the warning, and
    nothing ticks afterwards. *)
Lemma interrupted_run_kills_after_warning :
  exists pre post pre',
    snd (execute (env interrupted) ThreadPoolExecutorStrategy G 10 s0) =
      pre ++ CtxKill G :: post /\
    pre = pre' ++ [CtxAlive G; CtxTick G; Log WARNING Msg.interrupted None] /\
    count is_kill pre = 0 /\ count is_tick post = 0.
Proof.
  pose (pre := [@CreateContext nat (list nat) nat nat G None; CtxWrite G;
                CreateExecutor ThreadPoolExecutor (Some 3); ExecEnter 1;
                CtxStart G; Offer 10; Submit 1 (RunnerTask 10);
                Offer 20; Submit 1 (RunnerTask 20);
                Offer 30; Submit 1 (RunnerTask 30); CtxStartEnd G;
                CtxAlive G; CtxTick G; CtxAlive G; CtxTick G;
                Log WARNING Msg.interrupted None]).
  pose (post := [CtxStop G; @ExecExit nat (list nat) nat nat 1 None]).
  exists pre, post.
  destruct (kill_only_answers_an_interrupt (env interrupted)
              ThreadPoolExecutorStrategy G 10 s0 pre G post eq_refl)
    as ((pre' & Hpre) & Hkill & _ & _ & Htick).
  exists pre'. repeat split; trivial.
Defined.

(** Every call of the quiet run on a context is on the context built. *)
Lemma quiet_run_keeps_its_context :
  Forall (fun ev => forall c', context_of ev = Some c' -> c' = G)
    (snd (execute (env quiet) ThreadPoolExecutorStrategy G 10 s0)).
Proof.
  exact (proj1 (execute_works_on_the_context_it_built (env quiet)
                  ThreadPoolExecutorStrategy G 10 s0 G _ _ eq_refl)).
Defined.

(** Submitting for node 20 is interrupted: two nodes were offered and a
    runner was submitted for each. *)
Lemma interrupted_start_submits_what_was_offered :
  let t := snd (execute (env interrupted_submit)
                  ThreadPoolExecutorStrategy G 10 s0) in
  submitted t = map RunnerTask (offers t) /\
  (exists rest, G = offers t ++ rest) /\
  offers t = [10; 20].
Proof.
  pose proof (runners_follow_the_offers (env interrupted_submit)
                ThreadPoolExecutorStrategy G 10 s0 G 1 1 _ _
                ltac:(discriminate) eq_refl) as Hrun.
  cbv zeta in Hrun. destruct Hrun as (Hsub & Hprefix & _ & Hoffers).
  cbv zeta. split; [exact Hsub |]. split; [exact Hprefix | exact Hoffers].
Defined.

(** The event-loop starter on an open loop, for node 10 of the quiet run:
    a future of loop 7 around the handle of the pool, which is the pool of
    three workers the prologue entered. *)
Lemma async_starter_returns_future :
  run_in_executor (env quiet) 7 1 (StarterTask 1 10) s0 =
    (Normal (AsyncFuture 7 210), s0,
     [LoopCheckClosed 7; Submit 1 (StarterTask 1 10)]) /\
  exists w0 w1,
    executor_factory (env quiet) ThreadPoolExecutor (Some 3) w0 =
      (Returns 1, w1) /\
    exec_enter (env quiet) 1 w1 = (Returns 1, 0).
Proof.
  pose proof (async_starter_runs_on_the_pool (env quiet) G s0)
    as (_ & _ & _ & Hcall & _ & _ & Hexecute).
  split; [exact (Hcall 7 1 10 s0) |].
  exact (proj1 (Hexecute 10 G 1 1 _ _ eq_refl)).
Defined.

(** C10, counterexample.  The event loop is closed: the starter of the
    event-loop strategy, invoked for node 10, raises [RuntimeError] before
    anything is submitted, and returns no handle. *)
Lemma closed_loop_gives_no_handle :
  let world_of_loop := Faulty.env quiet Faulty.closed_loop in
  let s7 := @mkStore nat nat nat 0 [] (Some 7) in
  exists f,
    get_starter world_of_loop AsyncThreadPoolExecutorStrategy 1 s7 =
      (Normal f, s7, []) /\
    f 10 s7 = (Raised boom, s7, [LoopCheckClosed 7]) /\
    forall v, fst (fst (f 10 s7)) <> Normal v.
Proof.
  eexists. split; [reflexivity |]. split; [reflexivity |].
  intros v. discriminate.
Qed.

End MoreRuns.
